(** * Resumable, deduplicating large-file upload: model and properties

    A shallow embedding of the upload SDK (chunk splitter, task queue,
    upload controller) and of the server side (chunk store, session
    registry, assembly), followed by the properties established for them.

    Conventions.
    - JavaScript numbers that hold counts, sizes and offsets are modelled
      as [Z] or [nat]; every value of that kind in the code is an integer
      far below 2^53, where JS arithmetic is exact.
    - Asynchronous code is modelled as a transition system: one step per
      callback that the event loop runs (a response arriving, a timer
      firing, a [finally] handler running).
    - The file system is modelled as finite maps from paths to contents. *)

From Stdlib Require Import ZArith QArith Qpower Lia Lqa List Bool Ascii String.
From Stdlib.Strings Require Import Byte.
From stdpp Require Import base option list gmap strings fin_maps sorting.

Local Open Scope string_scope.
Local Open Scope list_scope.
Local Open Scope Z_scope.

Abbreviation bytes := (list byte).

(** ** The content hash

    Both sides use MD5: [SparkMD5] in the browser and
    [crypto.createHash('md5')] on the server.  The hash is a library, not
    code of this repository; it is modelled after RFC 1321 so that digests
    can be computed on concrete inputs. *)
Module MD5.

Definition mask32 : Z := 4294967295.

Definition add32 (x y : Z) : Z := Z.land (x + y) mask32.

Definition not32 (x : Z) : Z := Z.lxor x mask32.

Definition rotl32 (x : Z) (n : Z) : Z :=
  Z.lor (Z.land (Z.shiftl x n) mask32) (Z.shiftr x (32 - n)).

(** Per-round shift amounts. *)
Definition shifts : list Z :=
  [ 7; 12; 17; 22; 7; 12; 17; 22; 7; 12; 17; 22; 7; 12; 17; 22;
    5; 9; 14; 20; 5; 9; 14; 20; 5; 9; 14; 20; 5; 9; 14; 20;
    4; 11; 16; 23; 4; 11; 16; 23; 4; 11; 16; 23; 4; 11; 16; 23;
    6; 10; 15; 21; 6; 10; 15; 21; 6; 10; 15; 21; 6; 10; 15; 21 ]%Z.

(** [floor (2^32 * abs (sin (i + 1)))] for i = 0..63. *)
Definition sines : list Z :=
  [ 3614090360; 3905402710; 606105819; 3250441966; 4118548399; 1200080426;
    2821735955; 4249261313; 1770035416; 2336552879; 4294925233; 2304563134;
    1804603682; 4254626195; 2792965006; 1236535329; 4129170786; 3225465664;
    643717713; 3921069994; 3593408605; 38016083; 3634488961; 3889429448;
    568446438; 3275163606; 4107603335; 1163531501; 2850285829; 4243563512;
    1735328473; 2368359562; 4294588738; 2272392833; 1839030562; 4259657740;
    2763975236; 1272893353; 4139469664; 3200236656; 681279174; 3936430074;
    3572445317; 76029189; 3654602809; 3873151461; 530742520; 3299628645;
    4096336452; 1126891415; 2878612391; 4237533241; 1700485571; 2399980690;
    4293915773; 2240044497; 1873313359; 4264355552; 2734768916; 1309151649;
    4149444226; 3174756917; 718787259; 3951481745 ]%Z.

Record state := State { sa : Z; sb : Z; sc : Z; sd : Z }.

Definition init : state :=
  State 1732584193 4023233417 2562383102 271733878.

Definition byteZ (b : byte) : Z := Z.of_N (Byte.to_N b).

(** Padding: a 1 bit, zeros up to 56 mod 64, then the bit length on 64
    bits, little endian. *)
Definition le_bytes (n : nat) (v : Z) : list Z :=
  map (fun i => Z.land (Z.shiftr v (8 * Z.of_nat i)) 255) (seq 0 n).

Definition pad (msg : list Z) : list Z :=
  let len := Z.of_nat (length msg) in
  let zeros := Z.to_nat ((55 - len) mod 64) in
  msg ++ 128 :: repeat 0 zeros ++ le_bytes 8 (8 * len).

Fixpoint words (fuel : nat) (bs : list Z) : list Z :=
  match fuel, bs with
  | S k, b0 :: b1 :: b2 :: b3 :: rest =>
      (b0 + Z.shiftl b1 8 + Z.shiftl b2 16 + Z.shiftl b3 24) :: words k rest
  | _, _ => []
  end.

Definition round_fun (i : nat) (b c d : Z) : Z * nat :=
  if (i <? 16)%nat then
    (Z.lor (Z.land b c) (Z.land (not32 b) d), i)
  else if (i <? 32)%nat then
    (Z.lor (Z.land d b) (Z.land (not32 d) c), (5 * i + 1) mod 16)%nat
  else if (i <? 48)%nat then
    (Z.lxor b (Z.lxor c d), (3 * i + 5) mod 16)%nat
  else
    (Z.lxor c (Z.lor b (not32 d)), (7 * i) mod 16)%nat.

Definition step (m : list Z) (st : state) (i : nat) : state :=
  let '(f, g) := round_fun i (sb st) (sc st) (sd st) in
  let f' := add32 (add32 (add32 f (sa st)) (nth i sines 0)) (nth g m 0) in
  State (sd st) (add32 (sb st) (rotl32 f' (nth i shifts 0))) (sb st) (sc st).

Definition compress (h : state) (m : list Z) : state :=
  let r := fold_left (step m) (seq 0 64) h in
  State (add32 (sa h) (sa r)) (add32 (sb h) (sb r))
        (add32 (sc h) (sc r)) (add32 (sd h) (sd r)).

Fixpoint blocks (fuel : nat) (ws : list Z) (h : state) : state :=
  match fuel, ws with
  | S k, _ :: _ => blocks k (skipn 16 ws) (compress h (firstn 16 ws))
  | _, _ => h
  end.

Definition digest (msg : bytes) : state :=
  let p := pad (map byteZ msg) in
  blocks (length p) (words (length p) p) init.

Definition hex_digit (v : Z) : ascii :=
  if v <? 10 then ascii_of_N (Z.to_N (48 + v)) else ascii_of_N (Z.to_N (87 + v)).

Definition hex_byte (v : Z) (k : string) : string :=
  String (hex_digit (Z.shiftr v 4)) (String (hex_digit (Z.land v 15)) k).

(** A 32-bit word printed as its four bytes, least significant first. *)
Definition hex_word (w : Z) (k : string) : string :=
  hex_byte (Z.land w 255)
    (hex_byte (Z.land (Z.shiftr w 8) 255)
       (hex_byte (Z.land (Z.shiftr w 16) 255)
          (hex_byte (Z.land (Z.shiftr w 24) 255) k))).

Definition hex (msg : bytes) : string :=
  let st := digest msg in
  hex_word (sa st) (hex_word (sb st) (hex_word (sc st) (hex_word (sd st) ""))).

End MD5.

Definition bytes_of_string (s : string) : bytes := list_byte_of_string s.


(** ** Chunk.ts *)

(** A browser [File]: its metadata and its bytes ([size] is the length). *)
Record File := {
  file_name : string;
  file_type : string;
  file_lastModified : Z;
  file_content : bytes
}.

Definition file_size (f : File) : nat := length (file_content f).

(** [Blob.slice(start, end)] for offsets that are natural numbers: both
    ends are clamped to the size and an inverted range is empty. *)
Definition blob_slice {A} (s e : nat) (data : list A) : list A :=
  firstn (e - s) (skipn s data).

Record Chunk := {
  blob : bytes;
  start : nat;
  end_ : nat;
  hash : string;
  index : nat
}.

Definition createChunk (file : File) (index chunkSize : nat) : Chunk :=
  let start := (index * chunkSize)%nat in
  let end_ := Nat.min ((index + 1) * chunkSize) (file_size file) in
  {| blob := blob_slice start end_ (file_content file);
     start := start; end_ := end_; hash := ""; index := index |}.

(** [calcChunkHash]: SparkMD5.ArrayBuffer over the bytes of the blob. *)
Definition calcChunkHash (chunk : Chunk) : string := MD5.hex (blob chunk).

Definition with_hash (h : string) (c : Chunk) : Chunk :=
  {| blob := blob c; start := start c; end_ := end_ c; hash := h; index := index c |}.

(** [calcChunksHash]: every chunk gets its hash; the array keeps its order. *)
Definition calcChunksHash (chunks : list Chunk) : list Chunk :=
  map (fun c => with_hash (calcChunkHash c) c) chunks.

(** A digested chunk as a client sends it: its digest is the hash of its
    bytes and its offsets span them. *)
Definition sound_chunk (c : Chunk) : Prop :=
  hash c = MD5.hex (blob c)
  /\ Z.of_nat (length (blob c)) = Z.of_nat (end_ c) - Z.of_nat (start c).

(** ** EventEmitter.ts *)
Module EventEmitter.

(** A listener is a function object, told apart from the others by
    identity: a function of the caller, or the closure [onceListener] that
    a call of [once] builds around one.  [serial] numbers the calls of
    [once], so that every call has a closure of its own. *)
Inductive Listener :=
| fn (id : nat)
| onceListener (serial id : nat).

#[global] Instance Listener_eq_dec : EqDecision Listener.
Proof. solve_decision. Defined.

Record t := {
  events : gmap string (list Listener);   (* Map<T, Set<Function>>, in insertion order *)
  onces : nat                             (* calls of [once] so far *)
}.

Definition new : t := {| events := ∅; onces := 0 |}.

(** [Set.add]: a function already in the set keeps its place. *)
Definition set_add (listener : Listener) (ls : list Listener) : list Listener :=
  if decide (listener ∈ ls) then ls else ls ++ [listener].

Definition on_ (event : string) (listener : Listener) (e : t) : t :=
  let ls := default [] (events e !! event) in
  {| events := <[event := set_add listener ls]> (events e); onces := onces e |}.

Definition off (event : string) (listener : Listener) (e : t) : t :=
  match events e !! event with
  | None => e
  | Some ls =>
      {| events := <[event := List.filter (fun l => negb (bool_decide (l = listener))) ls]>
                     (events e);
         onces := onces e |}
  end.

Definition once (event : string) (id : nat) (e : t) : t :=
  on_ event (onceListener (onces e) id) {| events := events e; onces := S (onces e) |}.

(** The function of the caller that a listener runs. *)
Definition target (l : Listener) : nat :=
  match l with fn id | onceListener _ id => id end.

Definition is_fn (l : Listener) : bool :=
  match l with fn _ => true | onceListener _ _ => false end.

(** One step of the [forEach] of [emit]: the listener is called; a
    [onceListener] calls its function and then removes itself. *)
Definition call (event : string) (acc : t * list nat) (l : Listener) : t * list nat :=
  match l with
  | fn id => (fst acc, snd acc ++ [id])
  | onceListener _ id => (off event l (fst acc), snd acc ++ [id])
  end.

(** [emit]: the listeners of the event are called in insertion order.  The
    functions of the caller are taken not to call back into the emitter
    while it iterates, so that the set only changes by a [onceListener]
    removing itself.  The result lists the functions that were called. *)
Definition emit (event : string) (e : t) : t * list nat :=
  match events e !! event with
  | None => (e, [])
  | Some ls => fold_left (call event) ls (e, [])
  end.

Definition removeAllListeners (e : t) : t := {| events := ∅; onces := onces e |}.

Definition listenerCount (event : string) (e : t) : nat :=
  match events e !! event with
  | Some ls => length ls
  | None => 0%nat
  end.

(** The listeners of an event, none if the event was never subscribed. *)
Definition listeners (event : string) (e : t) : list Listener :=
  default [] (events e !! event).

(** What is left of the set [cur] when the listeners [todo] have run. *)
Definition survivors (todo cur : list Listener) : list Listener :=
  List.filter (fun l => negb (negb (is_fn l) && bool_decide (l ∈ todo))) cur.

(** The closures of [once] in the sets were built by earlier calls. *)
Definition wf (e : t) : Prop :=
  forall event serial id, onceListener serial id ∈ listeners event e -> (serial < onces e)%nat.

(** What a caller can do with an emitter; it only has its own functions
    to pass. *)
Inductive Op :=
| op_on (event : string) (id : nat)
| op_off (event : string) (id : nat)
| op_once (event : string) (id : nat)
| op_emit (event : string)
| op_removeAllListeners.

Definition step (op : Op) (e : t) : t :=
  match op with
  | op_on event id => on_ event (fn id) e
  | op_off event id => off event (fn id) e
  | op_once event id => once event id e
  | op_emit event => fst (emit event e)
  | op_removeAllListeners => removeAllListeners e
  end.

Definition run (ops : list Op) (e : t) : t :=
  fold_left (fun e op => step op e) ops e.

End EventEmitter.

(** ** ChunkSplitor.ts, MultiThreadSplitor.ts, SingleThreadSplitor.ts *)
Module ChunkSplitor.

Inductive Event :=
| chunks_ev (batch : list Chunk)
| wholeHash_ev (h : string)
| drain_ev.

(** The incremental [SparkMD5] instance: [append] extends the buffered
    text, [end] hashes all of it. *)
Definition spark_append (buf s : string) : string := String.append buf s.
Definition spark_end (buf : string) : string := MD5.hex (bytes_of_string buf).

Record t := {
  chunkSize : nat;
  file : File;
  hash_ : option string;          (* this.hash *)
  chunks : list Chunk;
  handleChunkCount : nat;
  spark : string;
  hasSplited : bool;
  handler_on : bool;   (* chunksHandler is registered on the inner emitter *)
  emitted : list Event (* events emitted on the splitter, oldest first *)
}.

(** [Math.ceil(a / b)] on natural numbers, [b > 0]. *)
Definition ceil_div (a b : nat) : nat := ((a + b - 1) / b)%nat.

(** The constructor.  With [chunkSize = 0] the quotient is [NaN] or
    [Infinity] and [new Array(chunkCount)] throws. *)
Definition new (file : File) (chunkSize : nat) : option t :=
  if (chunkSize =? 0)%nat then None
  else
    let chunkCount := ceil_div (file_size file) chunkSize in
    Some {| chunkSize := chunkSize; file := file; hash_ := None;
            chunks := map (fun index => createChunk file index chunkSize) (seq 0 chunkCount);
            handleChunkCount := 0; spark := ""; hasSplited := false;
            handler_on := false; emitted := [] |}.

Definition emit (e : Event) (s : t) : t :=
  {| chunkSize := chunkSize s; file := file s; hash_ := hash_ s; chunks := chunks s;
     handleChunkCount := handleChunkCount s; spark := spark s;
     hasSplited := hasSplited s; handler_on := handler_on s;
     emitted := emitted s ++ [e] |}.

(** The closure [chunksHandler] of [split]. *)
Definition chunksHandler (batch : list Chunk) (s : t) : t :=
  let s1 := emit (chunks_ev batch) s in
  let buf := fold_left (fun b c => spark_append b (hash c)) batch (spark s1) in
  let count := (handleChunkCount s1 + length batch)%nat in
  let s2 := {| chunkSize := chunkSize s1; file := file s1; hash_ := hash_ s1;
               chunks := chunks s1; handleChunkCount := count; spark := buf;
               hasSplited := hasSplited s1; handler_on := handler_on s1;
               emitted := emitted s1 |} in
  if (count =? length (chunks s2))%nat then
    let h := spark_end buf in
    let s3 := {| chunkSize := chunkSize s2; file := file s2; hash_ := Some h;
                 chunks := chunks s2; handleChunkCount := count; spark := "";
                 hasSplited := hasSplited s2; handler_on := false;
                 emitted := emitted s2 |} in
    emit drain_ev (emit (wholeHash_ev h) s3)
  else s2.

(** [emitter.emit('chunks', results)] on the inner emitter of [split]. *)
Definition deliver (batch : list Chunk) (s : t) : t :=
  if handler_on s then chunksHandler batch s else s.

(** [SingleThreadSplitor.calcHash]: consecutive slices of [batchSize]
    chunks, digested and emitted one after the other.  The list is the
    sequence of emitted batches. *)
Fixpoint batches_of (fuel batchSize : nat) (l : list Chunk) : list (list Chunk) :=
  match fuel, l with
  | S k, _ :: _ => firstn batchSize l :: batches_of k batchSize (skipn batchSize l)
  | _, _ => []
  end.

Definition calcHash_single (batchSize : nat) (chunks : list Chunk) : list (list Chunk) :=
  map calcChunksHash (batches_of (length chunks) batchSize chunks).

(** [MultiThreadSplitor.calcHash] with [workers] workers: the work items
    posted, one per worker with a non-empty slice, each answered by one
    message carrying the slice with its hashes filled in.  The list is in
    posting order; the order of the answers is up to the workers. *)
Definition calcHash_multi (workers : nat) (chunks : list Chunk) : list (list Chunk) :=
  if (workers =? 0)%nat then calcHash_single 3 chunks
  else
    let workerSize := ceil_div (length chunks) workers in
    let slices :=
      map (fun i => blob_slice (i * workerSize)
                      (Nat.min ((i + 1) * workerSize) (length chunks)) chunks)
          (seq 0 workers) in
    map calcChunksHash (List.filter (fun b => negb (length b =? 0)%nat) slices).

(** [split()] up to the call of [calcHash]: single shot. *)
Definition split_begin (s : t) : option t :=
  if hasSplited s then None
  else Some {| chunkSize := chunkSize s; file := file s; hash_ := hash_ s;
               chunks := chunks s; handleChunkCount := handleChunkCount s;
               spark := spark s; hasSplited := true; handler_on := true;
               emitted := emitted s |}.

(** A whole run of [split()]: the answers come back in the order
    [arrival], a list of the posted batches. *)
Definition split (arrival : list (list Chunk)) (s : t) : t :=
  match split_begin s with
  | None => s
  | Some s' => fold_left (fun acc b => deliver b acc) arrival s'
  end.

(** The digest of the file as section 4.1 words it: the chunk digests,
    in index order, fed to a fresh hash. *)
Definition fold_spec (digests : list string) : string :=
  MD5.hex (bytes_of_string (fold_left String.append digests "")).

Definition wholeHash_spec (file : File) (chunkSize : nat) : string :=
  fold_spec
    (map (fun index => calcChunkHash (createChunk file index chunkSize))
         (seq 0 (ceil_div (file_size file) chunkSize))).

(** The events of a run sorted by kind. *)
Definition is_chunks (e : Event) : bool :=
  match e with chunks_ev _ => true | _ => false end.

(** What [split()] has emitted: batches only, while the handler is
    subscribed, or batches followed by the digest and [drain]. *)
Definition emitted_shape (s : t) : Prop :=
  (handler_on s = true /\ hash_ s = None /\ Forall (fun e => is_chunks e = true) (emitted s))
  \/ (handler_on s = false
      /\ exists h pre, hash_ s = Some h
                       /\ emitted s = pre ++ [wholeHash_ev h; drain_ev]
                       /\ Forall (fun e => is_chunks e = true) pre).

(** [getProgress()]: [total] and [completed]; the percentage, a
    floating-point quotient of the two, is left out. *)
Definition getProgress (s : t) : nat * nat :=
  (length (chunks s), handleChunkCount s).

End ChunkSplitor.

(** ** TaskQueue.ts *)
Module TaskQueue.

Inductive Status := paused | running.

Inductive Event := start_ev | pause_ev | drain_ev.

(** What [getStatus()] returns. *)
Record Snapshot := {
  snap_status : Status;
  pendingTasks : nat;
  runningTasks : Z;
  snap_concurrency : Z
}.

(** What an operation of the queue does to the outside, in order: an
    event handed to the listeners, with what [getStatus()] would answer
    at that instant, or a task thunk started by [task.run()]. *)
Inductive Effect (Task : Type) :=
| Emit (e : Event) (at_ : Snapshot)
| Launch (task : Task).
Arguments Emit {Task} e at_.
Arguments Launch {Task} task.

Section queue.
Context {Task : Type} `{EqDecision Task}.

Record t := {
  tasks : list Task;       (* Set<Task>, in insertion order *)
  currentCount : Z;
  status : Status;
  concurrency : Z;
  inflight : list Task     (* started thunks whose [finally] has not run yet *)
}.

Definition new (concurrency : Z) : t :=
  {| tasks := []; currentCount := 0; status := paused;
     concurrency := concurrency; inflight := [] |}.

Definition getStatus (q : t) : Snapshot :=
  {| snap_status := status q; pendingTasks := length (tasks q);
     runningTasks := currentCount q; snap_concurrency := concurrency q |}.

Definition set_tasks (ts : list Task) (q : t) : t :=
  {| tasks := ts; currentCount := currentCount q; status := status q;
     concurrency := concurrency q; inflight := inflight q |}.

Definition set_status (st : Status) (q : t) : t :=
  {| tasks := tasks q; currentCount := currentCount q; status := st;
     concurrency := concurrency q; inflight := inflight q |}.

Definition set_concurrency (c : Z) (q : t) : t :=
  {| tasks := tasks q; currentCount := currentCount q; status := status q;
     concurrency := c; inflight := inflight q |}.

(** [Set.add]: an object already in the set keeps its place. *)
Definition set_add (task : Task) (ts : list Task) : list Task :=
  if decide (task ∈ ts) then ts else ts ++ [task].

Definition add (ts : list Task) (q : t) : t :=
  set_tasks (fold_left (fun acc task => set_add task acc) ts (tasks q)) q.

(** [currentCount++] and the start of the thunk. *)
Definition launch (task : Task) (q : t) : t :=
  {| tasks := tasks q; currentCount := currentCount q + 1; status := status q;
     concurrency := concurrency q; inflight := inflight q ++ [task] |}.

(** [runNext], by recursion on the pending tasks: [pending] is the
    content of [this.tasks] when the call starts. *)
Fixpoint runNext_from (pending : list Task) (q : t) : t * list (Effect Task) :=
  let q := set_tasks pending q in
  match status q with
  | paused => (q, [])
  | running =>
      if concurrency q <=? currentCount q then (q, [])
      else
        match pending with
        | [] =>
            if currentCount q =? 0 then
              let q' := set_status paused q in
              (q', [Emit drain_ev (getStatus q')])
            else (q, [])
        | task :: rest =>
            let '(q', eff) := runNext_from rest (launch task q) in
            (q', Launch task :: eff)
        end
  end.

Definition runNext (q : t) : t * list (Effect Task) :=
  runNext_from (tasks q) q.

Definition start (q : t) : t * list (Effect Task) :=
  match status q with
  | running => (q, [])
  | paused =>
      if (length (tasks q) =? 0)%nat then (q, [Emit drain_ev (getStatus q)])
      else
        let q1 := set_status running q in
        let '(q2, eff) := runNext q1 in
        (q2, Emit start_ev (getStatus q1) :: eff)
  end.

Definition addAndStart (ts : list Task) (q : t) : t * list (Effect Task) :=
  start (add ts q).

Definition pause (q : t) : t * list (Effect Task) :=
  let q' := set_status paused q in
  (q', [Emit pause_ev (getStatus q')]).

Definition setConcurrency (c : Z) (q : t) : t * list (Effect Task) :=
  let q' := set_concurrency (Z.max 1 c) q in
  match status q' with
  | running => runNext q'
  | paused => (q', [])
  end.

Definition clear (q : t) : t * list (Effect Task) :=
  pause (set_tasks [] q).

Fixpoint remove_first (task : Task) (l : list Task) : list Task :=
  match l with
  | [] => []
  | x :: r => if decide (x = task) then r else x :: remove_first task r
  end.

(** The [finally] callback of a started task, whether it was fulfilled
    or rejected.  It only exists for a task that is in flight. *)
Definition settle (task : Task) (q : t) : t * list (Effect Task) :=
  if decide (task ∈ inflight q) then
    runNext {| tasks := tasks q; currentCount := currentCount q - 1;
               status := status q; concurrency := concurrency q;
               inflight := remove_first task (inflight q) |}
  else (q, []).

(** The calls a client can make, and the completion of a task. *)
Inductive Op :=
| op_add (ts : list Task)
| op_addAndStart (ts : list Task)
| op_start
| op_pause
| op_clear
| op_setConcurrency (c : Z)
| op_settle (task : Task).

Definition step (op : Op) (q : t) : t * list (Effect Task) :=
  match op with
  | op_add ts => (add ts q, [])
  | op_addAndStart ts => addAndStart ts q
  | op_start => start q
  | op_pause => pause q
  | op_clear => clear q
  | op_setConcurrency c => setConcurrency c q
  | op_settle task => settle task q
  end.

(** A sequence of operations; the effects accumulate, oldest first. *)
Fixpoint run (ops : list Op) (q : t) : t * list (Effect Task) :=
  match ops with
  | [] => (q, [])
  | op :: rest =>
      let '(q1, e1) := step op q in
      let '(q2, e2) := run rest q1 in
      (q2, e1 ++ e2)
  end.


(** The snapshots at which [drain] was emitted. *)
Definition drains (eff : list (Effect Task)) : list Snapshot :=
  omap (fun e => match e with Emit drain_ev s => Some s | _ => None end) eff.

(** The tasks started by a list of effects, in the order of their start. *)
Definition launched (eff : list (Effect Task)) : list Task :=
  omap (fun e => match e with Launch task => Some task | _ => None end) eff.

(** The tasks an operation hands to [add]. *)
Definition added (op : Op) : list Task :=
  match op with
  | op_add ts | op_addAndStart ts => ts
  | _ => []
  end.

Definition is_clear (op : Op) : bool :=
  match op with op_clear => true | _ => false end.

Definition is_settle (op : Op) : bool :=
  match op with op_settle _ => true | _ => false end.

(** Every [op_settle] of the sequence is the [finally] of a task that is
    in flight when it runs. *)
Fixpoint settles_in_flight (ops : list Op) (q : t) : Prop :=
  match ops with
  | [] => True
  | op :: rest =>
      match op with
      | op_settle task => task ∈ inflight q
      | _ => True
      end
      /\ settles_in_flight rest (fst (step op q))
  end.

(** The counter is the number of tasks in flight. *)
Definition counted (q : t) : Prop := currentCount q = Z.of_nat (length (inflight q)).

(** A queue with a positive cap that, when it runs, has a task in flight. *)
Definition busy (q : t) : Prop :=
  1 <= concurrency q /\ counted q /\ (status q = running -> 1 <= currentCount q).

(** The [drain] of an idle queue. *)
Definition idle_snapshot (c : Z) : Snapshot :=
  {| snap_status := paused; pendingTasks := 0; runningTasks := 0; snap_concurrency := c |}.

(** The state of a queue that was started and has not been paused by
    hand: it runs with a task in flight and has emitted no [drain], or it
    is idle and [drain] was the last thing it emitted, once. *)
Definition draining (c : Z) (q : t) (eff : list (Effect Task)) : Prop :=
  counted q /\ concurrency q = c
  /\ ((status q = running /\ inflight q <> [] /\ drains eff = [])
      \/ (status q = paused /\ tasks q = [] /\ inflight q = []
          /\ exists pre, eff = pre ++ [Emit drain_ev (idle_snapshot c)]
                         /\ drains pre = [])).

End queue.
Arguments t Task : clear implicits.
Arguments Op Task : clear implicits.

End TaskQueue.

(** ** UploadController.ts and RequestStrategy.ts *)
Module UploadController.

Inductive UploadStatus :=
| IDLE | SPLITTING | UPLOADING | PAUSED | MERGING | COMPLETED | ERROR.

#[global] Instance UploadStatus_eq_dec : EqDecision UploadStatus.
Proof. solve_decision. Defined.

(** What the controller reports.  [percentage], [speed] and
    [remainingTime] are floating-point functions of the clock and are left
    out of the progress record. *)
Record UploadProgress := {
  loaded : nat;
  total : nat;
  uploadedChunks_count : nat;
  totalChunks : nat
}.

(** The errors the controller builds, and the ones it receives. *)
Inductive Error :=
| TransportError (msg : string)                  (* thrown by the request strategy *)
| NoUploadToken                                  (* 上传令牌不存在 *)
| CreateTaskFailed (cause : Error)               (* 创建上传任务失败: cause *)
| ChunkUploadFailed (index : nat) (cause : Error) (* 分片 index 上传失败: cause *)
| MergeFailed (cause : Error).                   (* 文件合并失败: cause *)

Inductive Event :=
| progress_ev (p : UploadProgress)
| chunkProgress_ev (chunk : Chunk)
| statusChange_ev (s : UploadStatus)
| complete_ev (url : string)
| error_ev (e : Error)
| pause_ev
| resume_ev.

(** [UploadOptions] as given by the caller, and [Required<UploadOptions>]
    after the constructor applied [option || default]. *)
Record UploadOptions := {
  opt_chunkSize : option N;
  opt_concurrency : option Z;
  opt_retryCount : option Z;
  opt_retryDelay : option Z;
  opt_enableMultiThread : option bool
}.

Record Options := {
  chunkSize : N;
  concurrency : Z;
  retryCount : Z;
  retryDelay : Z;
  enableMultiThread : bool
}.

Definition or_default_N (o : option N) (d : N) : N :=
  match o with
  | Some v => if (v =? 0)%N then d else v
  | None => d
  end.

Definition or_default (o : option Z) (d : Z) : Z :=
  match o with
  | Some v => if v =? 0 then d else v
  | None => d
  end.

Definition defaults (o : UploadOptions) : Options :=
  {| chunkSize := or_default_N (opt_chunkSize o) (5 * 1024 * 1024);
     concurrency := or_default (opt_concurrency o) 4;
     retryCount := or_default (opt_retryCount o) 3;
     retryDelay := or_default (opt_retryDelay o) 1000;
     enableMultiThread :=
       match opt_enableMultiThread o with Some false => false | _ => true end |}.

Definition set_chunkSize (v : N) (o : Options) : Options :=
  {| chunkSize := v; concurrency := concurrency o; retryCount := retryCount o;
     retryDelay := retryDelay o; enableMultiThread := enableMultiThread o |}.

(** [new Task(this.uploadChunk.bind(this), chunk)]: each task is an object
    of its own, told apart by [task_id]. *)
Record Task := { task_id : nat; payload : Chunk }.

#[global] Instance byte_eq_dec : EqDecision byte := Byte.byte_eq_dec.

#[global] Instance Chunk_eq_dec : EqDecision Chunk.
Proof. solve_decision. Defined.

#[global] Instance Task_eq_dec : EqDecision Task.
Proof. solve_decision. Defined.

(** RequestStrategy.ts *)
Inductive HashType := chunk_type | file_type_.

Record HashVerifyResponse := {
  hasFile : bool;
  rest : option (list string);
  url : option string
}.

Inductive Request :=
| req_createFile
| req_verifyHash (uploadToken hash : string) (type : HashType) (chunkIndex : option nat)
| req_uploadChunk (uploadToken : string) (chunk : Chunk)
| req_mergeFile (uploadToken fileHash : string) (chunks : list string).

(** Where a started [uploadChunk] call stands. [r_retries] is the
    [currentRetries] it read before its first [await]. *)
Inductive Phase :=
| AwaitVerify
| AwaitTransfer
| Fulfilled
| Rejected (e : Error).

Record Running := { r_task : Task; r_phase : Phase; r_retries : Z }.

Record Timer := { timer_chunk : Chunk; timer_delay : Q }.

(** JavaScript truthiness of a string. *)
Definition truthy (s : string) : bool := negb (String.eqb s "").

Definition truthy_opt (o : option string) : bool :=
  match o with Some s => truthy s | None => false end.

(** The controller, with what it is waiting for. *)
Record t := {
  file : File;
  options : Options;
  taskQueue : TaskQueue.t Task;
  status : UploadStatus;
  uploadToken : option string;
  fileHash : option string;
  chunks : list Chunk;
  uploadedChunks : gset nat;
  failedChunks : gmap nat Z;   (* chunk index -> retries so far *)
  uploadedBytes : nat;
  _completed : bool;
  splitor : bool;   (* a splitter exists and is not disposed *)
  listening : bool;   (* listeners are registered on the controller *)
  emitted : list Event;   (* every [this.emit], oldest first *)
  delivered : list Event;   (* those that reached a listener *)
  next_task : nat;   (* identity of the next [new Task] *)
  running : list Running;   (* started [uploadChunk] calls *)
  timers : list Timer;   (* pending [setTimeout] callbacks *)
  creating : bool;   (* [createFile] awaits its answer *)
  verifying_file : nat;   (* pending [verifyHash(.., 'file')] calls *)
  merging : nat;   (* pending [mergeFile] calls *)
  requests : list Request   (* every call to the request strategy *)
}.

Definition set_options (v : Options) (c : t) : t :=
  {| file := file c; options := v; taskQueue := taskQueue c; status := status c;
     uploadToken := uploadToken c; fileHash := fileHash c; chunks := chunks c;
     uploadedChunks := uploadedChunks c; failedChunks := failedChunks c;
     uploadedBytes := uploadedBytes c; _completed := _completed c; splitor := splitor c;
     listening := listening c; emitted := emitted c; delivered := delivered c;
     next_task := next_task c; running := running c; timers := timers c;
     creating := creating c; verifying_file := verifying_file c; merging := merging c;
     requests := requests c |}.
Definition set_taskQueue (v : TaskQueue.t Task) (c : t) : t :=
  {| file := file c; options := options c; taskQueue := v; status := status c;
     uploadToken := uploadToken c; fileHash := fileHash c; chunks := chunks c;
     uploadedChunks := uploadedChunks c; failedChunks := failedChunks c;
     uploadedBytes := uploadedBytes c; _completed := _completed c; splitor := splitor c;
     listening := listening c; emitted := emitted c; delivered := delivered c;
     next_task := next_task c; running := running c; timers := timers c;
     creating := creating c; verifying_file := verifying_file c; merging := merging c;
     requests := requests c |}.
Definition set_status (v : UploadStatus) (c : t) : t :=
  {| file := file c; options := options c; taskQueue := taskQueue c; status := v;
     uploadToken := uploadToken c; fileHash := fileHash c; chunks := chunks c;
     uploadedChunks := uploadedChunks c; failedChunks := failedChunks c;
     uploadedBytes := uploadedBytes c; _completed := _completed c; splitor := splitor c;
     listening := listening c; emitted := emitted c; delivered := delivered c;
     next_task := next_task c; running := running c; timers := timers c;
     creating := creating c; verifying_file := verifying_file c; merging := merging c;
     requests := requests c |}.
Definition set_uploadToken (v : option string) (c : t) : t :=
  {| file := file c; options := options c; taskQueue := taskQueue c; status := status c;
     uploadToken := v; fileHash := fileHash c; chunks := chunks c;
     uploadedChunks := uploadedChunks c; failedChunks := failedChunks c;
     uploadedBytes := uploadedBytes c; _completed := _completed c; splitor := splitor c;
     listening := listening c; emitted := emitted c; delivered := delivered c;
     next_task := next_task c; running := running c; timers := timers c;
     creating := creating c; verifying_file := verifying_file c; merging := merging c;
     requests := requests c |}.
Definition set_fileHash (v : option string) (c : t) : t :=
  {| file := file c; options := options c; taskQueue := taskQueue c; status := status c;
     uploadToken := uploadToken c; fileHash := v; chunks := chunks c;
     uploadedChunks := uploadedChunks c; failedChunks := failedChunks c;
     uploadedBytes := uploadedBytes c; _completed := _completed c; splitor := splitor c;
     listening := listening c; emitted := emitted c; delivered := delivered c;
     next_task := next_task c; running := running c; timers := timers c;
     creating := creating c; verifying_file := verifying_file c; merging := merging c;
     requests := requests c |}.
Definition set_chunks (v : list Chunk) (c : t) : t :=
  {| file := file c; options := options c; taskQueue := taskQueue c; status := status c;
     uploadToken := uploadToken c; fileHash := fileHash c; chunks := v;
     uploadedChunks := uploadedChunks c; failedChunks := failedChunks c;
     uploadedBytes := uploadedBytes c; _completed := _completed c; splitor := splitor c;
     listening := listening c; emitted := emitted c; delivered := delivered c;
     next_task := next_task c; running := running c; timers := timers c;
     creating := creating c; verifying_file := verifying_file c; merging := merging c;
     requests := requests c |}.
Definition set_uploadedChunks (v : gset nat) (c : t) : t :=
  {| file := file c; options := options c; taskQueue := taskQueue c; status := status c;
     uploadToken := uploadToken c; fileHash := fileHash c; chunks := chunks c;
     uploadedChunks := v; failedChunks := failedChunks c;
     uploadedBytes := uploadedBytes c; _completed := _completed c; splitor := splitor c;
     listening := listening c; emitted := emitted c; delivered := delivered c;
     next_task := next_task c; running := running c; timers := timers c;
     creating := creating c; verifying_file := verifying_file c; merging := merging c;
     requests := requests c |}.
Definition set_failedChunks (v : gmap nat Z) (c : t) : t :=
  {| file := file c; options := options c; taskQueue := taskQueue c; status := status c;
     uploadToken := uploadToken c; fileHash := fileHash c; chunks := chunks c;
     uploadedChunks := uploadedChunks c; failedChunks := v;
     uploadedBytes := uploadedBytes c; _completed := _completed c; splitor := splitor c;
     listening := listening c; emitted := emitted c; delivered := delivered c;
     next_task := next_task c; running := running c; timers := timers c;
     creating := creating c; verifying_file := verifying_file c; merging := merging c;
     requests := requests c |}.
Definition set_uploadedBytes (v : nat) (c : t) : t :=
  {| file := file c; options := options c; taskQueue := taskQueue c; status := status c;
     uploadToken := uploadToken c; fileHash := fileHash c; chunks := chunks c;
     uploadedChunks := uploadedChunks c; failedChunks := failedChunks c;
     uploadedBytes := v; _completed := _completed c; splitor := splitor c;
     listening := listening c; emitted := emitted c; delivered := delivered c;
     next_task := next_task c; running := running c; timers := timers c;
     creating := creating c; verifying_file := verifying_file c; merging := merging c;
     requests := requests c |}.
Definition set_completed (v : bool) (c : t) : t :=
  {| file := file c; options := options c; taskQueue := taskQueue c; status := status c;
     uploadToken := uploadToken c; fileHash := fileHash c; chunks := chunks c;
     uploadedChunks := uploadedChunks c; failedChunks := failedChunks c;
     uploadedBytes := uploadedBytes c; _completed := v; splitor := splitor c;
     listening := listening c; emitted := emitted c; delivered := delivered c;
     next_task := next_task c; running := running c; timers := timers c;
     creating := creating c; verifying_file := verifying_file c; merging := merging c;
     requests := requests c |}.
Definition set_splitor (v : bool) (c : t) : t :=
  {| file := file c; options := options c; taskQueue := taskQueue c; status := status c;
     uploadToken := uploadToken c; fileHash := fileHash c; chunks := chunks c;
     uploadedChunks := uploadedChunks c; failedChunks := failedChunks c;
     uploadedBytes := uploadedBytes c; _completed := _completed c; splitor := v;
     listening := listening c; emitted := emitted c; delivered := delivered c;
     next_task := next_task c; running := running c; timers := timers c;
     creating := creating c; verifying_file := verifying_file c; merging := merging c;
     requests := requests c |}.
Definition set_listening (v : bool) (c : t) : t :=
  {| file := file c; options := options c; taskQueue := taskQueue c; status := status c;
     uploadToken := uploadToken c; fileHash := fileHash c; chunks := chunks c;
     uploadedChunks := uploadedChunks c; failedChunks := failedChunks c;
     uploadedBytes := uploadedBytes c; _completed := _completed c; splitor := splitor c;
     listening := v; emitted := emitted c; delivered := delivered c;
     next_task := next_task c; running := running c; timers := timers c;
     creating := creating c; verifying_file := verifying_file c; merging := merging c;
     requests := requests c |}.
Definition set_emitted (v : list Event) (c : t) : t :=
  {| file := file c; options := options c; taskQueue := taskQueue c; status := status c;
     uploadToken := uploadToken c; fileHash := fileHash c; chunks := chunks c;
     uploadedChunks := uploadedChunks c; failedChunks := failedChunks c;
     uploadedBytes := uploadedBytes c; _completed := _completed c; splitor := splitor c;
     listening := listening c; emitted := v; delivered := delivered c;
     next_task := next_task c; running := running c; timers := timers c;
     creating := creating c; verifying_file := verifying_file c; merging := merging c;
     requests := requests c |}.
Definition set_delivered (v : list Event) (c : t) : t :=
  {| file := file c; options := options c; taskQueue := taskQueue c; status := status c;
     uploadToken := uploadToken c; fileHash := fileHash c; chunks := chunks c;
     uploadedChunks := uploadedChunks c; failedChunks := failedChunks c;
     uploadedBytes := uploadedBytes c; _completed := _completed c; splitor := splitor c;
     listening := listening c; emitted := emitted c; delivered := v;
     next_task := next_task c; running := running c; timers := timers c;
     creating := creating c; verifying_file := verifying_file c; merging := merging c;
     requests := requests c |}.
Definition set_next_task (v : nat) (c : t) : t :=
  {| file := file c; options := options c; taskQueue := taskQueue c; status := status c;
     uploadToken := uploadToken c; fileHash := fileHash c; chunks := chunks c;
     uploadedChunks := uploadedChunks c; failedChunks := failedChunks c;
     uploadedBytes := uploadedBytes c; _completed := _completed c; splitor := splitor c;
     listening := listening c; emitted := emitted c; delivered := delivered c;
     next_task := v; running := running c; timers := timers c; creating := creating c;
     verifying_file := verifying_file c; merging := merging c; requests := requests c |}.
Definition set_running (v : list Running) (c : t) : t :=
  {| file := file c; options := options c; taskQueue := taskQueue c; status := status c;
     uploadToken := uploadToken c; fileHash := fileHash c; chunks := chunks c;
     uploadedChunks := uploadedChunks c; failedChunks := failedChunks c;
     uploadedBytes := uploadedBytes c; _completed := _completed c; splitor := splitor c;
     listening := listening c; emitted := emitted c; delivered := delivered c;
     next_task := next_task c; running := v; timers := timers c; creating := creating c;
     verifying_file := verifying_file c; merging := merging c; requests := requests c |}.
Definition set_timers (v : list Timer) (c : t) : t :=
  {| file := file c; options := options c; taskQueue := taskQueue c; status := status c;
     uploadToken := uploadToken c; fileHash := fileHash c; chunks := chunks c;
     uploadedChunks := uploadedChunks c; failedChunks := failedChunks c;
     uploadedBytes := uploadedBytes c; _completed := _completed c; splitor := splitor c;
     listening := listening c; emitted := emitted c; delivered := delivered c;
     next_task := next_task c; running := running c; timers := v; creating := creating c;
     verifying_file := verifying_file c; merging := merging c; requests := requests c |}.
Definition set_creating (v : bool) (c : t) : t :=
  {| file := file c; options := options c; taskQueue := taskQueue c; status := status c;
     uploadToken := uploadToken c; fileHash := fileHash c; chunks := chunks c;
     uploadedChunks := uploadedChunks c; failedChunks := failedChunks c;
     uploadedBytes := uploadedBytes c; _completed := _completed c; splitor := splitor c;
     listening := listening c; emitted := emitted c; delivered := delivered c;
     next_task := next_task c; running := running c; timers := timers c; creating := v;
     verifying_file := verifying_file c; merging := merging c; requests := requests c |}.
Definition set_verifying_file (v : nat) (c : t) : t :=
  {| file := file c; options := options c; taskQueue := taskQueue c; status := status c;
     uploadToken := uploadToken c; fileHash := fileHash c; chunks := chunks c;
     uploadedChunks := uploadedChunks c; failedChunks := failedChunks c;
     uploadedBytes := uploadedBytes c; _completed := _completed c; splitor := splitor c;
     listening := listening c; emitted := emitted c; delivered := delivered c;
     next_task := next_task c; running := running c; timers := timers c;
     creating := creating c; verifying_file := v; merging := merging c;
     requests := requests c |}.
Definition set_merging (v : nat) (c : t) : t :=
  {| file := file c; options := options c; taskQueue := taskQueue c; status := status c;
     uploadToken := uploadToken c; fileHash := fileHash c; chunks := chunks c;
     uploadedChunks := uploadedChunks c; failedChunks := failedChunks c;
     uploadedBytes := uploadedBytes c; _completed := _completed c; splitor := splitor c;
     listening := listening c; emitted := emitted c; delivered := delivered c;
     next_task := next_task c; running := running c; timers := timers c;
     creating := creating c; verifying_file := verifying_file c; merging := v;
     requests := requests c |}.
Definition set_requests (v : list Request) (c : t) : t :=
  {| file := file c; options := options c; taskQueue := taskQueue c; status := status c;
     uploadToken := uploadToken c; fileHash := fileHash c; chunks := chunks c;
     uploadedChunks := uploadedChunks c; failedChunks := failedChunks c;
     uploadedBytes := uploadedBytes c; _completed := _completed c; splitor := splitor c;
     listening := listening c; emitted := emitted c; delivered := delivered c;
     next_task := next_task c; running := running c; timers := timers c;
     creating := creating c; verifying_file := verifying_file c; merging := merging c;
     requests := v |}.

Definition new (file : File) (o : UploadOptions) : t :=
  let options := defaults o in
  {| file := file; options := options;
     taskQueue := TaskQueue.new (concurrency options);
     status := IDLE; uploadToken := None; fileHash := None; chunks := [];
     uploadedChunks := ∅; failedChunks := ∅; uploadedBytes := 0;
     _completed := false; splitor := false; listening := true;
     emitted := []; delivered := []; next_task := 0; running := [];
     timers := []; creating := false; verifying_file := 0; merging := 0;
     requests := [] |}.

(** [EventEmitter.emit]: without listeners it does nothing. *)
Definition emit (e : Event) (c : t) : t :=
  let c1 := set_emitted (emitted c ++ [e]) c in
  if listening c then set_delivered (delivered c ++ [e]) c1 else c1.

Definition request (r : Request) (c : t) : t :=
  set_requests (requests c ++ [r]) c.

Definition setStatus (s : UploadStatus) (c : t) : t :=
  if decide (status c = s) then c
  else emit (statusChange_ev s) (set_status s c).

Definition updateProgress (c : t) : t :=
  emit (progress_ev {| loaded := uploadedBytes c; total := file_size (file c);
                       uploadedChunks_count := size (uploadedChunks c);
                       totalChunks := length (chunks c) |}) c.

Definition markChunkUploaded (chunk : Chunk) (c : t) : t :=
  if decide (index chunk ∈ uploadedChunks c) then c
  else
    let c1 := set_uploadedChunks ({[index chunk]} ∪ uploadedChunks c) c in
    let c2 := set_uploadedBytes (uploadedBytes c1 + length (blob chunk))%nat c1 in
    let c3 := set_failedChunks (delete (index chunk) (failedChunks c2)) c2 in
    updateProgress c3.

Definition optimizeUploadTasks (restHashes : list string) (c : t) : t :=
  let mark c chunk :=
    if decide (hash chunk ∈ restHashes) then c
    else
      let c1 := set_uploadedChunks ({[index chunk]} ∪ uploadedChunks c) c in
      set_uploadedBytes (uploadedBytes c1 + length (blob chunk))%nat c1 in
  updateProgress (fold_left mark (chunks c) c).

(** [Array.prototype.sort((a, b) => a.index - b.index)]: stable. *)
Fixpoint insert_by_index (x : Chunk) (l : list Chunk) : list Chunk :=
  match l with
  | [] => [x]
  | y :: r => if (index x <=? index y)%nat then x :: y :: r else y :: insert_by_index x r
  end.

Definition sort_by_index (l : list Chunk) : list Chunk :=
  foldr insert_by_index [] l.

(** The order of that sort. *)
Definition by_index (c1 c2 : Chunk) : Prop := (index c1 <= index c2)%nat.

(** [handleUploadComplete] up to its [await]: the checks, then the merge
    request. *)
Definition handleUploadComplete (c : t) : t :=
  if _completed c then c
  else if (size (uploadedChunks c) <? length (chunks c))%nat then c
  else
    match fileHash c, uploadToken c with
    | Some h, Some token =>
        if truthy h && truthy token then
          let c1 := setStatus MERGING c in
          let c2 := set_chunks (sort_by_index (chunks c1)) c1 in
          set_merging (S (merging c2))
            (request (req_mergeFile token h (map hash (chunks c2))) c2)
        else c
    | _, _ => c
    end.

(** [uploadChunk] up to its first [await]. *)
Definition uploadChunk_begin (task : Task) (c : t) : t :=
  let chunk := payload task in
  let run phase n c :=
    set_running (running c ++ [{| r_task := task; r_phase := phase; r_retries := n |}]) c in
  match uploadToken c with
  | Some token =>
      if truthy token then
        if decide (index chunk ∈ uploadedChunks c) then run Fulfilled 0 c
        else
          let currentRetries := default 0 (failedChunks c !! index chunk) in
          run AwaitVerify currentRetries
            (request (req_verifyHash token (hash chunk) chunk_type (Some (index chunk))) c)
      else run (Rejected NoUploadToken) 0 c
  | None => run (Rejected NoUploadToken) 0 c
  end.

(** The listeners of [setupTaskQueueEvents] and the start of a task. *)
Definition on_queue_effect (c : t) (e : TaskQueue.Effect Task) : t :=
  match e with
  | TaskQueue.Emit TaskQueue.start_ev _ =>
      if decide (status c = PAUSED) then emit resume_ev (setStatus UPLOADING c) else c
  | TaskQueue.Emit TaskQueue.pause_ev _ =>
      if decide (status c = UPLOADING) then emit pause_ev (setStatus PAUSED c) else c
  | TaskQueue.Emit TaskQueue.drain_ev _ => handleUploadComplete c
  | TaskQueue.Launch task => uploadChunk_begin task c
  end.

(** A call into the task queue.  Neither the listeners nor the started
    thunks call back into the queue before they return, and the queue does
    not read the controller, so what they do is applied after the call, in
    the order in which the queue produced it. *)
Definition with_queue
    (f : TaskQueue.t Task -> TaskQueue.t Task * list (TaskQueue.Effect Task))
    (c : t) : t :=
  let '(q, eff) := f (taskQueue c) in
  fold_left on_queue_effect eff (set_taskQueue q c).

Definition cleanup (c : t) : t :=
  let c1 := set_splitor false c in
  let c2 := with_queue TaskQueue.clear c1 in
  set_listening false c2.

Definition handleUploadSuccess (fileUrl : string) (c : t) : t :=
  if _completed c then c
  else
    let c1 := set_completed true c in
    let c2 := setStatus COMPLETED c1 in
    let c3 := emit (complete_ev fileUrl) c2 in
    cleanup c3.

Definition handleError (error : Error) (c : t) : t :=
  let c1 := setStatus ERROR c in
  let c2 := emit (error_ev error) c1 in
  cleanup c2.

(** [handleChunks]. *)
Definition handleChunks (batch : list Chunk) (c : t) : t :=
  let c1 := set_chunks (chunks c ++ batch) c in
  let enqueue c chunk :=
    let task := {| task_id := next_task c; payload := chunk |} in
    with_queue (TaskQueue.addAndStart [task]) (set_next_task (S (next_task c)) c) in
  setStatus UPLOADING (fold_left enqueue batch c1).

(** [handleWholeHash] up to its [await]. *)
Definition handleWholeHash (h : string) (c : t) : t :=
  let c1 := set_fileHash (Some h) c in
  match uploadToken c1 with
  | Some token =>
      if truthy token then
        set_verifying_file (S (verifying_file c1))
          (request (req_verifyHash token h file_type_ None) c1)
      else c1
  | None => c1
  end.

(** The rest of [handleWholeHash], when the answer is there. *)
Definition handleWholeHash_resume (r : Error + HashVerifyResponse) (c : t) : t :=
  match r with
  | inr verifyResult =>
      if hasFile verifyResult && truthy_opt (url verifyResult) then
        handleUploadSuccess (default "" (url verifyResult)) c
      else
        match rest verifyResult with
        | Some (h :: hs) => optimizeUploadTasks (h :: hs) c
        | _ => c
        end
  | inl _ => c
  end.

(** The delay of a retry: [retryDelay * Math.pow(2, currentRetries) *
    (0.5 + Math.random() * 0.5)], over the rationals; [rnd] is what
    [Math.random()] returned. *)
Definition retry_delay (retryDelay currentRetries : Z) (rnd : Q) : Q :=
  (inject_Z retryDelay * (2 ^ currentRetries) * ((1 # 2) + rnd * (1 # 2)))%Q.

Definition set_phase (task : Task) (phase : Phase) (c : t) : t :=
  set_running
    (map (fun r => if decide (r_task r = task)
                   then {| r_task := task; r_phase := phase; r_retries := r_retries r |}
                   else r) (running c)) c.

Definition find_running (task : Task) (c : t) : option Running :=
  List.find (fun r => bool_decide (r_task r = task)) (running c).

(** The [catch] block of [uploadChunk]. *)
Definition uploadChunk_catch (r : Running) (error : Error) (rnd : Q) (c : t) : t :=
  let chunk := payload (r_task r) in
  let maxRetries := retryCount (options c) in
  let currentRetries := r_retries r in
  if currentRetries <? maxRetries then
    let c1 := set_failedChunks (<[index chunk := currentRetries + 1]> (failedChunks c)) c in
    let c2 := set_timers (timers c1 ++
                [{| timer_chunk := chunk;
                    timer_delay := retry_delay (retryDelay (options c)) currentRetries rnd |}]) c1 in
    set_phase (r_task r) Fulfilled c2
  else
    set_phase (r_task r) (Rejected (ChunkUploadFailed (index chunk) error)) c.

(** What the event loop can run next: a call by the user, an event of the
    splitter, an answer of the request strategy, a timer, or the [finally]
    callback of a task.  [rnd] is the value [Math.random()] returns if the
    [catch] block reaches it. *)
Inductive Input :=
| in_start
| in_createFile (r : Error + (string * N))
| in_chunks (batch : list Chunk)
| in_wholeHash (h : string)
| in_verifyFile (r : Error + HashVerifyResponse)
| in_verifyChunk (task : Task) (r : Error + HashVerifyResponse) (rnd : Q)
| in_chunkProgress (task : Task)
| in_uploadChunk (task : Task) (r : Error + unit) (rnd : Q)
| in_finally (task : Task)
| in_timer (k : nat)
| in_merge (r : Error + string)
| in_pause
| in_resume
| in_cancel.

Definition step (i : Input) (c : t) : t :=
  match i with
  | in_start =>
      (* start(): setStatus, then await createUploadTask() *)
      set_creating true (request req_createFile (setStatus SPLITTING c))
  | in_createFile r =>
      if creating c then
        let c := set_creating false c in
        match r with
        | inr (token, size) =>
            let c1 := set_uploadToken (Some token) c in
            let c2 :=
              if negb (size =? 0)%N && negb (size =? chunkSize (options c1))%N
              then set_options (set_chunkSize size (options c1)) c1 else c1 in
            (* startSplitting(), then once('complete') and once('error') *)
            set_listening true (set_splitor true c2)
        | inl error => handleError (CreateTaskFailed error) c
        end
      else c
  | in_chunks batch => handleChunks batch c
  | in_wholeHash h => handleWholeHash h c
  | in_verifyFile r =>
      match verifying_file c with
      | S n => handleWholeHash_resume r (set_verifying_file n c)
      | O => c
      end
  | in_verifyChunk task r rnd =>
      match find_running task c with
      | Some run =>
          match r_phase run, r with
          | AwaitVerify, inr verifyResult =>
              if hasFile verifyResult then
                set_phase task Fulfilled (markChunkUploaded (payload task) c)
              else
                set_phase task AwaitTransfer
                  (request (req_uploadChunk (default "" (uploadToken c)) (payload task)) c)
          | AwaitVerify, inl error => uploadChunk_catch run error rnd c
          | _, _ => c
          end
      | None => c
      end
  | in_chunkProgress task =>
      match find_running task c with
      | Some run =>
          match r_phase run with
          | AwaitTransfer => emit (chunkProgress_ev (payload task)) c
          | _ => c
          end
      | None => c
      end
  | in_uploadChunk task r rnd =>
      match find_running task c with
      | Some run =>
          match r_phase run, r with
          | AwaitTransfer, inr _ =>
              set_phase task Fulfilled (markChunkUploaded (payload task) c)
          | AwaitTransfer, inl error => uploadChunk_catch run error rnd c
          | _, _ => c
          end
      | None => c
      end
  | in_finally task =>
      match find_running task c with
      | Some run =>
          match r_phase run with
          | Fulfilled | Rejected _ =>
              with_queue (TaskQueue.settle task)
                (set_running
                   (List.filter (fun r => negb (bool_decide (r_task r = task))) (running c)) c)
          | _ => c
          end
      | None => c
      end
  | in_timer k =>
      match timers c !! k with
      | Some tm =>
          let c1 := set_timers (take k (timers c) ++ drop (S k) (timers c)) c in
          let retryTask := {| task_id := next_task c1; payload := timer_chunk tm |} in
          with_queue (TaskQueue.addAndStart [retryTask])
            (set_next_task (S (next_task c1)) c1)
      | None => c
      end
  | in_merge r =>
      match merging c with
      | S n =>
          let c := set_merging n c in
          match r with
          | inr fileUrl => handleUploadSuccess fileUrl c
          | inl error => handleError (MergeFailed error) c
          end
      | O => c
      end
  | in_pause =>
      if decide (status c = UPLOADING) then with_queue TaskQueue.pause c else c
  | in_resume =>
      if decide (status c = PAUSED) then with_queue TaskQueue.start c else c
  | in_cancel =>
      cleanup (setStatus IDLE (with_queue TaskQueue.clear c))
  end.

Definition run (inputs : list Input) (c : t) : t :=
  fold_left (fun c i => step i c) inputs c.




(** How many times [complete] and [error] occur in a list of events. *)
Definition is_complete (e : Event) : bool :=
  match e with complete_ev _ => true | _ => false end.

Definition is_error (e : Event) : bool :=
  match e with error_ev _ => true | _ => false end.

Definition count (p : Event -> bool) (l : list Event) : nat :=
  length (List.filter p l).

(** The sizes of the chunks that are marked as uploaded, each counted
    once. *)
Definition uploaded_size (c : t) : nat :=
  list_sum (map (fun i =>
                   match List.find (fun ch => (index ch =? i)%nat) (chunks c) with
                   | Some ch => length (blob ch)
                   | None => 0%nat
                   end) (elements (uploadedChunks c))).

(** What decides how a session ends: the one-shot flag, whether listeners
    are registered, how often [complete] and [error] were emitted and
    delivered, and what the controller waits for before it has a token. *)
Record Outcome := {
  o_completed : bool;
  o_listening : bool;
  o_complete_calls : nat;
  o_complete_delivered : nat;
  o_error_delivered : nat;
  o_creating : bool;
  o_token : bool;      (* [uploadToken] is set *)
  o_early : nat        (* whole-file verifies and merges pending without a token *)
}.

Definition outcome (c : t) : Outcome :=
  {| o_completed := _completed c; o_listening := listening c;
     o_complete_calls := count is_complete (emitted c);
     o_complete_delivered := count is_complete (delivered c);
     o_error_delivered := count is_error (delivered c);
     o_creating := creating c;
     o_token := match uploadToken c with Some _ => true | None => false end;
     o_early := match uploadToken c with
                | Some _ => 0
                | None => verifying_file c + merging c
                end |}.

Definition one_if (b : bool) : nat := if b then 1%nat else 0%nat.

(** What [cleanup], [handleUploadSuccess] and [handleError] do to it. *)
Definition o_cleanup (o : Outcome) : Outcome :=
  {| o_completed := o_completed o; o_listening := false;
     o_complete_calls := o_complete_calls o;
     o_complete_delivered := o_complete_delivered o;
     o_error_delivered := o_error_delivered o;
     o_creating := o_creating o; o_token := o_token o; o_early := o_early o |}.

Definition o_success (o : Outcome) : Outcome :=
  if o_completed o then o
  else
    {| o_completed := true; o_listening := false;
       o_complete_calls := S (o_complete_calls o);
       o_complete_delivered := (o_complete_delivered o + one_if (o_listening o))%nat;
       o_error_delivered := o_error_delivered o;
       o_creating := o_creating o; o_token := o_token o; o_early := o_early o |}.

Definition o_error (o : Outcome) : Outcome :=
  {| o_completed := o_completed o; o_listening := false;
     o_complete_calls := o_complete_calls o;
     o_complete_delivered := o_complete_delivered o;
     o_error_delivered := (o_error_delivered o + one_if (o_listening o))%nat;
     o_creating := o_creating o; o_token := o_token o; o_early := o_early o |}.

(** [complete] is emitted at most once, and not before the flag is set. *)
Definition complete_once (o : Outcome) : Prop :=
  (o_complete_calls o <= 1)%nat
  /\ (o_completed o = false -> o_complete_calls o = 0%nat).


Definition is_start (i : Input) : bool :=
  match i with in_start => true | _ => false end.

(** The part of the outcome that [complete_once] reads. *)
Definition o_flags (o : Outcome) : bool * nat := (o_completed o, o_complete_calls o).

(** The splitter's events as the controller subscribes to them
    ([drain] goes to the empty [handleSplitComplete]). *)
Definition of_splitor_event (e : ChunkSplitor.Event) : list Input :=
  match e with
  | ChunkSplitor.chunks_ev batch => [in_chunks batch]
  | ChunkSplitor.wholeHash_ev h => [in_wholeHash h]
  | ChunkSplitor.drain_ev => []
  end.

End UploadController.

(** ** utils: getFileExtension *)
Module Utils.

(** Strings are sequences of UTF-8 bytes here and of UTF-16 units in the
    browser.  The dot is one byte and one unit, and neither occurs inside
    the encoding of another character, so what follows the last dot is
    the same text in both. *)

(** [String.prototype.lastIndexOf(c)]: the position of the last
    occurrence of [c], or -1. *)
Fixpoint lastIndexOf (c : ascii) (s : string) : Z :=
  match s with
  | EmptyString => -1
  | String a r =>
      let i := lastIndexOf c r in
      if 0 <=? i then i + 1
      else if Ascii.eqb a c then 0 else -1
  end.

(** [x >>> 0]: the number as an unsigned 32-bit integer. *)
Definition to_uint32 (x : Z) : Z := x mod 2 ^ 32.

(** [String.prototype.slice(start)] for [start >= 0]: the string from
    position [start] on, empty when [start] is past the end. *)
Definition slice (start : Z) (s : string) : string :=
  String.substring (Z.to_nat start) (String.length s - Z.to_nat start) s.

(** [filename.slice((filename.lastIndexOf('.') - 1 >>> 0) + 2)]. *)
Definition getFileExtension (filename : string) : string :=
  slice (to_uint32 (lastIndexOf "." filename - 1) + 2) filename.

(** A string without the character [c]. *)
Fixpoint lacks (c : ascii) (s : string) : bool :=
  match s with
  | EmptyString => true
  | String a r => negb (Ascii.eqb a c) && lacks c r
  end.

End Utils.

(** ** The server: fileUtils.js, chunkService.js, fileService.js,
    uploadController.js *)
Module Backend.

(** The [uploads] directory: chunk bodies and materialized files by path,
    session records by upload id (the file [<uploadId>.json]). *)
Inductive RecordStatus := uploading | completed | failed.

#[global] Instance RecordStatus_eq_dec : EqDecision RecordStatus.
Proof. solve_decision. Defined.

Record FileRecord := {
  uploadId : string;
  fileName : string;
  fileSize : Z;
  fileType : string;
  lastModified : Z;
  status : RecordStatus;
  chunks : list string;
  fileHash : option string;
  fileUrl : option string;
  createdAt : string;
  updatedAt : string
}.

Record Disk := {
  chunkFiles : gmap string bytes;
  metadataFiles : gmap string FileRecord;
  mergedFiles : gmap string bytes
}.

Definition empty_disk : Disk :=
  {| chunkFiles := ∅; metadataFiles := ∅; mergedFiles := ∅ |}.

(** What the services throw. *)
Inductive Error :=
| HashMismatch                                  (* 分片哈希值不匹配 *)
| RecordMissing                                 (* 文件记录不存在 *)
| ChunkListMissing                              (* 缺少分片列表，请传入 chunks 参数 *)
| ChunkHashEmpty (i : nat)                      (* 分片 i 的 hash 为空 *)
| ChunkNotOnDisk (i : nat) (h : string)         (* 分片 i 不存在于磁盘: h *)
| NotCompleted                                  (* 文件不存在或未完成上传 *)
| ChunkInfoMissing                              (* 文件分片信息缺失，无法读取文件 *)
| ReadFailed (path : string).                   (* ENOENT from a read stream *)

(** [path.join] of a directory and a name that needs no normalising. *)
Definition path_join (dir name : string) : string :=
  String.append dir (String.append "/" name).

Module FileUtils.

Definition calculateBufferHash (buffer : bytes) : string := MD5.hex buffer.

End FileUtils.

Module ChunkService.

Definition chunksDir : string := "uploads/chunks".

Definition getChunkPath (chunkHash : string) : string :=
  let subDir := String.substring 0 2 chunkHash in
  let chunkDir := path_join chunksDir subDir in
  path_join chunkDir (String.append chunkHash ".chunk").

Definition chunkExists (chunkHash : string) (d : Disk) : bool :=
  bool_decide (is_Some (chunkFiles d !! getChunkPath chunkHash)).

Definition write_chunk (path : string) (data : bytes) (d : Disk) : Disk :=
  {| chunkFiles := <[path := data]> (chunkFiles d);
     metadataFiles := metadataFiles d; mergedFiles := mergedFiles d |}.

Definition saveChunk (chunkHash : string) (chunkData : bytes) (d : Disk)
  : Error + (string * Disk) :=
  let chunkPath := getChunkPath chunkHash in
  if chunkExists chunkHash d then inr (chunkPath, d)
  else
    let actualHash := FileUtils.calculateBufferHash chunkData in
    if negb (String.eqb actualHash chunkHash) then inl HashMismatch
    else inr (chunkPath, write_chunk chunkPath chunkData d).

(** What [createChunkReadStream] delivers when it is read to its end. *)
Definition readChunkStream (chunkHash : string) (d : Disk) : option bytes :=
  chunkFiles d !! getChunkPath chunkHash.

(** A sequence of [saveChunk] calls; a call that throws changes nothing. *)
Definition saveChunks (calls : list (string * bytes)) (d : Disk) : Disk :=
  fold_left (fun d call =>
               match saveChunk (fst call) (snd call) d with
               | inr (_, d') => d'
               | inl _ => d
               end) calls d.

(** The invariant of the store: the bytes at a path hash to its key. *)
Definition store_ok (d : Disk) : Prop :=
  map_Forall (fun path data => path = getChunkPath (FileUtils.calculateBufferHash data))
             (chunkFiles d).

(** No two of the byte strings [l] are stored under the same path unless
    they are equal: the hash does not collide on them. *)
Definition collision_free (l : list bytes) : Prop :=
  Forall (fun b1 =>
            Forall (fun b2 =>
                      getChunkPath (FileUtils.calculateBufferHash b1)
                      = getChunkPath (FileUtils.calculateBufferHash b2) -> b1 = b2) l) l.

(** The contents of the chunk files. *)
Definition stored (d : Disk) : list bytes := map snd (map_to_list (chunkFiles d)).

(** [d'] is [d] with more chunk files, each holding one of [bl]. *)
Definition grown (bl : list bytes) (d d' : Disk) : Prop :=
  (forall p b, chunkFiles d !! p = Some b -> chunkFiles d' !! p = Some b)
  /\ (forall p b, chunkFiles d' !! p = Some b -> chunkFiles d !! p = Some b \/ b ∈ bl)
  /\ metadataFiles d' = metadataFiles d
  /\ mergedFiles d' = mergedFiles d.

(** What [readChunk] throws. *)
Inductive ReadError :=
| ChunkMissing (chunkHash : string).            (* 分片不存在: chunkHash *)

Definition readChunk (chunkHash : string) (d : Disk) : ReadError + bytes :=
  let chunkPath := getChunkPath chunkHash in
  match chunkFiles d !! chunkPath with
  | None => inl (ChunkMissing chunkHash)
  | Some data => inr data
  end.


End ChunkService.

Module FileService.

Definition filesDir : string := "uploads/files".

Record FileInfo := {
  info_fileName : string;
  info_fileSize : Z;
  info_fileType : string;
  info_lastModified : Z
}.

Definition set_metadata (id : string) (r : FileRecord) (d : Disk) : Disk :=
  {| chunkFiles := chunkFiles d;
     metadataFiles := <[id := r]> (metadataFiles d);
     mergedFiles := mergedFiles d |}.

(** [metadata.updatedAt = new Date().toISOString()]. *)
Definition touch (now : string) (metadata : FileRecord) : FileRecord :=
  {| uploadId := uploadId metadata; fileName := fileName metadata;
     fileSize := fileSize metadata; fileType := fileType metadata;
     lastModified := lastModified metadata; status := status metadata;
     chunks := chunks metadata; fileHash := fileHash metadata;
     fileUrl := fileUrl metadata; createdAt := createdAt metadata;
     updatedAt := now |}.

(** [saveFileMetadata]; [now] is the time of the call. *)
Definition saveFileMetadata (id : string) (metadata : FileRecord) (now : string)
    (d : Disk) : Disk :=
  set_metadata id (touch now metadata) d.

Definition createFileRecord (fileInfo : FileInfo) (id : string) (now : string)
    (d : Disk) : FileRecord * Disk :=
  let fileRecord :=
    {| uploadId := id; fileName := info_fileName fileInfo;
       fileSize := info_fileSize fileInfo; fileType := info_fileType fileInfo;
       lastModified := info_lastModified fileInfo; status := uploading;
       chunks := []; fileHash := None; fileUrl := None;
       createdAt := now; updatedAt := now |} in
  (fileRecord, saveFileMetadata id fileRecord now d).

Definition getFileMetadata (id : string) (d : Disk) : option FileRecord :=
  metadataFiles d !! id.

(** [findFileByHash]: the first record of the directory listing with this
    hash and status [completed]. *)
Definition findFileByHash (h : string) (d : Disk) : option FileRecord :=
  List.find (fun metadata =>
               bool_decide (fileHash metadata = Some h)
               && bool_decide (status metadata = completed))
            (map snd (map_to_list (metadataFiles d))).

Definition unreserved (a : ascii) : bool :=
  let n := N_of_ascii a in
  ((48 <=? n) && (n <=? 57) || (65 <=? n) && (n <=? 90) || (97 <=? n) && (n <=? 122)
   || bool_decide (n ∈ [45; 95; 46; 33; 126; 42; 39; 40; 41]%N))%N.

Definition upper_hex (v : N) : ascii :=
  if (v <? 10)%N then ascii_of_N (48 + v) else ascii_of_N (55 + v).

(** [encodeURIComponent] on a string of UTF-8 bytes. *)
Fixpoint encodeURIComponent (s : string) : string :=
  match s with
  | EmptyString => EmptyString
  | String a r =>
      if unreserved a then String a (encodeURIComponent r)
      else
        let n := N_of_ascii a in
        String "%" (String (upper_hex (n / 16)) (String (upper_hex (n mod 16))
                                                        (encodeURIComponent r)))
  end.

Definition generateFileUrl (id name : string) : string :=
  String.append "/api/upload/file/"
    (String.append id (String.append "/" (encodeURIComponent name))).

(** The loop of [mergeFile] that checks every chunk, from position [i]. *)
Fixpoint check_chunks (i : nat) (chunks : list string) (d : Disk) : option Error :=
  match chunks with
  | [] => None
  | h :: rest =>
      if String.eqb h "" then Some (ChunkHashEmpty i)
      else if negb (ChunkService.chunkExists h d) then Some (ChunkNotOnDisk i h)
      else check_chunks (S i) rest d
  end.

(** The record as [mergeFile] rewrites it. *)
Definition completed_record (id fileHash_ : string) (chunks_ : list string)
    (metadata : FileRecord) : FileRecord :=
  {| uploadId := uploadId metadata; fileName := fileName metadata;
     fileSize := fileSize metadata; fileType := fileType metadata;
     lastModified := lastModified metadata; status := completed;
     chunks := chunks_; fileHash := Some fileHash_;
     fileUrl := Some (generateFileUrl id (fileName metadata));
     createdAt := createdAt metadata; updatedAt := updatedAt metadata |}.

Definition mergeFile (id fileHash_ : string) (chunks_ : list string) (now : string)
    (d : Disk) : Error + (string * Disk) :=
  match getFileMetadata id d with
  | None => inl RecordMissing
  | Some metadata =>
      match chunks_ with
      | [] => inl ChunkListMissing
      | _ =>
          match check_chunks 0 chunks_ d with
          | Some e => inl e
          | None =>
              let metadata' := completed_record id fileHash_ chunks_ metadata in
              inr (generateFileUrl id (fileName metadata),
                   saveFileMetadata id metadata' now d)
          end
      end
  end.

Definition mergedPath (id : string) : string :=
  path_join filesDir (String.append id ".dat").

Definition write_merged (path : string) (data : bytes) (d : Disk) : Disk :=
  {| chunkFiles := chunkFiles d; metadataFiles := metadataFiles d;
     mergedFiles := <[path := data]> (mergedFiles d) |}.

(** The loop of [getMergedFilePath]: every chunk is piped, in the order of
    the list, into the one write stream; [acc] is what the stream holds. *)
Fixpoint pipe_chunks (chunks : list string) (acc : bytes) (d : Disk) : Error + bytes :=
  match chunks with
  | [] => inr acc
  | h :: rest =>
      match ChunkService.readChunkStream h d with
      | Some data => pipe_chunks rest (acc ++ data) d
      | None => inl (ReadFailed (ChunkService.getChunkPath h))
      end
  end.

(** [getMergedFilePath].  The result is given for the calls that return;
    a call that throws is [inl], and what it leaves at [mergedPath] is not
    modelled. *)
Definition getMergedFilePath (id : string) (d : Disk) : Error + (string * Disk) :=
  let path := mergedPath id in
  if bool_decide (is_Some (mergedFiles d !! path)) then inr (path, d)
  else
    match getFileMetadata id d with
    | None => inl NotCompleted
    | Some metadata =>
        if negb (bool_decide (status metadata = completed)) then inl NotCompleted
        else
          match chunks metadata with
          | [] => inl ChunkInfoMissing
          | _ =>
              match pipe_chunks (chunks metadata) [] d with
              | inr data => inr (path, write_merged path data d)
              | inl e => inl e
              end
          end
    end.

(** What [getFileInfo] returns, without [uploadProgress] (a rounded
    floating-point percentage). *)
Record Info := {
  i_uploadId : string;
  i_fileName : string;
  i_fileSize : Z;
  i_fileType : string;
  i_status : RecordStatus;
  i_fileHash : option string;
  i_fileUrl : option string;
  i_createdAt : string;
  i_updatedAt : string
}.

Definition getFileInfo (id : string) (d : Disk) : option Info :=
  match getFileMetadata id d with
  | None => None
  | Some metadata =>
      Some {| i_uploadId := uploadId metadata; i_fileName := fileName metadata;
              i_fileSize := fileSize metadata; i_fileType := fileType metadata;
              i_status := status metadata; i_fileHash := fileHash metadata;
              i_fileUrl := fileUrl metadata; i_createdAt := createdAt metadata;
              i_updatedAt := updatedAt metadata |}
  end.

(** [createFileReadStream]: the materialized file, read to its end. *)
Definition createFileReadStream (id : string) (d : Disk) : Error + (bytes * Disk) :=
  match getMergedFilePath id d with
  | inl e => inl e
  | inr (path, d') =>
      match mergedFiles d' !! path with
      | Some data => inr (data, d')
      | None => inl (ReadFailed path)
      end
  end.

(** A completed session has a url, a whole-file hash and a chunk list
    that is not empty and whose digests are all in the store; another
    session has no chunk list yet. *)
Definition record_ok (d : Disk) (metadata : FileRecord) : Prop :=
  if decide (status metadata = completed) then
    chunks metadata <> []
    /\ Forall (fun h => h <> "" /\ ChunkService.chunkExists h d = true) (chunks metadata)
    /\ is_Some (fileHash metadata) /\ is_Some (fileUrl metadata)
  else chunks metadata = [].

Definition records_ok (d : Disk) : Prop :=
  map_Forall (fun _ metadata => record_ok d metadata) (metadataFiles d).

End FileService.

Module UploadController.

Inductive Response :=
| ok_url (url : option string) (message : option string)  (* success: true, data *)
| ok_message (message : string)
| bad_request (message : string)                          (* status 400 *)
| server_error (message : string) (error : Error).        (* status 500 *)

(** [uploadChunk]: POST /api/upload/chunk.  [file_] is [req.file.buffer],
    the other fields are those of [req.body]. *)
Record ChunkRequest := {
  file_ : option bytes;
  chunkIndex : option nat;
  chunkHash : option string;
  chunkStart : option Z;
  chunkEnd : option Z
}.

Definition uploadChunk (req : ChunkRequest) (d : Disk) : Response * Disk :=
  match file_ req with
  | None => (bad_request "缺少分片文件", d)
  | Some chunkData =>
      match chunkHash req, chunkIndex req with
      | Some h, Some _ =>
          let size_ok :=
            match chunkStart req, chunkEnd req with
            | Some s, Some e => Z.of_nat (length chunkData) =? e - s
            | _, _ => true
            end in
          if negb size_ok then (bad_request "分片大小不匹配", d)
          else
            match ChunkService.saveChunk h chunkData d with
            | inr (_, d') => (ok_message "分片上传成功", d')
            | inl e => (server_error "分片上传失败" e, d)
            end
      | _, _ => (bad_request "缺少必需参数：chunkHash 和 chunkIndex", d)
      end
  end.

(** [mergeFile]: POST /api/upload/merge, for the session [id] of the
    upload token. *)
Definition mergeFile (id : string) (fileHash_ : option string)
    (chunks_ : option (list string)) (now : string) (d : Disk) : Response * Disk :=
  match fileHash_, chunks_ with
  | Some h, Some cs =>
      if String.eqb h "" then (bad_request "缺少必需参数：fileHash 和 chunks", d)
      else
        match FileService.findFileByHash h d with
        | Some existingFile =>
            (ok_url (fileUrl existingFile) (Some "文件已存在，无需重复上传"), d)
        | None =>
            match FileService.mergeFile id h cs now d with
            | inr (url, d') => (ok_url (Some url) None, d')
            | inl e => (server_error "文件合并失败" e, d)
            end
        end
  | _, _ => (bad_request "缺少必需参数：fileHash 和 chunks", d)
  end.

(** The request a client sends for a digested chunk. *)
Definition chunk_request (c : Chunk) : ChunkRequest :=
  {| file_ := Some (blob c); chunkIndex := Some (index c); chunkHash := Some (hash c);
     chunkStart := Some (Z.of_nat (start c)); chunkEnd := Some (Z.of_nat (end_ c)) |}.

(** The chunks of an upload arriving in the order [arrival]. *)
Definition receive (arrival : list Chunk) (d : Disk) : Disk :=
  fold_left (fun d c => snd (uploadChunk (chunk_request c) d)) arrival d.

(** The answers of the other handlers: [res.json] with [success: true]
    and a payload, or a status with a message. *)
Inductive Reply (A : Type) :=
| ok (data : A)
| status_400 (message : string)
| status_404 (message : string)
| status_500 (message : string) (error : Error).
Arguments ok {A} data.
Arguments status_400 {A} message.
Arguments status_404 {A} message.
Arguments status_500 {A} message error.

Definition defaultChunkSize : Z := 5 * 1024 * 1024.

Definition maxFileSize : Z := 10 * 1024 * 1024 * 1024.

Record Created := { uploadToken : string; created_chunkSize : Z }.

(** [createFile]: POST /api/upload/create, for a body with the four fields
    that the client sends (an absent [fileName] or [fileSize] takes the
    branch of the empty name and of size 0).  [id] is the uuid that
    [TokenManager.generateUploadToken] draws and [token] the token it
    signs, from which [getUploadId] reads [id] back; [now] is the time of
    the call. *)
Definition createFile (body : FileService.FileInfo) (id token now : string) (d : Disk)
  : Reply Created * Disk :=
  if String.eqb (FileService.info_fileName body) "" || (FileService.info_fileSize body =? 0)
  then (status_400 "缺少必需参数：fileName 和 fileSize", d)
  else if maxFileSize <? FileService.info_fileSize body
  then (status_400 "文件大小超过限制：10 GB", d)
  else
    let '(_, d') := FileService.createFileRecord body id now d in
    (ok {| uploadToken := token; created_chunkSize := defaultChunkSize |}, d').

(** The [result] object of [verifyHash]. *)
Record VerifyResult := {
  vr_hasFile : bool;
  vr_url : option string;
  vr_rest : option (list nat)
}.

(** The indexes of the empty entries of a chunk list:
    [chunks.map((chunk, index) => chunk ? null : index).filter(index => index !== null)]. *)
Definition missingChunks (chunks_ : list string) : list nat :=
  omap (fun '(index, chunk) => if String.eqb chunk "" then Some index else None)
       (imap (fun index chunk => (index, chunk)) chunks_).

(** [verifyHash]: PATCH /api/upload/verify, for the session [id] of the
    upload token; the two arguments are the request headers. *)
Definition verifyHash (id : string) (uploadHash hashType : option string) (d : Disk)
  : Reply VerifyResult :=
  match uploadHash, hashType with
  | Some h, Some ty =>
      if String.eqb h "" || String.eqb ty ""
      then status_400 "缺少必需的请求头：Upload-Hash 和 Upload-Hash-Type"
      else if String.eqb ty "chunk" then
        ok {| vr_hasFile := ChunkService.chunkExists h d; vr_url := None; vr_rest := None |}
      else if String.eqb ty "file" then
        match FileService.findFileByHash h d with
        | Some existingFile =>
            ok {| vr_hasFile := true; vr_url := fileUrl existingFile; vr_rest := None |}
        | None =>
            match FileService.getFileMetadata id d with
            | Some metadata =>
                if (0 <? length (chunks metadata))%nat
                then ok {| vr_hasFile := false; vr_url := None;
                           vr_rest := Some (missingChunks (chunks metadata)) |}
                else ok {| vr_hasFile := false; vr_url := None; vr_rest := None |}
            | None => ok {| vr_hasFile := false; vr_url := None; vr_rest := None |}
            end
        end
      else status_400 "无效的hash类型，必须是 chunk 或 file"
  | _, _ => status_400 "缺少必需的请求头：Upload-Hash 和 Upload-Hash-Type"
  end.

(** The body that the client's [AxiosRequestStrategy.createFile] posts for
    a file. *)
Definition createFile_body (f : File) : FileService.FileInfo :=
  {| FileService.info_fileName := file_name f;
     FileService.info_fileSize := Z.of_nat (file_size f);
     FileService.info_fileType := file_type f;
     FileService.info_lastModified := file_lastModified f |}.

(** What [getFile] sends when it streams a file. *)
Record Download := {
  contentType : string;
  contentLength : Z;
  contentDisposition : string;
  body : bytes
}.

(** [getFile]: GET /api/upload/file/:uploadId/:fileName, the stream read
    to its end by the client. *)
Definition getFile (id fileName_ : string) (d : Disk) : Reply Download * Disk :=
  match FileService.getFileInfo id d with
  | None => (status_404 "文件不存在或未完成上传", d)
  | Some fileInfo =>
      if negb (bool_decide (FileService.i_status fileInfo = completed))
      then (status_404 "文件不存在或未完成上传", d)
      else
        match FileService.createFileReadStream id d with
        | inr (data, d') =>
            (ok {| contentType :=
                     if String.eqb (FileService.i_fileType fileInfo) ""
                     then "application/octet-stream" else FileService.i_fileType fileInfo;
                   contentLength := FileService.i_fileSize fileInfo;
                   contentDisposition :=
                     String.append "attachment; filename="
                       (String.append (String (ascii_of_nat 34) EmptyString)
                          (String.append
                             (FileService.encodeURIComponent (FileService.i_fileName fileInfo))
                             (String (ascii_of_nat 34) EmptyString)));
                   body := data |}, d')
        | inl e => (status_500 "获取文件失败" e, d)
        end
  end.

(** The requests that change the disk, as the router hands them to the
    controller. *)
Inductive Call :=
| call_createFile (body : FileService.FileInfo) (id token now : string)
| call_uploadChunk (req : ChunkRequest)
| call_mergeFile (id : string) (fileHash_ : option string) (chunks_ : option (list string))
    (now : string)
| call_getFile (id fileName_ : string).

Definition serve (c : Call) (d : Disk) : Disk :=
  match c with
  | call_createFile body id token now => snd (createFile body id token now d)
  | call_uploadChunk req => snd (uploadChunk req d)
  | call_mergeFile id fileHash_ chunks_ now => snd (mergeFile id fileHash_ chunks_ now d)
  | call_getFile id fileName_ => snd (getFile id fileName_ d)
  end.

Definition serve_all (calls : list Call) (d : Disk) : Disk :=
  fold_left (fun d c => serve c d) calls d.

End UploadController.

End Backend.

(** ** Inputs used in the examples below *)
Module Fixtures.

(** A two-byte file, split into chunks of one byte. *)
Definition ab_file : File :=
  {| file_name := "ab.txt"; file_type := "text/plain"; file_lastModified := 0;
     file_content := bytes_of_string "ab" |}.

(** A three-byte file, split into chunks of two bytes. *)
Definition abc_file : File :=
  {| file_name := "abc.txt"; file_type := "text/plain"; file_lastModified := 0;
     file_content := bytes_of_string "abc" |}.

Definition abc_chunks : list Chunk :=
  calcChunksHash (map (fun i => createChunk abc_file i 2) (seq 0 2)).

(** A session for [abc_file] on an empty disk, and the same disk once the
    file is uploaded and merged and a second session for it was created. *)
Definition abc_info : Backend.FileService.FileInfo :=
  {| Backend.FileService.info_fileName := "abc.txt";
     Backend.FileService.info_fileSize := 3;
     Backend.FileService.info_fileType := "text/plain";
     Backend.FileService.info_lastModified := 0 |}.

Definition abc_hash : string := ChunkSplitor.wholeHash_spec abc_file 2.

Definition fresh_disk : Backend.Disk :=
  snd (Backend.FileService.createFileRecord abc_info "u1" "t0" Backend.empty_disk).

Definition merged_disk : Backend.Disk :=
  let d := Backend.UploadController.receive abc_chunks fresh_disk in
  match Backend.FileService.mergeFile "u1" abc_hash (map hash abc_chunks) "t1" d with
  | inr (_, d') => d'
  | inl _ => d
  end.

Definition dedup_disk : Backend.Disk :=
  snd (Backend.FileService.createFileRecord abc_info "u2" "t2" merged_disk).

(** The one chunk of [ab_file] for chunks of two bytes, and the tasks the
    controller creates for it, one per attempt. *)
Definition ab_chunk : Chunk :=
  let c := createChunk ab_file 0 2 in with_hash (calcChunkHash c) c.

Definition ab_task (n : nat) : UploadController.Task :=
  {| UploadController.task_id := n; UploadController.payload := ab_chunk |}.

Definition no_options : UploadController.UploadOptions :=
  {| UploadController.opt_chunkSize := None; UploadController.opt_concurrency := None;
     UploadController.opt_retryCount := None; UploadController.opt_retryDelay := None;
     UploadController.opt_enableMultiThread := None |}.

Definition not_there : UploadController.Error + UploadController.HashVerifyResponse :=
  inr {| UploadController.hasFile := false; UploadController.rest := None;
         UploadController.url := None |}.

Definition there : UploadController.Error + UploadController.HashVerifyResponse :=
  inr {| UploadController.hasFile := true; UploadController.rest := None;
         UploadController.url := None |}.

Definition unavailable : UploadController.Error := UploadController.TransportError "503".

(** One attempt at the chunk that ends in a failed transfer: the chunk is
    not on the server, the transfer fails, the task settles. *)
Definition failed_attempt (n : nat) : list UploadController.Input :=
  [ UploadController.in_verifyChunk (ab_task n) not_there (1 # 2);
    UploadController.in_uploadChunk (ab_task n) (inl unavailable) (1 # 2) ].

(** The session of [ab_file] up to the fourth failed transfer of its
    chunk (three retries, the default), before the task settles. *)
Definition four_failures : list UploadController.Input :=
  [ UploadController.in_start;
    UploadController.in_createFile (inr ("token", 2%N));
    UploadController.in_chunks [ab_chunk];
    UploadController.in_wholeHash (ChunkSplitor.fold_spec [hash ab_chunk]);
    UploadController.in_verifyFile not_there ]
  ++ failed_attempt 0
  ++ [UploadController.in_finally (ab_task 0); UploadController.in_timer 0]
  ++ failed_attempt 1
  ++ [UploadController.in_finally (ab_task 1); UploadController.in_timer 0]
  ++ failed_attempt 2
  ++ [UploadController.in_finally (ab_task 2); UploadController.in_timer 0]
  ++ failed_attempt 3.

(** The session of [abc_file]: its first chunk is found on the server by
    its own task; then the whole-file verify answers that only the second
    chunk is missing. *)
Definition abc_task (n : nat) : UploadController.Task :=
  {| UploadController.task_id := n; UploadController.payload := nth n abc_chunks ab_chunk |}.

Definition verify_after_upload : list UploadController.Input :=
  [ UploadController.in_start;
    UploadController.in_createFile (inr ("token", 2%N));
    UploadController.in_chunks abc_chunks;
    UploadController.in_verifyChunk (abc_task 0) there 0;
    UploadController.in_wholeHash abc_hash;
    UploadController.in_verifyFile
      (inr {| UploadController.hasFile := false;
              UploadController.rest := Some [hash (nth 1 abc_chunks ab_chunk)];
              UploadController.url := None |}) ].

(** The race of section 4.4: the chunk is found on the server, the queue
    drains and the merge is requested; then the whole-file verify answers
    [hasFile]; then the merge answers. *)
Definition racing : list UploadController.Input :=
  [ UploadController.in_createFile (inr ("token", 2%N));
    UploadController.in_chunks [ab_chunk];
    UploadController.in_wholeHash (ChunkSplitor.fold_spec [hash ab_chunk]);
    UploadController.in_verifyChunk (ab_task 0) there 0;
    UploadController.in_finally (ab_task 0);
    UploadController.in_verifyFile
      (inr {| UploadController.hasFile := true; UploadController.rest := None;
              UploadController.url := Some "/api/upload/file/u0/ab.txt" |});
    UploadController.in_merge (inr "/api/upload/file/u1/ab.txt") ].

(** A session that is cancelled while its chunk is being verified. *)
Definition cancelled : list UploadController.Input :=
  [ UploadController.in_start;
    UploadController.in_createFile (inr ("token", 2%N));
    UploadController.in_chunks [ab_chunk];
    UploadController.in_cancel ].

(** Bytes written in hexadecimal. *)
Definition hex_value (a : ascii) : N :=
  let n := N_of_ascii a in
  if (n <? 58)%N then (n - 48)%N else (n - 87)%N.

Fixpoint unhex (s : string) : bytes :=
  match s with
  | String a (String b r) =>
      match Byte.of_N (16 * hex_value a + hex_value b) with
      | Some x => x :: unhex r
      | None => unhex r
      end
  | _ => []
  end.

(** Two blocks of 128 bytes with the same MD5 digest (Wang and Yu, 2005),
    and the file made of the one followed by the other. *)
Definition twin_1 : bytes :=
  unhex
    (String.append "d131dd02c5e6eec4693d9a0698aff95c2fcab58712467eab4004583eb8fb7f89"
      (String.append "55ad340609f4b30283e488832571415a085125e8f7cdc99fd91dbdf280373c5b"
      (String.append "d8823e3156348f5bae6dacd436c919c6dd53e2b487da03fd02396306d248cda0"
      ("e99f33420f577ee8ce54b67080a80d1ec69821bcb6a8839396f9652b6ff72a70")))).

Definition twin_2 : bytes :=
  unhex
    (String.append "d131dd02c5e6eec4693d9a0698aff95c2fcab50712467eab4004583eb8fb7f89"
      (String.append "55ad340609f4b30283e4888325f1415a085125e8f7cdc99fd91dbd7280373c5b"
      (String.append "d8823e3156348f5bae6dacd436c919c6dd53e23487da03fd02396306d248cda0"
      ("e99f33420f577ee8ce54b67080280d1ec69821bcb6a8839396f965ab6ff72a70")))).

Definition twins_file : File :=
  {| file_name := "twins.bin"; file_type := "application/octet-stream";
     file_lastModified := 0; file_content := twin_1 ++ twin_2 |}.

Definition twins_disk : Backend.Disk :=
  snd (Backend.FileService.createFileRecord
         {| Backend.FileService.info_fileName := "twins.bin";
            Backend.FileService.info_fileSize := 256;
            Backend.FileService.info_fileType := "application/octet-stream";
            Backend.FileService.info_lastModified := 0 |}
         "u3" "t0" Backend.empty_disk).

(** The controller of a session for [abc_file] whose two chunks arrived
    second chunk first and were both found on the server, the second task
    starting when the first one settles, and whose whole-file hash is
    known. *)
Definition received_task (n : nat) : UploadController.Task :=
  {| UploadController.task_id := n;
     UploadController.payload := nth n (rev abc_chunks) ab_chunk |}.

Definition all_uploaded : UploadController.t :=
  UploadController.run
    [ UploadController.in_start;
      UploadController.in_createFile (inr ("token", 2%N));
      UploadController.in_chunks (rev abc_chunks);
      UploadController.in_verifyChunk (received_task 0) there 0;
      UploadController.in_finally (received_task 0);
      UploadController.in_verifyChunk (received_task 1) there 0;
      UploadController.in_wholeHash abc_hash ]
    (UploadController.new abc_file no_options).

(** The controller of a session for [ab_file] that was paused while its
    only chunk was being verified. *)
Definition paused_in_flight : UploadController.t :=
  UploadController.run
    [ UploadController.in_start;
      UploadController.in_createFile (inr ("token", 2%N));
      UploadController.in_chunks [ab_chunk];
      UploadController.in_pause ]
    (UploadController.new ab_file no_options).

(** The requests of a whole session for [abc_file], and requests that
    reach the server after it. *)
Definition abc_session : list Backend.UploadController.Call :=
  [ Backend.UploadController.call_createFile abc_info "u1" "token" "t0";
    Backend.UploadController.call_uploadChunk
      (Backend.UploadController.chunk_request (nth 1 abc_chunks ab_chunk));
    Backend.UploadController.call_uploadChunk
      (Backend.UploadController.chunk_request (nth 0 abc_chunks ab_chunk));
    Backend.UploadController.call_mergeFile "u1" (Some abc_hash)
      (Some (map hash abc_chunks)) "t1" ].

Definition second_session : list Backend.UploadController.Call :=
  [ Backend.UploadController.call_getFile "u1" "abc.txt";
    Backend.UploadController.call_createFile abc_info "u9" "token9" "t9";
    Backend.UploadController.call_uploadChunk
      (Backend.UploadController.chunk_request ab_chunk) ].

End Fixtures.

(** * Properties *)

Example md5_empty : MD5.hex [] = "d41d8cd98f00b204e9800998ecf8427e".
Proof. vm_compute. reflexivity. Qed.

Example md5_abc : MD5.hex (bytes_of_string "abc") = "900150983cd24fb0d6963f7d28e17f72".
Proof. vm_compute. reflexivity. Qed.

Example md5_two_blocks :
  MD5.hex (repeat "a"%byte 70) = "0f5c6c4e740bfcc08c3c26ccb2673d46".
Proof. vm_compute. reflexivity. Qed.

(** ** Lists *)
Module ListFacts.

Lemma filter_all_true {A} (p : A -> bool) (l : list A) :
  (forall x, x ∈ l -> p x = true) -> List.filter p l = l.
Proof.
  induction l as [|x l IH]; intros Hp; simpl; [done|].
  rewrite (Hp x) by left. rewrite IH; [done|]. intros y Hy. apply Hp. by right.
Qed.


Lemma filter_twice {A} (p r : A -> bool) (l : list A) :
  List.filter p (List.filter r l) = List.filter (fun x => r x && p x) l.
Proof.
  induction l as [|x l IH]; simpl; [done|].
  destruct (r x); simpl; [|done]. destruct (p x); simpl; by rewrite IH.
Qed.

Lemma filter_length_le {A} (p : A -> bool) (l : list A) :
  (length (List.filter p l) <= length l)%nat.
Proof. induction l as [|x l IH]; simpl; [done|]. destruct (p x); simpl; lia. Qed.

Lemma elem_of_kept {A} (p : A -> bool) (x : A) (l : list A) :
  x ∈ List.filter p l -> x ∈ l.
Proof. rewrite !list_elem_of_In, filter_In. tauto. Qed.

Lemma find_unique {A} (p : A -> bool) (l : list A) (x : A) :
  x ∈ l -> p x = true -> (forall y, y ∈ l -> p y = true -> y = x) -> List.find p l = Some x.
Proof.
  induction l as [|y l IH]; intros Hin Hp Huniq; [by apply elem_of_nil in Hin|].
  simpl. destruct (p y) eqn:Hy.
  - f_equal. apply Huniq; [left|done].
  - apply IH; [|done|].
    + apply elem_of_cons in Hin as [->|Hin]; [congruence|done].
    + intros z Hz. apply Huniq. by right.
Qed.

Lemma find_none_iff {A} (p : A -> bool) (l : list A) :
  List.find p l = None <-> forall x, x ∈ l -> p x = false.
Proof.
  split.
  - intros Hnone x Hx. apply (List.find_none _ _ Hnone). by apply list_elem_of_In.
  - induction l as [|y l IH]; intros Hall; simpl; [done|].
    rewrite (Hall y) by left. apply IH. intros x Hx. apply Hall. by right.
Qed.

End ListFacts.

(** ** The chunk splitter *)
Module ChunkSplitorFacts.
Import ChunkSplitor.

(** *** Slices *)

Lemma ceil_div_0 (b : nat) : b <> 0%nat -> ceil_div 0 b = 0%nat.
Proof.
  intros Hb. unfold ceil_div. apply Nat.div_small. lia.
Qed.

Lemma ceil_div_covers (a b : nat) : b <> 0%nat -> (a <= ceil_div a b * b)%nat.
Proof.
  intros Hb. unfold ceil_div.
  pose proof (Nat.div_mod (a + b - 1) b Hb) as Hdm.
  pose proof (Nat.mod_upper_bound (a + b - 1) b Hb) as Hlt.
  nia.
Qed.

Lemma below_ceil_div (a b i : nat) :
  b <> 0%nat -> (i < ceil_div a b)%nat -> (i * b < a)%nat.
Proof.
  intros Hb Hi. unfold ceil_div in Hi.
  pose proof (Nat.div_mod (a + b - 1) b Hb) as Hdm.
  pose proof (Nat.mod_upper_bound (a + b - 1) b Hb) as Hlt.
  nia.
Qed.

(** The slice number [i] of width [size] is the next [size] elements, or
    what is left of the list. *)
Lemma blob_slice_take {A} (data : list A) (i size : nat) :
  blob_slice (i * size) (Nat.min ((i + 1) * size) (length data)) data
  = take size (drop (i * size) data).
Proof.
  unfold blob_slice.
  destruct (Nat.le_gt_cases ((i + 1) * size) (length data)) as [Hle|Hgt].
  - rewrite Nat.min_l by done. f_equal. lia.
  - rewrite Nat.min_r by lia.
    rewrite !take_ge; [done| |]; rewrite length_drop; lia.
Qed.

Lemma concat_slices {A} (data : list A) (size n : nat) :
  concat (map (fun i => take size (drop (i * size) data)) (seq 0 n)) = take (n * size) data.
Proof.
  induction n as [|n IH]; [by rewrite take_0|].
  rewrite seq_S, map_app, concat_app, IH. simpl. rewrite app_nil_r.
  rewrite take_take_drop. f_equal. lia.
Qed.

Lemma blob_createChunk (f : File) (i size : nat) :
  blob (createChunk f i size) = take size (drop (i * size) (file_content f)).
Proof. apply blob_slice_take. Qed.

(** The chunks of a file, one after the other, are the file. *)
Lemma concat_blobs (f : File) (size : nat) (s : t) :
  new f size = Some s -> concat (map blob (chunks s)) = file_content f.
Proof.
  unfold new. destruct (size =? 0)%nat eqn:Hs; [discriminate|].
  apply Nat.eqb_neq in Hs. intros [= <-]. simpl.
  rewrite map_map.
  rewrite (map_ext _ (fun i => take size (drop (i * size) (file_content f))))
    by (intros i; apply blob_createChunk).
  rewrite concat_slices. apply take_ge.
  apply ceil_div_covers. exact Hs.
Qed.

Lemma digested_chunks_sound (f : File) (size : nat) (s : t) :
  new f size = Some s -> Forall sound_chunk (calcChunksHash (chunks s)).
Proof.
  unfold new. destruct (size =? 0)%nat eqn:Hs; [discriminate|].
  apply Nat.eqb_neq in Hs. intros [= <-]. simpl.
  unfold calcChunksHash. rewrite map_map.
  apply Forall_forall. intros c [i [-> Hi]]%list_elem_of_fmap.
  apply elem_of_seq in Hi. destruct Hi as [_ Hi]. simpl in Hi.
  pose proof (below_ceil_div _ _ _ Hs Hi) as Hlt.
  split; [reflexivity|].
  unfold with_hash, createChunk, blob_slice, file_size in *. simpl.
  rewrite length_take, length_drop. lia.
Qed.

Lemma blobs_of_digested (l : list Chunk) : map blob (calcChunksHash l) = map blob l.
Proof. unfold calcChunksHash. rewrite map_map. reflexivity. Qed.

Lemma digested_nonempty (f : File) (size : nat) (s : t) :
  new f size = Some s -> file_content f <> [] -> calcChunksHash (chunks s) <> [].
Proof.
  intros Hnew Hne Hnil. apply Hne.
  rewrite <- (concat_blobs f size s Hnew), <- blobs_of_digested, Hnil. reflexivity.
Qed.

(** *** The batches *)

Lemma batches_of_concat (fuel batchSize : nat) (l : list Chunk) :
  batchSize <> 0%nat -> (length l <= fuel)%nat ->
  concat (batches_of fuel batchSize l) = l
  /\ Forall (fun b => b <> []) (batches_of fuel batchSize l).
Proof.
  intros Hb. revert l. induction fuel as [|fuel IH]; intros l Hlen.
  - destruct l; [done|simpl in Hlen; lia].
  - destruct l as [|c l]; [done|].
    change (batches_of (S fuel) batchSize (c :: l))
      with (take batchSize (c :: l) :: batches_of fuel batchSize (drop batchSize (c :: l))).
    destruct (IH (drop batchSize (c :: l))) as [Hcat Hne].
    { rewrite length_drop. simpl in *. lia. }
    split.
    + simpl concat. rewrite Hcat. apply take_drop.
    + constructor; [|exact Hne]. destruct batchSize; [done|discriminate].
Qed.

Lemma calcChunksHash_concat (bs : list (list Chunk)) :
  concat (map calcChunksHash bs) = calcChunksHash (concat bs).
Proof.
  unfold calcChunksHash. induction bs as [|b bs IH]; simpl; [done|].
  by rewrite IH, map_app.
Qed.

Lemma concat_filter_nonempty (bs : list (list Chunk)) :
  concat (List.filter (fun b => negb (length b =? 0)%nat) bs) = concat bs
  /\ Forall (fun b => b <> []) (List.filter (fun b => negb (length b =? 0)%nat) bs).
Proof.
  induction bs as [|b bs [IH1 IH2]]; simpl; [done|].
  destruct b as [|c b]; simpl; [done|].
  split; [by rewrite IH1|]. by constructor.
Qed.

Lemma calcChunksHash_nonempty (bs : list (list Chunk)) :
  Forall (fun b => b <> []) bs -> Forall (fun b => b <> []) (map calcChunksHash bs).
Proof.
  intros H. apply Forall_fmap. eapply Forall_impl; [exact H|].
  intros [|c b]; simpl; done.
Qed.

(** Whatever the number of workers, the batches that are posted are
    non-empty consecutive slices of the chunk list that cover it. *)
Lemma calcHash_multi_covers (workers : nat) (l : list Chunk) :
  concat (calcHash_multi workers l) = calcChunksHash l
  /\ Forall (fun b => b <> []) (calcHash_multi workers l).
Proof.
  unfold calcHash_multi. destruct (workers =? 0)%nat eqn:Hw.
  - unfold calcHash_single.
    destruct (batches_of_concat (length l) 3 l) as [Hcat Hne]; [done|done|].
    split; [by rewrite calcChunksHash_concat, Hcat|by apply calcChunksHash_nonempty].
  - apply Nat.eqb_neq in Hw.
    set (w := ceil_div (length l) workers).
    rewrite (map_ext _ (fun i => take w (drop (i * w) l)))
      by (intros i; apply blob_slice_take).
    destruct (concat_filter_nonempty
                (map (fun i => take w (drop (i * w) l)) (seq 0 workers))) as [Hcat Hne].
    split; [|by apply calcChunksHash_nonempty].
    rewrite calcChunksHash_concat, Hcat, concat_slices. f_equal.
    apply take_ge. unfold w.
    pose proof (ceil_div_covers (length l) workers Hw). lia.
Qed.

(** *** The handler *)

Lemma spark_fold (batch : list Chunk) (buf : string) :
  fold_left (fun b c => spark_append b (hash c)) batch buf
  = fold_left String.append (map hash batch) buf.
Proof.
  revert buf. induction batch as [|c batch IH]; intros buf; simpl; [done|]. apply IH.
Qed.

(** While batches are missing the handler only records what arrives; the
    last batch makes it emit the digest of everything it has appended, in
    the order in which it was appended. *)
Lemma deliver_all (arrival : list (list Chunk)) (s : t) :
  handler_on s = true ->
  arrival <> [] ->
  Forall (fun b => b <> []) arrival ->
  (handleChunkCount s + length (concat arrival))%nat = length (chunks s) ->
  let s' := fold_left (fun acc b => deliver b acc) arrival s in
  let h := spark_end (fold_left String.append (map hash (concat arrival)) (spark s)) in
  hash_ s' = Some h
  /\ emitted s' = emitted s ++ map chunks_ev arrival ++ [wholeHash_ev h; drain_ev].
Proof.
  revert s. induction arrival as [|b arrival IH]; intros s Hon Hne Hall Hcount; [done|].
  apply Forall_cons in Hall as [Hb Hall].
  simpl fold_left. unfold deliver at 2. rewrite Hon.
  destruct arrival as [|b' arrival].
  - (* the last batch *)
    simpl in *. rewrite app_nil_r in *.
    unfold chunksHandler. simpl. rewrite Hcount, Nat.eqb_refl. simpl.
    rewrite spark_fold. rewrite <- !app_assoc. done.
  - (* a batch before the last *)
    pose proof (Forall_inv Hall) as Hb'. simpl in Hb'.
    assert ((handleChunkCount s + length b)%nat <> length (chunks s)) as Hlt.
    { simpl in Hcount. rewrite !length_app in Hcount.
      destruct b' as [|c b']; [done|]. simpl in Hcount. lia. }
    set (s2 := {| chunkSize := chunkSize s; file := file s; hash_ := hash_ s;
                  chunks := chunks s;
                  handleChunkCount := (handleChunkCount s + length b)%nat;
                  spark := fold_left String.append (map hash b) (spark s);
                  hasSplited := hasSplited s; handler_on := handler_on s;
                  emitted := emitted s ++ [chunks_ev b] |}).
    assert (chunksHandler b s = s2) as ->.
    { unfold chunksHandler, s2. simpl. apply Nat.eqb_neq in Hlt. rewrite Hlt.
      by rewrite spark_fold. }
    assert ((handleChunkCount s2 + length (concat (b' :: arrival)))%nat
            = length (chunks s2)) as Hpre.
    { simpl in Hcount |- *. rewrite !length_app in *. lia. }
    destruct (IH s2 Hon ltac:(done) Hall Hpre) as [IH1 IH2].
    change (concat (b :: b' :: arrival)) with (b ++ concat (b' :: arrival)).
    rewrite map_app, fold_left_app.
    split; [exact IH1|]. rewrite IH2. subst s2. cbn [emitted spark].
    rewrite <- !app_assoc. reflexivity.
Qed.

(** For a file that is not empty and any order of the workers' answers:
    [split()] emits every batch as it arrives, then once [wholeHash] and
    [drain]; the digest is the fold of the chunk digests in the order in
    which they arrived.  It is the fold in index order when the answers
    arrive in the order in which the work was posted. *)
Lemma split_in_arrival_order
    (f : File) (size workers : nat) (s : t) (arrival : list (list Chunk)) :
  new f size = Some s ->
  file_content f <> [] ->
  arrival ≡ₚ calcHash_multi workers (chunks s) ->
  let h := fold_spec (map hash (concat arrival)) in
  hash_ (split arrival s) = Some h
  /\ emitted (split arrival s) = map chunks_ev arrival ++ [wholeHash_ev h; drain_ev]
  /\ (arrival = calcHash_multi workers (chunks s) -> h = wholeHash_spec f size).
Proof.
  intros Hnew Hne Hperm h.
  destruct (calcHash_multi_covers workers (chunks s)) as [Hcat Hall].
  assert (chunks s = map (fun i => createChunk f i size) (seq 0 (ceil_div (file_size f) size))
          /\ hasSplited s = false /\ handleChunkCount s = 0%nat /\ spark s = ""
          /\ emitted s = []) as (Hchunks & Hsp & Hcount & Hspark & Hem).
  { unfold new in Hnew. destruct (size =? 0)%nat; [discriminate|].
    injection Hnew as <-. done. }
  assert (length (concat arrival) = length (chunks s)) as Hlen.
  { rewrite (length_concat arrival), Hperm, <- length_concat, Hcat.
    unfold calcChunksHash. by rewrite length_map. }
  assert (arrival <> []) as Harr.
  { intros ->. simpl in Hlen.
    apply (digested_nonempty f size s Hnew Hne).
    destruct (chunks s); [done|discriminate]. }
  unfold split, split_begin. rewrite Hsp.
  match goal with |- context [fold_left _ arrival ?s0] => set (s1 := s0) end.
  destruct (deliver_all arrival s1) as [H1 H2]; try done.
  { by rewrite Hperm. }
  { simpl. rewrite Hcount. simpl. exact Hlen. }
  simpl in H1, H2. rewrite Hspark in H1, H2. rewrite Hem in H2. simpl in H2.
  split; [exact H1|]. split; [exact H2|].
  intros ->. unfold h, wholeHash_spec. f_equal.
  rewrite Hcat, Hchunks. unfold calcChunksHash. rewrite !map_map. reflexivity.
Qed.

(** *** The claims *)

Lemma calcHash_single_nil (batchSize : nat) : calcHash_single batchSize [] = [].
Proof. reflexivity. Qed.

Lemma calcHash_multi_nil (workers : nat) : calcHash_multi workers [] = [].
Proof.
  destruct (calcHash_multi_covers workers []) as [Hcat Hall].
  destruct (calcHash_multi workers []) as [|b bs]; [done|].
  apply Forall_cons in Hall as [Hb _]. simpl in Hcat.
  destruct b; [done|discriminate].
Qed.

Lemma new_empty_file (f : File) (size : nat) (s : t) :
  file_content f = [] -> new f size = Some s ->
  chunks s = [] /\ emitted s = [] /\ hasSplited s = false.
Proof.
  unfold new. intros Hf. destruct (size =? 0)%nat eqn:Hs; [discriminate|].
  apply Nat.eqb_neq in Hs. intros [= <-]. simpl.
  unfold file_size. rewrite Hf. simpl. rewrite ceil_div_0 by done. done.
Qed.

(** C10: a file of size 0 has no chunk, so neither splitter posts or
    digests a batch, and [split()] emits no [chunks], no [wholeHash] and no
    [drain], whatever answers come back. *)
Theorem C10_empty_file_emits_nothing
    (f : File) (size workers batchSize : nat) (s : t) (arrival : list (list Chunk)) :
  file_content f = [] ->
  new f size = Some s ->
  arrival ≡ₚ calcHash_multi workers (chunks s)
  \/ arrival ≡ₚ calcHash_single batchSize (chunks s) ->
  chunks s = [] /\ emitted (split arrival s) = [].
Proof.
  intros Hf Hnew Harr.
  destruct (new_empty_file f size s Hf Hnew) as (Hch & Hem & Hsp).
  split; [exact Hch|].
  rewrite Hch, calcHash_multi_nil, calcHash_single_nil in Harr.
  assert (arrival = []) as -> by (destruct Harr as [H|H]; by apply Permutation_nil_r in H).
  unfold split, split_begin. rewrite Hsp. simpl. exact Hem.
Qed.

Lemma C10_witness :
  exists s, new (Build_File "empty" "" 0 []) 4 = Some s
            /\ chunks s = [] /\ emitted (split [] s) = [].
Proof.
  eexists. split; [reflexivity|].
  apply (C10_empty_file_emits_nothing (Build_File "empty" "" 0 []) 4 8 3 _ []);
    [reflexivity | reflexivity | left; rewrite calcHash_multi_nil; reflexivity].
Defined.

(** C1 (code defect): two chunks digested by two workers, the answer of
    the second worker arriving first.  The digest emitted by [wholeHash] is
    the hash of the digests in arrival order, which is not the fold in
    index order. *)
Theorem C1_wholeHash_follows_arrival_order :
  exists s,
    new Fixtures.ab_file 1 = Some s
    /\ map (map index) (calcHash_multi 2 (chunks s)) = [[0%nat]; [1%nat]]
    /\ hash_ (split (rev (calcHash_multi 2 (chunks s))) s)
       = Some "3a13f2408f269db87ef0110a90e168ae"
    /\ wholeHash_ev "3a13f2408f269db87ef0110a90e168ae"
       ∈ emitted (split (rev (calcHash_multi 2 (chunks s))) s)
    /\ wholeHash_spec Fixtures.ab_file 1 = "3bc22fb7aaebe9c8c5d7de312b876bb8".
Proof.
  eexists. split; [reflexivity|].
  split; [vm_compute; reflexivity|].
  split; [vm_compute; reflexivity|].
  split; [|vm_compute; reflexivity].
  vm_compute. do 2 right. left.
Qed.

(** *** The constructor *)

Lemma new_chunks (f : File) (size : nat) (s : t) :
  new f size = Some s ->
  size <> 0%nat
  /\ chunks s = map (fun i => createChunk f i size) (seq 0 (ceil_div (file_size f) size))
  /\ hash_ s = None /\ handleChunkCount s = 0%nat /\ spark s = ""
  /\ hasSplited s = false /\ handler_on s = false /\ emitted s = [].
Proof.
  unfold new. destruct (size =? 0)%nat eqn:Hs; [discriminate|].
  apply Nat.eqb_neq in Hs. intros [= <-]. done.
Qed.

(** X1: the chunks that the constructor cuts tile the file.  The chunk at
    position [i] has index [i], starts at [i * chunkSize], ends where its
    bytes end, is not empty and not longer than [chunkSize]; every chunk
    but the last has exactly [chunkSize] bytes and the last one ends at
    the end of the file; its blob is the slice of the file at its
    offsets. *)
Theorem X1_chunks_tile_the_file (f : File) (size : nat) (s : t) (i : nat) (c : Chunk) :
  new f size = Some s ->
  chunks s !! i = Some c ->
  index c = i
  /\ start c = (i * size)%nat
  /\ end_ c = (start c + length (blob c))%nat
  /\ (1 <= length (blob c) <= size)%nat
  /\ ((S i < length (chunks s))%nat -> length (blob c) = size)
  /\ (S i = length (chunks s) -> end_ c = file_size f)
  /\ blob c = take (length (blob c)) (drop (start c) (file_content f)).
Proof.
  intros Hnew Hi.
  destruct (new_chunks f size s Hnew) as (Hs & Hch & _).
  rewrite Hch in Hi |- *. rewrite length_map, length_seq.
  apply list_lookup_fmap_Some in Hi as (j & -> & Hj).
  apply lookup_seq in Hj as [-> Hlt]. simpl in Hlt |- *.
  pose proof (below_ceil_div _ _ _ Hs Hlt) as Hbelow.
  unfold blob_slice, file_size in *.
  rewrite length_take, length_drop.
  split; [done|]. split; [done|]. split; [lia|]. split; [lia|].
  split; [|split].
  - intros Hnext. pose proof (below_ceil_div _ _ _ Hs Hnext). lia.
  - intros Hlast. pose proof (ceil_div_covers (length (file_content f)) size Hs). lia.
  - f_equal. lia.
Qed.

Lemma X1_witness :
  exists s c,
    new Fixtures.abc_file 2 = Some s /\ chunks s !! 1%nat = Some c
    /\ index c = 1%nat
    /\ start c = (1 * 2)%nat
    /\ end_ c = (start c + length (blob c))%nat
    /\ (1 <= length (blob c) <= 2)%nat
    /\ ((2 < length (chunks s))%nat -> length (blob c) = 2%nat)
    /\ (2%nat = length (chunks s) -> end_ c = file_size Fixtures.abc_file)
    /\ blob c = take (length (blob c)) (drop (start c) (file_content Fixtures.abc_file)).
Proof.
  eexists _, _. split; [reflexivity|]. split; [reflexivity|].
  exact (X1_chunks_tile_the_file Fixtures.abc_file 2 _ 1 _ eq_refl eq_refl).
Defined.

(** *** Any sequence of answers *)

Lemma deliver_shape (batch : list Chunk) (s : t) :
  emitted_shape s -> emitted_shape (deliver batch s).
Proof.
  intros [(Hon & Hh & Hem)|(Hoff & Hdone)].
  - unfold deliver. rewrite Hon. unfold chunksHandler. simpl.
    destruct (_ =? _)%nat; simpl.
    + right. split; [done|]. eexists _, (emitted s ++ [chunks_ev batch]).
      split; [done|]. split; [unfold emit; simpl; by rewrite <- !app_assoc|].
      apply Forall_app. split; [done|by constructor].
    + left. split; [done|]. split; [done|].
      apply Forall_app. split; [done|by constructor].
  - unfold deliver. rewrite Hoff. right. done.
Qed.

Lemma deliver_hasSplited (batch : list Chunk) (s : t) :
  hasSplited (deliver batch s) = hasSplited s.
Proof.
  unfold deliver. destruct (handler_on s); [|done].
  unfold chunksHandler. simpl. destruct (_ =? _)%nat; done.
Qed.

Lemma split_hasSplited (arrival : list (list Chunk)) (s : t) :
  hasSplited (split arrival s) = true.
Proof.
  assert (forall s0, hasSplited s0 = true ->
                     hasSplited (fold_left (fun acc b => deliver b acc) arrival s0) = true)
    as Hfold.
  { induction arrival as [|b arrival IH]; intros s0 H0; simpl; [done|].
    apply IH. by rewrite deliver_hasSplited. }
  unfold split, split_begin. destruct (hasSplited s) eqn:Hs; [exact Hs|].
  by apply Hfold.
Qed.

(** X2: whatever batches are delivered to the handler of [split()], in
    whatever number and order, the splitter emits [wholeHash] and [drain]
    at most once, together and as its last two events, with the digest it
    stored; every other event is a [chunks] event.  Answers that come
    after the digest are ignored. *)
Theorem X2_wholeHash_at_most_once
    (f : File) (size : nat) (s : t) (arrival : list (list Chunk)) :
  new f size = Some s ->
  let r := split arrival s in
  (hash_ r = None /\ Forall (fun e => is_chunks e = true) (emitted r))
  \/ (exists h pre, hash_ r = Some h
                    /\ emitted r = pre ++ [wholeHash_ev h; drain_ev]
                    /\ Forall (fun e => is_chunks e = true) pre).
Proof.
  intros Hnew r.
  destruct (new_chunks f size s Hnew) as (_ & _ & Hh & _ & _ & Hsp & _ & Hem).
  assert (emitted_shape r) as Hshape.
  { unfold r, split, split_begin. rewrite Hsp.
    match goal with |- context [fold_left _ arrival ?s0] =>
      assert (emitted_shape s0) as H0; [|revert H0; generalize s0] end.
    { left. simpl. rewrite Hem. done. }
    induction arrival as [|b arrival IH]; intros s0 H0; simpl; [done|].
    apply IH. by apply deliver_shape. }
  destruct Hshape as [(_ & H1 & H2)|(_ & H)]; [left; done|right; done].
Qed.

Lemma X2_witness :
  exists s,
    new Fixtures.ab_file 1 = Some s
    /\ let r := split (calcHash_multi 2 (chunks s) ++ calcHash_multi 2 (chunks s)) s in
       (hash_ r = None /\ Forall (fun e => is_chunks e = true) (emitted r))
       \/ (exists h pre, hash_ r = Some h
                         /\ emitted r = pre ++ [wholeHash_ev h; drain_ev]
                         /\ Forall (fun e => is_chunks e = true) pre).
Proof.
  eexists. split; [reflexivity|].
  exact (X2_wholeHash_at_most_once Fixtures.ab_file 1 _ _ eq_refl).
Defined.

(** X3: [split()] is single shot.  A second call posts no work and emits
    nothing, whatever answers it is given: the splitter is as the first
    call left it. *)
Theorem X3_split_is_single_shot (s : t) (first again : list (list Chunk)) :
  split again (split first s) = split first s.
Proof.
  unfold split at 1, split_begin. by rewrite split_hasSplited.
Qed.

(** *** The single-thread splitter *)

Lemma ceil_div_step (n b : nat) :
  b <> 0%nat -> n <> 0%nat -> ceil_div n b = S (ceil_div (n - b) b).
Proof.
  intros Hb Hn. unfold ceil_div.
  destruct (Nat.le_gt_cases b n) as [Hle|Hgt].
  - replace (n + b - 1)%nat with ((n - b + b - 1) + 1 * b)%nat by lia.
    rewrite Nat.div_add by done. lia.
  - replace (n - b)%nat with 0%nat by lia. simpl.
    rewrite (Nat.div_small (b - 1) b) by lia.
    symmetry. apply Nat.div_unique with (r := (n - 1)%nat); lia.
Qed.

Lemma batches_of_structure (fuel batchSize : nat) (l : list Chunk) :
  batchSize <> 0%nat -> (length l <= fuel)%nat ->
  length (batches_of fuel batchSize l) = ceil_div (length l) batchSize
  /\ Forall (fun b => (1 <= length b <= batchSize)%nat) (batches_of fuel batchSize l).
Proof.
  intros Hb. revert l. induction fuel as [|fuel IH]; intros l Hlen.
  - destruct l; [|simpl in Hlen; lia]. simpl. by rewrite ceil_div_0.
  - destruct l as [|c l]; [simpl; by rewrite ceil_div_0|].
    change (batches_of (S fuel) batchSize (c :: l))
      with (take batchSize (c :: l) :: batches_of fuel batchSize (drop batchSize (c :: l))).
    destruct (IH (drop batchSize (c :: l))) as [Hn Hall].
    { rewrite length_drop. simpl in *. lia. }
    split.
    + simpl length at 1. rewrite Hn, length_drop.
      symmetry. apply ceil_div_step; [done|simpl; lia].
    + constructor; [|exact Hall]. rewrite length_take. simpl length. lia.
Qed.

(** X4: [SingleThreadSplitor.calcHash] with a batch size of at least 1
    emits [ceil(n / batchSize)] batches for [n] chunks, none empty and
    none longer than [batchSize]; one after the other they are the chunk
    list, in its order, every chunk with the digest of its bytes. *)
Theorem X4_single_thread_batches (batchSize : nat) (l : list Chunk) :
  batchSize <> 0%nat ->
  let emitted_batches := calcHash_single batchSize l in
  concat emitted_batches = calcChunksHash l
  /\ length emitted_batches = ceil_div (length l) batchSize
  /\ Forall (fun b => (1 <= length b <= batchSize)%nat) emitted_batches.
Proof.
  intros Hb. unfold calcHash_single. simpl.
  destruct (batches_of_concat (length l) batchSize l) as [Hcat _]; [done|done|].
  destruct (batches_of_structure (length l) batchSize l) as [Hn Hall]; [done|done|].
  split; [by rewrite calcChunksHash_concat, Hcat|].
  split; [by rewrite length_map|].
  apply Forall_fmap. eapply Forall_impl; [exact Hall|].
  intros b Hlen. simpl. unfold calcChunksHash. by rewrite length_map.
Qed.

Lemma X4_witness :
  let emitted_batches := calcHash_single 3 (repeat Fixtures.ab_chunk 7) in
  concat emitted_batches = calcChunksHash (repeat Fixtures.ab_chunk 7)
  /\ length emitted_batches = ceil_div (length (repeat Fixtures.ab_chunk 7)) 3
  /\ Forall (fun b => (1 <= length b <= 3)%nat) emitted_batches.
Proof. apply X4_single_thread_batches. discriminate. Defined.

(** X5: with the single-thread splitter and a batch size of at least 1,
    [split()] of a file that is not empty emits the batches in index
    order, then [wholeHash] with the MD5 of the chunk digests appended in
    index order, then [drain], and stores that digest. *)
Theorem X5_single_thread_digest (f : File) (size batchSize : nat) (s : t) :
  new f size = Some s ->
  file_content f <> [] ->
  batchSize <> 0%nat ->
  let batches := calcHash_single batchSize (chunks s) in
  let h := fold_spec (map calcChunkHash (chunks s)) in
  hash_ (split batches s) = Some h
  /\ emitted (split batches s) = map chunks_ev batches ++ [wholeHash_ev h; drain_ev].
Proof.
  intros Hnew Hne Hb batches h.
  destruct (new_chunks f size s Hnew) as (_ & _ & _ & Hcount & Hspark & Hsp & _ & Hem).
  destruct (batches_of_concat (length (chunks s)) batchSize (chunks s)) as [Hcat Hall];
    [done|done|].
  assert (concat batches = calcChunksHash (chunks s)) as Hcover.
  { unfold batches, calcHash_single. by rewrite calcChunksHash_concat, Hcat. }
  assert (batches <> []) as Hbs.
  { intros Hnil. apply (digested_nonempty f size s Hnew Hne).
    by rewrite <- Hcover, Hnil. }
  unfold split, split_begin. rewrite Hsp.
  match goal with |- context [fold_left _ batches ?s0] => set (s1 := s0) end.
  destruct (deliver_all batches s1) as [H1 H2]; try done.
  { by apply calcChunksHash_nonempty. }
  { simpl. rewrite Hcount, Hcover. unfold calcChunksHash. by rewrite length_map. }
  simpl in H1, H2. rewrite Hspark in H1, H2. rewrite Hem in H2. simpl in H2.
  assert (map hash (concat batches) = map calcChunkHash (chunks s)) as Hhashes.
  { rewrite Hcover. unfold calcChunksHash. by rewrite map_map. }
  rewrite Hhashes in H1, H2. done.
Qed.

Lemma X5_witness :
  exists s,
    new Fixtures.abc_file 1 = Some s
    /\ let batches := calcHash_single 2 (chunks s) in
       let h := fold_spec (map calcChunkHash (chunks s)) in
       hash_ (split batches s) = Some h
       /\ emitted (split batches s) = map chunks_ev batches ++ [wholeHash_ev h; drain_ev].
Proof.
  eexists. split; [reflexivity|].
  apply (X5_single_thread_digest Fixtures.abc_file 1 2 _ eq_refl); discriminate.
Defined.

(** *** The multi-thread splitter *)

(** X6: [MultiThreadSplitor.calcHash] with at least one worker posts at
    most one message per worker; no message is empty and none holds more
    than [ceil(n / workers)] chunks; in posting order the messages are the
    chunk list, so every chunk goes to exactly one worker. *)
Theorem X6_multi_thread_posts (workers : nat) (l : list Chunk) :
  workers <> 0%nat ->
  let posted := calcHash_multi workers l in
  concat posted = calcChunksHash l
  /\ (length posted <= workers)%nat
  /\ Forall (fun b => (1 <= length b <= ceil_div (length l) workers)%nat) posted.
Proof.
  intros Hw posted.
  destruct (calcHash_multi_covers workers l) as [Hcat Hne].
  split; [exact Hcat|].
  unfold posted, calcHash_multi in *. apply Nat.eqb_neq in Hw. rewrite Hw in *.
  split.
  - rewrite length_map. etrans; [apply ListFacts.filter_length_le|].
    by rewrite length_map, length_seq.
  - apply Forall_forall. intros b Hb.
    pose proof (proj1 (Forall_forall _ _) Hne b Hb) as Hnb.
    apply list_elem_of_fmap in Hb as (b0 & -> & Hb0).
    apply list_elem_of_In, filter_In in Hb0 as [Hin _].
    apply list_elem_of_In, list_elem_of_fmap in Hin as (i & -> & _).
    unfold calcChunksHash in *. rewrite length_map.
    split.
    + destruct (blob_slice _ _ l); [done|simpl; lia].
    + rewrite blob_slice_take, length_take. lia.
Qed.

Lemma X6_witness :
  let posted := calcHash_multi 4 (repeat Fixtures.ab_chunk 6) in
  concat posted = calcChunksHash (repeat Fixtures.ab_chunk 6)
  /\ (length posted <= 4)%nat
  /\ Forall (fun b => (1 <= length b <= ceil_div (length (repeat Fixtures.ab_chunk 6)) 4)%nat)
            posted.
Proof. apply X6_multi_thread_posts. discriminate. Defined.

(** *** Progress *)

(** While answers are missing the handler counts what has arrived. *)
Lemma deliver_count (arrival : list (list Chunk)) (s : t) :
  handler_on s = true ->
  Forall (fun b => b <> []) arrival ->
  (handleChunkCount s + length (concat arrival) <= length (chunks s))%nat ->
  let s' := fold_left (fun acc b => deliver b acc) arrival s in
  handleChunkCount s' = (handleChunkCount s + length (concat arrival))%nat
  /\ chunks s' = chunks s
  /\ ((handleChunkCount s + length (concat arrival) < length (chunks s))%nat ->
      hash_ s' = hash_ s).
Proof.
  revert s. induction arrival as [|b arrival IH]; intros s Hon Hall Hle.
  - simpl. split; [lia|]. done.
  - apply Forall_cons in Hall as [Hb Hall].
    simpl in Hle. rewrite length_app in Hle.
    simpl fold_left. unfold deliver at 2. rewrite Hon.
    destruct (decide ((handleChunkCount s + length b)%nat = length (chunks s))) as [Heq|Hneq].
    + (* the last answer *)
      destruct arrival as [|b' arrival].
      * simpl. rewrite app_nil_r. unfold chunksHandler. simpl.
        rewrite Heq, Nat.eqb_refl. simpl. split; [done|]. split; [done|]. lia.
      * apply Forall_cons in Hall as [Hb' _]. destruct b'; [done|].
        simpl in Hle. rewrite length_app in Hle. simpl in Hle. lia.
    + set (s2 := chunksHandler b s).
      assert (handler_on s2 = true /\ handleChunkCount s2 = (handleChunkCount s + length b)%nat
              /\ chunks s2 = chunks s /\ hash_ s2 = hash_ s) as (Hon2 & Hc2 & Hch2 & Hh2).
      { unfold s2, chunksHandler. simpl. apply Nat.eqb_neq in Hneq. rewrite Hneq. done. }
      destruct (IH s2 Hon2 Hall) as (H1 & H2 & H3).
      { rewrite Hc2, Hch2. lia. }
      simpl. rewrite length_app. rewrite H1, H2, Hc2, Hch2.
      split; [lia|]. split; [done|]. intros Hlt. rewrite H3, Hh2; [done|].
      rewrite Hc2, Hch2. lia.
Qed.

(** X7: during [split()], when some of the posted messages have been
    answered, in any order, [getProgress()] reports the number of chunks
    in the answers received, which is at most the total; as long as an
    answer is missing, the count is below the total and no digest is
    stored. *)
Theorem X7_progress_counts_answers
    (f : File) (size workers : nat) (s : t) (received missing : list (list Chunk)) :
  new f size = Some s ->
  received ++ missing ≡ₚ calcHash_multi workers (chunks s) ->
  getProgress (split received s) = (length (chunks s), length (concat received))
  /\ (length (concat received) <= length (chunks s))%nat
  /\ (missing <> [] -> hash_ (split received s) = None
                       /\ (length (concat received) < length (chunks s))%nat).
Proof.
  intros Hnew Hperm.
  destruct (new_chunks f size s Hnew) as (_ & _ & Hh & Hcount & _ & Hsp & _ & _).
  destruct (calcHash_multi_covers workers (chunks s)) as [Hcat Hall].
  rewrite <- Hperm in Hall. apply Forall_app in Hall as [Hrec Hmis].
  assert (length (concat received) + length (concat missing) = length (chunks s))%nat as Hlen.
  { rewrite <- length_app, <- concat_app, (length_concat (received ++ missing)), Hperm,
      <- length_concat, Hcat. unfold calcChunksHash. by rewrite length_map. }
  unfold getProgress, split, split_begin. rewrite Hsp.
  match goal with |- context [fold_left _ received ?s0] => set (s1 := s0) end.
  destruct (deliver_count received s1) as (H1 & H2 & H3); [done|done| |].
  { simpl. rewrite Hcount. lia. }
  simpl in H1, H2, H3. rewrite Hcount in H1, H3. simpl in H1, H3.
  rewrite H1, H2. split; [done|]. split; [lia|].
  intros Hm.
  assert (length (concat missing) <> 0)%nat as Hpos.
  { destruct missing as [|b missing]; [done|]. apply Forall_cons in Hmis as [Hb _].
    destruct b; [done|]. simpl. lia. }
  split; [|lia]. rewrite H3 by lia. exact Hh.
Qed.

Lemma X7_witness :
  exists s,
    new Fixtures.abc_file 1 = Some s
    /\ let received := drop 2 (calcHash_multi 3 (chunks s)) in
       let missing := take 2 (calcHash_multi 3 (chunks s)) in
       getProgress (split received s) = (length (chunks s), length (concat received))
       /\ (length (concat received) <= length (chunks s))%nat
       /\ (missing <> [] -> hash_ (split received s) = None
                            /\ (length (concat received) < length (chunks s))%nat).
Proof.
  eexists. split; [reflexivity|].
  apply (X7_progress_counts_answers Fixtures.abc_file 1 3 _ _ _ eq_refl).
  rewrite Permutation_app_comm. by rewrite take_drop.
Defined.

End ChunkSplitorFacts.

(** ** The task queue *)
Module TaskQueueFacts.
Import TaskQueue.

Section facts.
Context {Task : Type} `{EqDecision Task}.
Implicit Types (q : t Task) (pending : list Task).


(** [runNext] emits [drain] only with nothing pending and nothing running. *)
Lemma runNext_from_drain pending q s :
  s ∈ drains (snd (runNext_from pending q)) ->
  pendingTasks s = 0%nat /\ runningTasks s = 0.
Proof.
  revert q. induction pending as [|task rest IH]; intros q; simpl.
  - destruct (status q); simpl; [by intros ?%elem_of_nil|].
    destruct (concurrency q <=? currentCount q); simpl; [by intros ?%elem_of_nil|].
    destruct (currentCount q =? 0) eqn:Hz; simpl; [|by intros ?%elem_of_nil].
    intros ->%list_elem_of_singleton. simpl. split; [done|]. by apply Z.eqb_eq.
  - destruct (status q); simpl; [by intros ?%elem_of_nil|].
    destruct (concurrency q <=? currentCount q); simpl; [by intros ?%elem_of_nil|].
    specialize (IH (launch task (set_tasks (task :: rest) q))).
    destruct (runNext_from rest _) as [q' eff]; simpl in *. exact IH.
Qed.



End facts.




(** C6 (code defect): a task is started, the queue is paused while the
    task runs, and [start()] is called again: [start()] finds no pending
    task and emits [drain] although one task is still running. *)
Theorem C6_start_emits_drain_with_a_task_running :
  drains (snd (run [op_addAndStart [1%nat]; op_pause; op_start] (new 4)))
  = [{| snap_status := paused; pendingTasks := 0; runningTasks := 1;
        snap_concurrency := 4 |}].
Proof. reflexivity. Qed.

Section more.
Context {Task : Type} `{EqDecision Task}.
Implicit Types (q : t Task) (pending : list Task).

(** *** Order of start *)

Lemma runNext_from_fifo pending q :
  launched (snd (runNext_from pending q)) ++ tasks (fst (runNext_from pending q)) = pending.
Proof.
  revert q. induction pending as [|task rest IH]; intros q; simpl.
  - destruct (status q); simpl; [done|].
    destruct (concurrency q <=? currentCount q); simpl; [done|].
    destruct (currentCount q =? 0); done.
  - destruct (status q); simpl; [done|].
    destruct (concurrency q <=? currentCount q); simpl; [done|].
    specialize (IH (launch task (set_tasks (task :: rest) q))).
    destruct (runNext_from rest _) as [q' eff]; simpl in *. by rewrite IH.
Qed.

(** *** A paused queue *)

Lemma runNext_from_paused pending q :
  status q = paused -> runNext_from pending q = (set_tasks pending q, []).
Proof. intros Hp. destruct pending; simpl; by rewrite Hp. Qed.

(** *** The counter *)

Lemma runNext_from_counted pending q :
  counted q -> counted (fst (runNext_from pending q)).
Proof.
  unfold counted. revert q. induction pending as [|task rest IH]; intros q Hc; simpl.
  - destruct (status q); simpl; [done|].
    destruct (concurrency q <=? currentCount q); simpl; [done|].
    destruct (currentCount q =? 0); done.
  - destruct (status q); simpl; [done|].
    destruct (concurrency q <=? currentCount q); simpl; [done|].
    specialize (IH (launch task (set_tasks (task :: rest) q))).
    destruct (runNext_from rest _) as [q' eff]; simpl in *.
    apply IH. rewrite length_app. simpl. lia.
Qed.

Lemma remove_first_length (task : Task) (l : list Task) :
  task ∈ l -> length l = S (length (remove_first task l)).
Proof.
  induction l as [|x l IH]; [by intros ?%elem_of_nil|].
  intros Hin. simpl. destruct (decide (x = task)); [done|].
  simpl. f_equal. apply IH. apply elem_of_cons in Hin as [->|Hin]; done.
Qed.

Lemma step_counted (op : Op Task) q : counted q -> counted (fst (step op q)).
Proof.
  intros Hc. destruct op as [ts|ts| | | |c|task]; simpl; try done.
  - unfold addAndStart, start. simpl.
    destruct (status q); simpl; [|done].
    destruct (length _ =? 0)%nat; simpl; [done|].
    pose proof (runNext_from_counted
      (fold_left (fun acc task => set_add task acc) ts (tasks q))
      (set_status running (add ts q)) Hc) as Hn.
    unfold runNext. simpl.
    destruct (runNext_from _ _) as [q' eff]; simpl in *. exact Hn.
  - unfold start. destruct (status q); simpl; [|done].
    destruct (length _ =? 0)%nat; simpl; [done|].
    pose proof (runNext_from_counted (tasks q) (set_status running q) Hc) as Hn.
    unfold runNext. simpl.
    destruct (runNext_from _ _) as [q' eff]; simpl in *. exact Hn.
  - unfold setConcurrency. simpl.
    destruct (status q); simpl; [done|].
    apply (runNext_from_counted (tasks q) (set_concurrency (Z.max 1 c) q)). exact Hc.
  - unfold settle. destruct (decide _) as [Hin|]; simpl; [|done].
    apply (runNext_from_counted (tasks q)). unfold counted in *. simpl.
    rewrite (remove_first_length task (inflight q) Hin) in Hc. lia.
Qed.

Lemma run_invariant (P : t Task -> Prop) (ops : list (Op Task)) q :
  (forall op q, P q -> P (fst (step op q))) -> P q -> P (fst (run ops q)).
Proof.
  intros Hstep. revert q. induction ops as [|op rest IH]; intros q Hq; simpl; [done|].
  specialize (Hstep op q Hq).
  destruct (step op q) as [q1 e1]; simpl in *.
  specialize (IH q1 Hstep).
  destruct (run rest q1) as [q2 e2]; simpl in *. exact IH.
Qed.

(** *** No stall *)

Lemma runNext_from_busy pending q :
  1 <= concurrency q -> 0 <= currentCount q ->
  let q' := fst (runNext_from pending q) in
  1 <= concurrency q' /\ (status q' = running -> 1 <= currentCount q').
Proof.
  revert q. induction pending as [|task rest IH]; intros q Hc H0; simpl.
  - destruct (status q) eqn:Hs; simpl; [by rewrite Hs|].
    destruct (concurrency q <=? currentCount q) eqn:Hfull; simpl.
    + apply Z.leb_le in Hfull. split; [done|]. lia.
    + destruct (currentCount q =? 0) eqn:Hz; simpl; [done|].
      apply Z.eqb_neq in Hz. split; [done|]. lia.
  - destruct (status q) eqn:Hs; simpl; [by rewrite Hs|].
    destruct (concurrency q <=? currentCount q) eqn:Hfull; simpl.
    + apply Z.leb_le in Hfull. split; [done|]. lia.
    + specialize (IH (launch task (set_tasks (task :: rest) q))).
      destruct (runNext_from rest _) as [q' eff]; simpl in *.
      apply IH; lia.
Qed.

Lemma step_busy (op : Op Task) q : busy q -> busy (fst (step op q)).
Proof.
  intros (Hc & Hn & Hrun).
  split; [|split; [by apply step_counted|]]; revert Hn; unfold counted; intros Hn.
  - destruct op as [ts|ts| | | |c|task]; simpl; try done.
    + unfold addAndStart, start. simpl. destruct (status q); simpl; [|done].
      destruct (length _ =? 0)%nat; simpl; [done|].
      pose proof (runNext_from_busy
        (fold_left (fun acc task => set_add task acc) ts (tasks q))
        (set_status running (add ts q)) Hc) as Hb.
      unfold runNext. simpl in *.
      destruct (runNext_from _ _) as [q' eff]; simpl in *. apply Hb. lia.
    + unfold start. destruct (status q); simpl; [|done].
      destruct (length _ =? 0)%nat; simpl; [done|].
      pose proof (runNext_from_busy (tasks q) (set_status running q) Hc) as Hb.
      unfold runNext. simpl in *.
      destruct (runNext_from _ _) as [q' eff]; simpl in *. apply Hb. lia.
    + unfold setConcurrency. simpl. destruct (status q); simpl; [lia|].
      apply (runNext_from_busy (tasks q) (set_concurrency (Z.max 1 c) q)); simpl; lia.
    + unfold settle. destruct (decide _) as [Hin|]; simpl; [|done].
      apply (runNext_from_busy (tasks q)); simpl; [done|].
      rewrite (remove_first_length task (inflight q) Hin) in Hn. lia.
  - destruct op as [ts|ts| | | |c|task]; simpl; try done.
    + unfold addAndStart, start. simpl.
      destruct (status q) eqn:Hs; simpl; [|by intros _; apply Hrun].
      destruct (length _ =? 0)%nat; simpl; [by rewrite Hs|].
      pose proof (runNext_from_busy
        (fold_left (fun acc task => set_add task acc) ts (tasks q))
        (set_status running (add ts q)) Hc) as Hb.
      unfold runNext. simpl in *.
      destruct (runNext_from _ _) as [q' eff]; simpl in *. apply Hb. lia.
    + unfold start. destruct (status q) eqn:Hs; simpl; [|by intros _; apply Hrun].
      destruct (length _ =? 0)%nat; simpl; [by rewrite Hs|].
      pose proof (runNext_from_busy (tasks q) (set_status running q) Hc) as Hb.
      unfold runNext. simpl in *.
      destruct (runNext_from _ _) as [q' eff]; simpl in *. apply Hb. lia.
    + unfold setConcurrency. simpl. destruct (status q) eqn:Hs; simpl; [by rewrite Hs|].
      apply (runNext_from_busy (tasks q) (set_concurrency (Z.max 1 c) q)); simpl; lia.
    + unfold settle. destruct (decide _) as [Hin|]; simpl; [|done].
      apply (runNext_from_busy (tasks q)); simpl; [done|].
      rewrite (remove_first_length task (inflight q) Hin) in Hn. lia.
Qed.

(** *** A whole run *)

Lemma launched_app (e1 e2 : list (Effect Task)) :
  launched (e1 ++ e2) = launched e1 ++ launched e2.
Proof. unfold launched. apply omap_app. Qed.

Lemma drains_app (e1 e2 : list (Effect Task)) :
  drains (e1 ++ e2) = drains e1 ++ drains e2.
Proof. unfold drains. apply omap_app. Qed.

Lemma add_fresh (ts acc : list Task) :
  NoDup (acc ++ ts) -> fold_left (fun acc task => set_add task acc) ts acc = acc ++ ts.
Proof.
  revert acc. induction ts as [|task ts IH]; intros acc Hnd; simpl.
  - by rewrite app_nil_r.
  - unfold set_add at 2. destruct (decide (task ∈ acc)) as [Hin|Hout].
    + apply NoDup_app in Hnd as (_ & Hdisj & _). exfalso.
      apply (Hdisj task Hin). left.
    + rewrite IH; [by rewrite <- app_assoc|]. by rewrite <- app_assoc.
Qed.

Lemma runNext_from_draining pending q (before : list (Effect Task)) :
  status q = running -> counted q -> 1 <= concurrency q -> drains before = [] ->
  let r := runNext_from pending q in
  draining (concurrency q) (fst r) (before ++ snd r)
  /\ (length (tasks (fst r)) + length (inflight (fst r))
      = length pending + length (inflight q))%nat.
Proof.
  unfold draining, counted.
  revert q before. induction pending as [|task rest IH]; intros q before Hs Hn Hc Hd; simpl.
  - rewrite Hs. simpl.
    destruct (concurrency q <=? currentCount q) eqn:Hfull; simpl.
    + apply Z.leb_le in Hfull. rewrite app_nil_r. split; [|done].
      split; [done|]. split; [done|]. left. split; [done|]. split; [|done].
      intros Hnil. rewrite Hnil in Hn. simpl in Hn. lia.
    + destruct (currentCount q =? 0) eqn:Hz; simpl.
      * apply Z.eqb_eq in Hz. rewrite Hz in Hn.
        assert (inflight q = []) as Hnil by (destruct (inflight q); [done|simpl in Hn; lia]).
        rewrite Hnil. split; [|done]. split; [by rewrite Hnil in Hn|]. split; [done|].
        right. split; [done|]. split; [done|]. split; [done|].
        exists before. unfold getStatus, idle_snapshot. simpl. rewrite Hz. done.
      * apply Z.eqb_neq in Hz. rewrite app_nil_r. split; [|done].
        split; [done|]. split; [done|]. left. split; [done|]. split; [|done].
        intros Hnil. rewrite Hnil in Hn. simpl in Hn. lia.
  - rewrite Hs. simpl.
    destruct (concurrency q <=? currentCount q) eqn:Hfull; simpl.
    + apply Z.leb_le in Hfull. rewrite app_nil_r. split; [|done].
      split; [done|]. split; [done|]. left. split; [done|]. split; [|done].
      intros Hnil. rewrite Hnil in Hn. simpl in Hn. lia.
    + specialize (IH (launch task (set_tasks (task :: rest) q)) (before ++ [Launch task])).
      destruct (runNext_from rest _) as [q' eff]; simpl in *.
      rewrite <- app_assoc in IH. simpl in IH.
      destruct IH as [IH1 IH2]; [done| |done| |].
      { rewrite length_app. simpl. lia. }
      { rewrite drains_app, Hd. done. }
      split; [exact IH1|]. rewrite IH2, length_app. simpl. lia.
Qed.

Lemma settle_draining (c : Z) (task : Task) q (before : list (Effect Task)) :
  1 <= c -> draining c q before -> task ∈ inflight q ->
  let r := settle task q in
  draining c (fst r) (before ++ snd r)
  /\ launched (snd r) ++ tasks (fst r) = tasks q
  /\ S (length (tasks (fst r)) + length (inflight (fst r)))
     = (length (tasks q) + length (inflight q))%nat.
Proof.
  intros Hc (Hn & Hcq & Hst) Hin. unfold settle.
  destruct (decide _) as [_|Hno]; [|done].
  destruct Hst as [(Hs & Hne & Hd)|(_ & _ & Hnil & _)];
    [|rewrite Hnil in Hin; by apply elem_of_nil in Hin].
  pose proof (remove_first_length task (inflight q) Hin) as Hlen.
  match goal with |- context [runNext ?q0] => set (q1 := q0) end.
  destruct (runNext_from_draining (tasks q1) q1 before) as [H1 H2]; try done.
  { unfold counted in *. simpl. lia. }
  { simpl. lia. }
  pose proof (runNext_from_fifo (tasks q1) q1) as Hfifo.
  unfold runNext. simpl in *. rewrite Hcq in H1.
  split; [exact H1|]. split; [exact Hfifo|]. rewrite H2. lia.
Qed.

Lemma settles_draining (c : Z) (ops : list (Op Task)) q (before : list (Effect Task)) :
  1 <= c -> draining c q before ->
  Forall (fun op => is_settle op = true) ops ->
  settles_in_flight ops q ->
  let r := run ops q in
  draining c (fst r) (before ++ snd r)
  /\ launched (snd r) ++ tasks (fst r) = tasks q
  /\ (length (tasks (fst r)) + length (inflight (fst r)) + length ops
      = length (tasks q) + length (inflight q))%nat.
Proof.
  intros Hc. revert q before. induction ops as [|op rest IH]; intros q before Hq Hall Hin.
  - simpl. rewrite app_nil_r. done.
  - apply Forall_cons in Hall as [Hop Hall]. destruct op; try done.
    destruct Hin as [Hin Hrest]. simpl in Hrest.
    destruct (settle_draining c task q before Hc Hq Hin) as (H1 & H2 & H3).
    simpl. destruct (settle task q) as [q1 e1]; simpl in *.
    specialize (IH q1 (before ++ e1) H1 Hall Hrest).
    destruct (run rest q1) as [q2 e2]; simpl in *.
    destruct IH as (I1 & I2 & I3). rewrite <- app_assoc in I1.
    split; [exact I1|]. split; [|lia].
    rewrite launched_app, <- app_assoc, I2. exact H2.
Qed.

Lemma addAndStart_draining (ts : list Task) (c : Z) :
  1 <= c -> NoDup ts ->
  let r0 := addAndStart ts (new c) in
  draining c (fst r0) (snd r0)
  /\ launched (snd r0) ++ tasks (fst r0) = ts
  /\ (length (tasks (fst r0)) + length (inflight (fst r0)) = length ts)%nat.
Proof.
  intros Hc Hnd.
  assert (add ts (new c) = set_tasks ts (new c)) as Hadd.
  { unfold add. simpl. by rewrite add_fresh. }
  unfold addAndStart. rewrite Hadd. unfold start. cbn [status set_tasks new tasks].
  destruct (length ts =? 0)%nat eqn:Hz.
  - apply Nat.eqb_eq in Hz. destruct ts; [|done]. simpl.
    split; [|done]. split; [done|]. split; [done|]. right.
    split; [done|]. split; [done|]. split; [done|]. by exists [].
  - match goal with |- context [runNext ?q0] => set (q1 := q0) end.
    destruct (runNext_from_draining (tasks q1) q1 [Emit start_ev (getStatus q1)])
      as [R1 R2]; try done.
    pose proof (runNext_from_fifo (tasks q1) q1) as Hfifo.
    unfold runNext.
    destruct (runNext_from (tasks q1) q1) as [q2 e2]; simpl in *.
    split; [exact R1|]. split; [exact Hfifo|]. rewrite R2. lia.
Qed.

End more.

(** X8: no operation of the queue but [clear()] drops a pending task, and
    tasks are started in the order in which they were added: after any
    operation, the tasks it started followed by the tasks still pending
    are the tasks that were pending, with the ones it added at the end. *)
Theorem X8_tasks_start_in_order {Task : Type} `{EqDecision Task} (op : Op Task) (q : t Task) :
  is_clear op = false ->
  launched (snd (step op q)) ++ tasks (fst (step op q)) = tasks (add (added op) q).
Proof.
  intros Hop. destruct op as [ts|ts| | | |c|task]; simpl; try done.
  - unfold addAndStart, start. simpl.
    destruct (status q); simpl; [|done].
    destruct (length _ =? 0)%nat; simpl; [done|].
    pose proof (runNext_from_fifo
      (fold_left (fun acc task => set_add task acc) ts (tasks q))
      (set_status running (add ts q))) as Hfifo.
    unfold runNext. simpl.
    destruct (runNext_from _ _) as [q' eff]; simpl in *. exact Hfifo.
  - unfold start. destruct (status q); simpl; [|done].
    destruct (length _ =? 0)%nat; simpl; [done|].
    pose proof (runNext_from_fifo (tasks q) (set_status running q)) as Hfifo.
    unfold runNext. simpl.
    destruct (runNext_from _ _) as [q' eff]; simpl in *. exact Hfifo.
  - unfold setConcurrency. simpl.
    destruct (status q); simpl; [done|].
    apply (runNext_from_fifo (tasks q) (set_concurrency (Z.max 1 c) q)).
  - unfold settle. destruct (decide _); simpl; [|done].
    apply (runNext_from_fifo (tasks q)).
Qed.

Lemma X8_witness :
  let q := fst (run [op_addAndStart [1; 2; 3; 4]%nat] (new 2)) in
  launched (snd (step (op_settle 2%nat) q)) ++ tasks (fst (step (op_settle 2%nat) q))
  = tasks (add (added (op_settle 2%nat)) q).
Proof. apply X8_tasks_start_in_order. reflexivity. Defined.

(** X9: a paused queue starts nothing.  While the status is [paused],
    [add], [pause], [clear], [setConcurrency] and the completion of a task
    that was running leave it paused, start no task and emit no [drain];
    only [start()] and [addAndStart()] resume it. *)
Theorem X9_paused_queue_starts_nothing {Task : Type} `{EqDecision Task}
    (op : Op Task) (q : t Task) :
  status q = paused ->
  match op with
  | op_start | op_addAndStart _ => True
  | _ => status (fst (step op q)) = paused
         /\ launched (snd (step op q)) = []
         /\ drains (snd (step op q)) = []
  end.
Proof.
  intros Hp. destruct op as [ts|ts| | | |c|task]; simpl; try done.
  - unfold setConcurrency. simpl. by rewrite Hp.
  - unfold settle. destruct (decide _); simpl; [|done].
    unfold runNext. rewrite runNext_from_paused by done. done.
Qed.

Lemma X9_witness :
  let q := fst (run [op_addAndStart [1; 2; 3]%nat; op_pause] (new 2)) in
  status (fst (step (op_settle 1%nat) q)) = paused
  /\ launched (snd (step (op_settle 1%nat) q)) = []
  /\ drains (snd (step (op_settle 1%nat) q)) = [].
Proof.
  exact (X9_paused_queue_starts_nothing (op_settle 1%nat)
           (fst (run [op_addAndStart [1; 2; 3]%nat; op_pause] (new 2))) eq_refl).
Defined.

(** X10: in every state that a queue built with a cap of at least 1
    reaches, the counter of running tasks is the number of tasks that
    were started and have not settled, so it is never negative; and
    whenever the status is [running], at least one task is in flight. *)
Theorem X10_running_queue_has_a_task_in_flight {Task : Type} `{EqDecision Task}
    (ops : list (Op Task)) (c : Z) :
  1 <= c ->
  let q := fst (run ops (new c)) in
  0 <= currentCount q
  /\ currentCount q = Z.of_nat (length (inflight q))
  /\ (status q = running -> 1 <= currentCount q).
Proof.
  intros Hc q.
  assert (busy q) as (_ & Hn & Hrun).
  { apply run_invariant; [apply step_busy|]. unfold busy, counted. simpl. done. }
  unfold counted in Hn. split; [lia|]. done.
Qed.

Lemma X10_witness :
  let q := fst (run [op_addAndStart [1; 2; 3]%nat; op_setConcurrency 0; op_settle 2%nat;
                     op_add [4%nat]; op_settle 1%nat] (new 2)) in
  0 <= currentCount q
  /\ currentCount q = Z.of_nat (length (inflight q))
  /\ (status q = running -> 1 <= currentCount q).
Proof. apply X10_running_queue_has_a_task_in_flight. lia. Defined.

(** X11: a queue with a cap of at least 1 is given distinct tasks by
    [addAndStart], and then each of them settles, in whatever order they
    finish.  Every task was started exactly once, in the order of the
    list; the queue ends paused with nothing pending and nothing in
    flight; and [drain] was emitted exactly once, as the last thing the
    queue did. *)
Theorem X11_every_task_runs_once_then_drain {Task : Type} `{EqDecision Task}
    (ts : list Task) (ops : list (Op Task)) (c : Z) :
  1 <= c ->
  NoDup ts ->
  Forall (fun op => is_settle op = true) ops ->
  settles_in_flight (op_addAndStart ts :: ops) (new c) ->
  length ops = length ts ->
  let r := run (op_addAndStart ts :: ops) (new c) in
  launched (snd r) = ts
  /\ tasks (fst r) = [] /\ inflight (fst r) = [] /\ status (fst r) = paused
  /\ exists pre, snd r = pre ++ [Emit drain_ev (idle_snapshot c)] /\ drains pre = [].
Proof.
  intros Hc Hnd Hall [_ Hin] Hlen.
  destruct (addAndStart_draining ts c Hc Hnd) as (H1 & H2 & H3).
  simpl in Hin. simpl run.
  destruct (addAndStart ts (new c)) as [q0 e0]; simpl in *.
  destruct (settles_draining c ops q0 e0 Hc H1 Hall Hin) as (S1 & S2 & S3).
  destruct (run ops q0) as [q e]; simpl in *.
  assert (tasks q = [] /\ inflight q = []) as [Ht Hi].
  { split; [destruct (tasks q)|destruct (inflight q)]; try done; simpl in *; lia. }
  destruct S1 as (_ & _ & [(_ & Hne & _)|(Hs & _ & _ & Hd)]); [done|].
  split; [|done].
  rewrite launched_app, <- H2, <- S2, Ht, app_nil_r. done.
Qed.

Lemma X11_witness :
  let ts := [1; 2; 3]%nat in
  let ops := [op_settle 2; op_settle 1; op_settle 3]%nat in
  let r := run (op_addAndStart ts :: ops) (new 2) in
  launched (snd r) = ts
  /\ tasks (fst r) = [] /\ inflight (fst r) = [] /\ status (fst r) = paused
  /\ exists pre, snd r = pre ++ [Emit drain_ev (idle_snapshot 2)] /\ drains pre = [].
Proof.
  apply X11_every_task_runs_once_then_drain.
  - lia.
  - apply (bool_decide_unpack _). vm_compute. exact I.
  - repeat constructor.
  - simpl. repeat split; repeat constructor.
  - reflexivity.
Defined.

End TaskQueueFacts.

(** ** The event emitter *)
Module EventEmitterFacts.
Import EventEmitter.

Lemma emitter_eta (e : t) : {| events := events e; onces := onces e |} = e.
Proof. by destruct e. Qed.

Lemma fold_call (event : string) (todo cur : list Listener) (e : t) (calls : list nat) :
  events e !! event = Some cur ->
  fold_left (call event) todo (e, calls)
  = ({| events := <[event := survivors todo cur]> (events e); onces := onces e |},
     calls ++ map target todo).
Proof.
  revert cur e calls. induction todo as [|l todo IH]; intros cur e calls Hcur; simpl.
  - rewrite app_nil_r. f_equal. unfold survivors.
    rewrite ListFacts.filter_all_true.
    + rewrite insert_id by done. apply eq_sym, emitter_eta.
    + intros x _. rewrite bool_decide_eq_false_2 by apply not_elem_of_nil.
      by rewrite andb_false_r.
  - destruct l as [id|serial id]; simpl.
    + rewrite (IH cur e _ Hcur), <- app_assoc. simpl. f_equal. f_equal. f_equal.
      unfold survivors. apply filter_ext. intros x.
      destruct x as [id'|serial' id']; simpl; [done|].
      f_equal. apply bool_decide_ext. rewrite elem_of_cons.
      split; [by right|]. by intros [?|?].
    + unfold off at 1. rewrite Hcur.
      erewrite IH; [|simpl; apply lookup_insert_eq].
      simpl. rewrite insert_insert_eq, <- app_assoc. simpl. f_equal. f_equal. f_equal.
      unfold survivors. rewrite ListFacts.filter_twice. apply filter_ext. intros x.
      destruct x as [id'|serial' id']; [done|]. simpl.
      destruct (decide (onceListener serial' id' = onceListener serial id)) as [Heq|Hne].
      * rewrite Heq. rewrite (bool_decide_eq_true_2 (_ = _)) by done.
        rewrite (bool_decide_eq_true_2 (_ ∈ _ :: _)) by left. done.
      * rewrite (bool_decide_eq_false_2 _ Hne). simpl. f_equal.
        apply bool_decide_ext. rewrite elem_of_cons.
        split; [by right|]. by intros [?|?].
Qed.

Lemma survivors_all (ls : list Listener) : survivors ls ls = List.filter is_fn ls.
Proof.
  unfold survivors. apply filter_ext_in. intros x Hx.
  apply list_elem_of_In in Hx. rewrite (bool_decide_eq_true_2 _ Hx).
  rewrite andb_true_r. apply negb_involutive.
Qed.

(** [emit] calls every listener of the event, in the order of the set, and
    leaves the functions registered with [on]. *)
Lemma emit_spec (event : string) (e : t) (ls : list Listener) :
  events e !! event = Some ls ->
  emit event e
  = ({| events := <[event := List.filter is_fn ls]> (events e); onces := onces e |},
     map target ls).
Proof.
  intros Hls. unfold emit. rewrite Hls.
  rewrite (fold_call event ls ls e [] Hls), survivors_all. done.
Qed.

Lemma emit_calls (event : string) (e : t) :
  snd (emit event e) = map target (listeners event e).
Proof.
  unfold listeners. destruct (events e !! event) as [ls|] eqn:Hls.
  - by rewrite (emit_spec event e ls Hls).
  - unfold emit. by rewrite Hls.
Qed.

Lemma emit_listeners (event other : string) (e : t) :
  listeners other (fst (emit event e))
  = if decide (other = event) then List.filter is_fn (listeners event e)
    else listeners other e.
Proof.
  unfold listeners. destruct (events e !! event) as [ls|] eqn:Hls.
  - rewrite (emit_spec event e ls Hls). simpl.
    destruct (decide (other = event)) as [->|Hne].
    + by rewrite lookup_insert_eq.
    + by rewrite lookup_insert_ne.
  - unfold emit. rewrite Hls. simpl.
    destruct (decide (other = event)) as [->|Hne]; [by rewrite Hls|done].
Qed.

Lemma emit_onces (event : string) (e : t) : onces (fst (emit event e)) = onces e.
Proof.
  unfold emit. destruct (events e !! event) as [ls|] eqn:Hls; [|done].
  by rewrite (fold_call event ls ls e [] Hls).
Qed.

Lemma on_listeners (event other : string) (l : Listener) (e : t) :
  listeners other (on_ event l e)
  = if decide (other = event) then set_add l (listeners event e) else listeners other e.
Proof.
  unfold listeners, on_. simpl.
  destruct (decide (other = event)) as [->|Hne].
  - by rewrite lookup_insert_eq.
  - by rewrite lookup_insert_ne.
Qed.

Lemma off_listeners (event other : string) (l : Listener) (e : t) :
  listeners other (off event l e)
  = if decide (other = event)
    then List.filter (fun x => negb (bool_decide (x = l))) (listeners event e)
    else listeners other e.
Proof.
  unfold listeners, off. destruct (events e !! event) as [ls|] eqn:Hls; simpl.
  - destruct (decide (other = event)) as [->|Hne].
    + by rewrite lookup_insert_eq.
    + by rewrite lookup_insert_ne.
  - destruct (decide (other = event)) as [->|Hne]; [by rewrite Hls|done].
Qed.

Lemma off_onces (event : string) (l : Listener) (e : t) : onces (off event l e) = onces e.
Proof. unfold off. by destruct (events e !! event). Qed.

Lemma wf_new : wf new.
Proof.
  intros event serial id. unfold listeners. simpl. rewrite lookup_empty.
  by intros ?%elem_of_nil.
Qed.

Lemma elem_of_set_add (l x : Listener) (ls : list Listener) :
  x ∈ set_add l ls <-> x ∈ ls \/ x = l.
Proof.
  unfold set_add. destruct (decide (l ∈ ls)) as [Hin|Hout].
  - split; [by left|]. by intros [?| ->].
  - rewrite elem_of_app, list_elem_of_singleton. done.
Qed.

Lemma step_wf (op : Op) (e : t) : wf e -> wf (step op e).
Proof.
  intros Hwf. destruct op as [event id|event id|event id|event|]; simpl;
    intros ev serial id'.
  - rewrite on_listeners. destruct (decide _); [|apply Hwf].
    intros [Hin|Heq]%elem_of_set_add; [by eapply Hwf|done].
  - rewrite off_listeners, off_onces. destruct (decide _); [|apply Hwf].
    intros Hin%ListFacts.elem_of_kept. by eapply Hwf.
  - unfold once. rewrite on_listeners. simpl. destruct (decide _).
    + intros [Hin|Heq]%elem_of_set_add.
      * apply Nat.lt_lt_succ_r. by eapply Hwf.
      * injection Heq as -> _. lia.
    + intros Hin. apply Nat.lt_lt_succ_r. by eapply Hwf.
  - rewrite emit_listeners, emit_onces.
    destruct (decide _); [|apply Hwf].
    intros Hin%ListFacts.elem_of_kept. by eapply Hwf.
  - unfold listeners. simpl. rewrite lookup_empty. by intros ?%elem_of_nil.
Qed.

Lemma run_wf (ops : list Op) (e : t) : wf e -> wf (run ops e).
Proof.
  revert e. induction ops as [|op ops IH]; intros e Hwf; simpl; [done|].
  apply IH. by apply step_wf.
Qed.

Lemma once_listeners (event other : string) (id : nat) (e : t) :
  wf e ->
  listeners other (once event id e)
  = if decide (other = event) then listeners event e ++ [onceListener (onces e) id]
    else listeners other e.
Proof.
  intros Hwf. unfold once. rewrite on_listeners.
  destruct (decide _); [|done].
  unfold set_add. destruct (decide _) as [Hin|Hout]; [|done].
  apply Hwf in Hin. lia.
Qed.

Lemma once_wf (event : string) (id : nat) (e : t) : wf e -> wf (once event id e).
Proof. apply (step_wf (op_once event id)). Qed.

Lemma decide_same (event : string) {A} (x y : A) :
  (if decide (event = event) then x else y) = x.
Proof. by destruct (decide _). Qed.

(** X12: a listener registered with [once] runs once.  On an emitter in
    any state a caller can bring it to, after [once(event, f)] the next
    [emit(event)] calls what it would have called, in the same order,
    and then [f]; the [emit(event)] after that calls what it would have
    called without the registration. *)
Theorem X12_once_listener_runs_once (ops : list Op) (event : string) (id : nat) :
  let e := run ops new in
  let first := emit event (once event id e) in
  snd first = snd (emit event e) ++ [id]
  /\ snd (emit event (fst first)) = snd (emit event (fst (emit event e))).
Proof.
  intros e first.
  assert (wf e) as Hwf by (apply run_wf, wf_new).
  unfold first. rewrite !emit_calls, !emit_listeners, !decide_same.
  rewrite once_listeners by done. rewrite decide_same.
  split.
  - by rewrite map_app.
  - rewrite List.filter_app. simpl. by rewrite app_nil_r.
Qed.

(** X13: [off(event, f)] does not reach a registration made with
    [once(event, f)]: [once] subscribes a closure of its own, which is a
    different function object from [f].  After [once(event, f)] and then
    [off(event, f)], [emit(event)] still calls [f], after everything it
    calls when only [off(event, f)] was done. *)
Theorem X13_off_does_not_reach_once (ops : list Op) (event : string) (id : nat) :
  let e := run ops new in
  snd (emit event (off event (fn id) (once event id e)))
  = snd (emit event (off event (fn id) e)) ++ [id].
Proof.
  intros e.
  assert (wf e) as Hwf by (apply run_wf, wf_new).
  rewrite !emit_calls, !off_listeners, !decide_same.
  rewrite once_listeners by done. rewrite decide_same.
  rewrite List.filter_app, map_app. done.
Qed.

(** X14: [listenerCount(event)] is the number of calls that the next
    [emit(event)] makes, and emitting one event leaves the listeners of
    every other event as they were. *)
Theorem X14_listenerCount_counts_the_calls (e : t) (event : string) :
  length (snd (emit event e)) = listenerCount event e
  /\ forall other, other <> event ->
       snd (emit other (fst (emit event e))) = snd (emit other e).
Proof.
  split.
  - rewrite emit_calls, length_map. unfold listeners, listenerCount.
    by destruct (events e !! event).
  - intros other Hne. rewrite !emit_calls, emit_listeners.
    by destruct (decide _).
Qed.

(** X15: registering the same function twice.  The listeners of an event
    are a set, so a second [on(event, f)] changes nothing: [emit] calls
    [f] as often as after the first.  Every [once(event, f)] subscribes a
    new closure, so after two of them [emit] calls [f] twice more. *)
Theorem X15_registering_twice (ops : list Op) (event : string) (id : nat) :
  let e := run ops new in
  snd (emit event (on_ event (fn id) (on_ event (fn id) e)))
  = snd (emit event (on_ event (fn id) e))
  /\ snd (emit event (once event id (once event id e))) = snd (emit event e) ++ [id; id].
Proof.
  intros e.
  assert (wf e) as Hwf by (apply run_wf, wf_new).
  split.
  - rewrite !emit_calls, !on_listeners, !decide_same. f_equal.
    unfold set_add at 1. destruct (decide _) as [Hin|Hout]; [done|].
    exfalso. apply Hout. apply elem_of_set_add. by right.
  - rewrite !emit_calls.
    rewrite once_listeners by (by apply once_wf). rewrite decide_same.
    rewrite once_listeners by done. rewrite decide_same.
    by rewrite !map_app, <- app_assoc.
Qed.

End EventEmitterFacts.

(** ** The upload controller *)
Module UploadControllerFacts.
Import UploadController.

Lemma count_app_one p l e : count p (l ++ [e]) = (count p l + one_if (p e))%nat.
Proof.
  unfold count. rewrite List.filter_app, length_app. simpl.
  destruct (p e); reflexivity.
Qed.

Create Rewrite HintDb outcome.

(** *** What leaves the outcome alone

    The setters of the fields the outcome does not read. *)
Lemma outcome_set_taskQueue v c : outcome (set_taskQueue v c) = outcome c.
Proof. reflexivity. Qed.

Lemma outcome_set_status v c : outcome (set_status v c) = outcome c.
Proof. reflexivity. Qed.

Lemma outcome_set_fileHash v c : outcome (set_fileHash v c) = outcome c.
Proof. reflexivity. Qed.

Lemma outcome_set_chunks v c : outcome (set_chunks v c) = outcome c.
Proof. reflexivity. Qed.

Lemma outcome_set_uploadedChunks v c : outcome (set_uploadedChunks v c) = outcome c.
Proof. reflexivity. Qed.

Lemma outcome_set_failedChunks v c : outcome (set_failedChunks v c) = outcome c.
Proof. reflexivity. Qed.

Lemma outcome_set_uploadedBytes v c : outcome (set_uploadedBytes v c) = outcome c.
Proof. reflexivity. Qed.

Lemma outcome_set_splitor v c : outcome (set_splitor v c) = outcome c.
Proof. reflexivity. Qed.

Lemma outcome_set_next_task v c : outcome (set_next_task v c) = outcome c.
Proof. reflexivity. Qed.

Lemma outcome_set_running v c : outcome (set_running v c) = outcome c.
Proof. reflexivity. Qed.

Lemma outcome_set_timers v c : outcome (set_timers v c) = outcome c.
Proof. reflexivity. Qed.

Lemma outcome_set_requests v c : outcome (set_requests v c) = outcome c.
Proof. reflexivity. Qed.

Lemma outcome_set_options v c : outcome (set_options v c) = outcome c.
Proof. reflexivity. Qed.

#[local] Hint Rewrite outcome_set_taskQueue outcome_set_status outcome_set_fileHash outcome_set_chunks
  outcome_set_uploadedChunks outcome_set_failedChunks outcome_set_uploadedBytes outcome_set_splitor
  outcome_set_next_task outcome_set_running outcome_set_timers outcome_set_requests
  outcome_set_options : outcome.

Ltac inert := autorewrite with outcome; try reflexivity.

(** With a token, the pending whole-file verifies and merges are not part
    of the outcome. *)
Lemma outcome_set_verifying_file v c :
  o_token (outcome c) = true -> outcome (set_verifying_file v c) = outcome c.
Proof.
  unfold outcome. simpl. destruct (uploadToken c); [reflexivity|discriminate].
Qed.

Lemma outcome_set_merging v c :
  o_token (outcome c) = true -> outcome (set_merging v c) = outcome c.
Proof.
  unfold outcome. simpl. destruct (uploadToken c); [reflexivity|discriminate].
Qed.

Lemma o_token_Some c token : uploadToken c = Some token -> o_token (outcome c) = true.
Proof. intros H. unfold outcome. simpl. by rewrite H. Qed.

Lemma outcome_emit e c :
  is_complete e = false -> is_error e = false -> outcome (emit e c) = outcome c.
Proof.
  intros Hc He. unfold emit, outcome.
  destruct (listening c) eqn:Hl; simpl; rewrite ?count_app_one, ?Hc, ?He, ?Hl; simpl;
    rewrite ?Nat.add_0_r; reflexivity.
Qed.

Lemma outcome_fold_left {A} (f : t -> A -> t) (l : list A) c :
  (forall c x, outcome (f c x) = outcome c) ->
  outcome (fold_left f l c) = outcome c.
Proof.
  intros Hf. revert c. induction l as [|x l IH]; intros c; simpl; [reflexivity|].
  rewrite IH. apply Hf.
Qed.

Lemma outcome_request r c : outcome (request r c) = outcome c.
Proof. reflexivity. Qed.

Lemma outcome_setStatus s c : outcome (setStatus s c) = outcome c.
Proof.
  unfold setStatus. destruct (decide _); [reflexivity|].
  rewrite outcome_emit by reflexivity. inert.
Qed.

Lemma outcome_updateProgress c : outcome (updateProgress c) = outcome c.
Proof. unfold updateProgress. by rewrite outcome_emit. Qed.

#[local] Hint Rewrite outcome_request outcome_setStatus outcome_updateProgress : outcome.

Lemma outcome_markChunkUploaded chunk c :
  outcome (markChunkUploaded chunk c) = outcome c.
Proof. unfold markChunkUploaded. destruct (decide _); inert. Qed.

Lemma outcome_optimizeUploadTasks restHashes c :
  outcome (optimizeUploadTasks restHashes c) = outcome c.
Proof.
  unfold optimizeUploadTasks. inert. apply outcome_fold_left.
  intros c' chunk. destruct (decide _); inert.
Qed.

Lemma outcome_handleUploadComplete c : outcome (handleUploadComplete c) = outcome c.
Proof.
  unfold handleUploadComplete.
  destruct (_completed c); [reflexivity|].
  destruct (_ <? _)%nat; [reflexivity|].
  destruct (fileHash c) as [h|]; [|reflexivity].
  destruct (uploadToken c) as [token|] eqn:Htoken; [|reflexivity].
  destruct (truthy h && truthy token); [|reflexivity].
  rewrite outcome_set_merging; inert.
  exact (o_token_Some c token Htoken).
Qed.

Lemma outcome_uploadChunk_begin task c : outcome (uploadChunk_begin task c) = outcome c.
Proof.
  unfold uploadChunk_begin.
  destruct (uploadToken c) as [token|]; [|inert].
  destruct (truthy token); [|inert].
  destruct (decide _); inert.
Qed.

#[local] Hint Rewrite outcome_markChunkUploaded outcome_optimizeUploadTasks
  outcome_handleUploadComplete outcome_uploadChunk_begin : outcome.

Lemma outcome_on_queue_effect c e : outcome (on_queue_effect c e) = outcome c.
Proof.
  destruct e as [[| |] at_|task]; simpl; inert.
  - destruct (decide _); [|reflexivity]. rewrite outcome_emit by reflexivity. inert.
  - destruct (decide _); [|reflexivity]. rewrite outcome_emit by reflexivity. inert.
Qed.

Lemma outcome_with_queue f c : outcome (with_queue f c) = outcome c.
Proof.
  unfold with_queue. destruct (f (taskQueue c)) as [q eff].
  rewrite outcome_fold_left by apply outcome_on_queue_effect. inert.
Qed.

Lemma outcome_set_phase task phase c : outcome (set_phase task phase c) = outcome c.
Proof. reflexivity. Qed.

#[local] Hint Rewrite outcome_with_queue outcome_set_phase : outcome.

Lemma outcome_uploadChunk_catch r error rnd c :
  outcome (uploadChunk_catch r error rnd c) = outcome c.
Proof. unfold uploadChunk_catch. destruct (_ <? _); inert. Qed.

Lemma outcome_handleChunks batch c : outcome (handleChunks batch c) = outcome c.
Proof.
  unfold handleChunks. inert. rewrite outcome_fold_left; [inert|].
  intros c' chunk. inert.
Qed.

Lemma outcome_handleWholeHash h c : outcome (handleWholeHash h c) = outcome c.
Proof.
  unfold handleWholeHash.
  destruct (uploadToken (set_fileHash (Some h) c)) as [token|] eqn:Htoken; [|inert].
  destruct (truthy token); [|inert].
  rewrite outcome_set_verifying_file; inert.
  exact (o_token_Some c token Htoken).
Qed.

#[local] Hint Rewrite outcome_uploadChunk_catch outcome_handleChunks
  outcome_handleWholeHash : outcome.

(** *** What ends a session *)

Lemma outcome_cleanup c : outcome (cleanup c) = o_cleanup (outcome c).
Proof.
  unfold cleanup.
  change (outcome (set_listening false ?x)) with (o_cleanup (outcome x)).
  inert.
Qed.

Lemma outcome_handleUploadSuccess fileUrl c :
  outcome (handleUploadSuccess fileUrl c) = o_success (outcome c).
Proof.
  unfold handleUploadSuccess, o_success.
  change (o_completed (outcome c)) with (_completed c).
  destruct (_completed c) eqn:Hdone; [reflexivity|].
  rewrite outcome_cleanup.
  set (c2 := setStatus COMPLETED (set_completed true c)).
  assert (outcome c2 = outcome (set_completed true c)) as H2 by apply outcome_setStatus.
  injection H2 as Hc Hl He Hd Hr Hcr Htk Hea.
  unfold emit, outcome, o_cleanup. simpl in *.
  destruct (listening c2) eqn:Hl2; simpl;
    rewrite ?count_app_one, ?Hc, ?He, ?Hd, ?Hr, ?Hcr, ?Htk, ?Hea, <- ?Hl; simpl;
    f_equal; lia.
Qed.

Lemma outcome_handleError error c :
  outcome (handleError error c) = o_error (outcome c).
Proof.
  unfold handleError, o_error. rewrite outcome_cleanup.
  set (c2 := setStatus ERROR c).
  assert (outcome c2 = outcome c) as H2 by apply outcome_setStatus.
  injection H2 as Hc Hl He Hd Hr Hcr Htk Hea.
  unfold emit, outcome, o_cleanup. simpl in *.
  destruct (listening c2) eqn:Hl2; simpl;
    rewrite ?count_app_one, ?Hc, ?He, ?Hd, ?Hr, ?Hcr, ?Htk, ?Hea, <- ?Hl; simpl;
    f_equal; lia.
Qed.

Lemma outcome_handleWholeHash_resume r c :
  outcome (handleWholeHash_resume r c) = outcome c
  \/ outcome (handleWholeHash_resume r c) = o_success (outcome c).
Proof.
  destruct r as [error|verifyResult]; simpl; [by left|].
  destruct (hasFile verifyResult && truthy_opt (url verifyResult)).
  - right. apply outcome_handleUploadSuccess.
  - left. destruct (rest verifyResult) as [[|h hs]|]; inert.
Qed.

(** *** The invariant *)


Lemma complete_once_success o : complete_once o -> complete_once (o_success o).
Proof.
  intros [Hcalls Hflag]. unfold o_success, complete_once.
  destruct (o_completed o) eqn:Hdone; simpl.
  - rewrite Hdone. split; [done|discriminate].
  - rewrite (Hflag eq_refl). split; [lia|discriminate].
Qed.









(** *** [complete] is emitted at most once, whatever happens *)

Lemma complete_once_flags o o' :
  o_flags o' = o_flags o -> complete_once o -> complete_once o'.
Proof. unfold o_flags, complete_once. intros [= -> ->]. done. Qed.

Lemma flags_success o o' :
  o_flags o' = o_flags o -> o_flags (o_success o') = o_flags (o_success o).
Proof.
  unfold o_flags, o_success. intros [= Hc Hn].
  rewrite Hc. destruct (o_completed o) eqn:Hdone; simpl; rewrite ?Hc, ?Hn, ?Hdone; reflexivity.
Qed.

Lemma step_flags i c :
  o_flags (outcome (step i c)) = o_flags (outcome c)
  \/ o_flags (outcome (step i c)) = o_flags (o_success (outcome c)).
Proof.
  destruct i as [ |r|batch|h|r|task r rnd|task|task r rnd|task|k|r| | | ]; simpl.
  - left. change (o_flags (outcome (set_creating true ?x))) with (o_flags (outcome x)). inert.
  - left. destruct (creating c); [|done]. destruct r as [error|[token size]].
    + by rewrite outcome_handleError.
    + change (o_flags (outcome (set_listening true ?x))) with (o_flags (outcome x)).
      destruct (_ && _); inert.
  - left. inert.
  - left. inert.
  - destruct (verifying_file c) as [|n]; [by left|].
    destruct (outcome_handleWholeHash_resume r (set_verifying_file n c)) as [-> | ->].
    + by left.
    + right. by apply flags_success.
  - left. destruct (find_running task c) as [run|]; [|done].
    destruct (r_phase run); try done.
    destruct r as [error|verifyResult]; [inert|].
    destruct (hasFile verifyResult); inert.
  - left. destruct (find_running task c) as [run|]; [|done].
    destruct (r_phase run); try done.
    by rewrite outcome_emit.
  - left. destruct (find_running task c) as [run|]; [|done].
    destruct (r_phase run); try done.
    destruct r; inert.
  - left. destruct (find_running task c) as [run|]; [|done].
    destruct (r_phase run); inert.
  - left. destruct (timers c !! k); inert.
  - destruct (merging c) as [|n]; [by left|].
    destruct r as [error|fileUrl].
    + left. by rewrite outcome_handleError.
    + right. rewrite outcome_handleUploadSuccess. by apply flags_success.
  - left. destruct (decide _); inert.
  - left. destruct (decide _); inert.
  - left. rewrite outcome_cleanup. change (o_flags (o_cleanup ?x)) with (o_flags x). inert.
Qed.

Lemma run_complete_once inputs c :
  complete_once (outcome c) -> complete_once (outcome (run inputs c)).
Proof.
  revert c. induction inputs as [|i inputs IH]; intros c Hok; simpl; [done|].
  apply IH. destruct (step_flags i c) as [H|H].
  - exact (complete_once_flags _ _ H Hok).
  - exact (complete_once_flags _ _ H (complete_once_success _ Hok)).
Qed.

(** For every sequence of calls, events and answers, also one that starts
    the controller again, [complete] is emitted at most once. *)
Lemma complete_emitted_at_most_once (f : File) (o : UploadOptions) (inputs : list Input) :
  (count is_complete (emitted (run inputs (new f o))) <= 1)%nat.
Proof.
  apply (run_complete_once inputs (new f o)).
  unfold complete_once, outcome, count. simpl. split; [lia|done].
Qed.

(** *** After the listeners are gone *)

(** The fields that say what reached a listener, and whether one is or
    will be registered. *)
Lemma deaf_fields o o' :
  o_listening o' = o_listening o -> o_creating o' = o_creating o ->
  o_complete_delivered o' = o_complete_delivered o ->
  o_error_delivered o' = o_error_delivered o ->
  o_listening o = false /\ o_creating o = false ->
  (o_listening o' = false /\ o_creating o' = false)
  /\ o_complete_delivered o' = o_complete_delivered o
  /\ o_error_delivered o' = o_error_delivered o.
Proof. intros -> -> -> ->. done. Qed.

Lemma deaf_success o :
  o_listening o = false /\ o_creating o = false ->
  (o_listening (o_success o) = false /\ o_creating (o_success o) = false)
  /\ o_complete_delivered (o_success o) = o_complete_delivered o
  /\ o_error_delivered (o_success o) = o_error_delivered o.
Proof.
  intros [Hl Hc]. unfold o_success. destruct (o_completed o); simpl; [done|].
  rewrite Hl. simpl. rewrite Nat.add_0_r. done.
Qed.

Lemma deaf_error o :
  o_listening o = false /\ o_creating o = false ->
  (o_listening (o_error o) = false /\ o_creating (o_error o) = false)
  /\ o_complete_delivered (o_error o) = o_complete_delivered o
  /\ o_error_delivered (o_error o) = o_error_delivered o.
Proof.
  intros [Hl Hc]. simpl. rewrite Hl. simpl. rewrite Nat.add_0_r. done.
Qed.

Ltac still :=
  autorewrite with outcome; first [done | split; [assumption | split; reflexivity]].

Lemma step_deaf i c :
  is_start i = false ->
  o_listening (outcome c) = false /\ o_creating (outcome c) = false ->
  (o_listening (outcome (step i c)) = false /\ o_creating (outcome (step i c)) = false)
  /\ o_complete_delivered (outcome (step i c)) = o_complete_delivered (outcome c)
  /\ o_error_delivered (outcome (step i c)) = o_error_delivered (outcome c).
Proof.
  intros Hi Hdeaf.
  destruct i as [ |r|batch|h|r|task r rnd|task|task r rnd|task|k|r| | | ]; cbn [step];
    try discriminate.
  - destruct Hdeaf as [Hl Hcr]. change (creating c = false) in Hcr. rewrite Hcr. still.
  - still.
  - still.
  - destruct (verifying_file c) as [|n]; [still|].
    destruct (outcome_handleWholeHash_resume r (set_verifying_file n c)) as [-> | ->].
    + by apply deaf_fields.
    + destruct (deaf_success (outcome (set_verifying_file n c)) Hdeaf) as (H1 & H2 & H3).
      rewrite H2, H3. done.
  - destruct (find_running task c) as [run|]; [|still].
    destruct (r_phase run); try still.
    destruct r as [error|verifyResult]; [still|].
    destruct (hasFile verifyResult); still.
  - destruct (find_running task c) as [run|]; [|still].
    destruct (r_phase run); try still.
    rewrite outcome_emit by reflexivity; still.
  - destruct (find_running task c) as [run|]; [|still].
    destruct (r_phase run); try still.
    destruct r; still.
  - destruct (find_running task c) as [run|]; [|still].
    destruct (r_phase run); still.
  - destruct (timers c !! k); still.
  - destruct (merging c) as [|n]; [still|].
    destruct r as [error|fileUrl].
    + rewrite outcome_handleError.
      destruct (deaf_error (outcome (set_merging n c)) Hdeaf) as (H1 & H2 & H3).
      rewrite H2, H3. done.
    + rewrite outcome_handleUploadSuccess.
      destruct (deaf_success (outcome (set_merging n c)) Hdeaf) as (H1 & H2 & H3).
      rewrite H2, H3. done.
  - destruct (decide _); still.
  - destruct (decide _); still.
  - rewrite outcome_cleanup. inert. destruct Hdeaf as [Hl Hcr]. done.
Qed.

(** Once the listeners are gone and [createFile] was answered, nothing
    reaches a listener any more, unless [start()] is called again. *)
Lemma run_after_cleanup inputs c :
  Forall (fun i => is_start i = false) inputs ->
  listening c = false -> creating c = false ->
  listening (run inputs c) = false
  /\ count is_complete (delivered (run inputs c)) = count is_complete (delivered c)
  /\ count is_error (delivered (run inputs c)) = count is_error (delivered c).
Proof.
  revert c. induction inputs as [|i inputs IH]; intros c Hall Hl Hcr; simpl; [done|].
  apply Forall_cons in Hall as [Hi Hall].
  destruct (step_deaf i c Hi (conj Hl Hcr)) as ((H1 & H2) & H3 & H4).
  simpl in H1, H2, H3, H4.
  destruct (IH (step i c) Hall H1 H2) as (H5 & H6 & H7).
  rewrite H6, H7. done.
Qed.



(** In the race, [complete] carries the url of the whole-file verify and
    the answer of the merge is dropped. *)
Example racing_completes_once :
  let c := run (in_start :: Fixtures.racing) (new Fixtures.ab_file Fixtures.no_options) in
  List.filter is_complete (emitted c) = [complete_ev "/api/upload/file/u0/ab.txt"]
  /\ List.filter is_complete (delivered c) = [complete_ev "/api/upload/file/u0/ab.txt"]
  /\ status c = COMPLETED.
Proof. vm_compute. repeat split. Qed.


(** Whatever follows the cancellation, short of a new [start()], neither
    [complete] nor [error] reaches a listener. *)
Lemma cancelled_for_good (inputs : list Input) :
  Forall (fun i => is_start i = false) inputs ->
  let c := run (Fixtures.cancelled ++ inputs) (new Fixtures.ab_file Fixtures.no_options) in
  count is_complete (delivered c) = 0%nat /\ count is_error (delivered c) = 0%nat.
Proof.
  intros Hall c. subst c. unfold run. rewrite fold_left_app.
  fold (run Fixtures.cancelled (new Fixtures.ab_file Fixtures.no_options)).
  set (c0 := run Fixtures.cancelled (new Fixtures.ab_file Fixtures.no_options)).
  fold (run inputs c0).
  destruct (run_after_cleanup inputs c0 Hall) as (_ & -> & ->);
    [reflexivity|reflexivity|].
  split; reflexivity.
Qed.

(** *** Retries *)

Lemma retry_delay_bounds (retryDelay currentRetries : Z) (rnd : Q) :
  0 < retryDelay -> 0 <= currentRetries -> (0 <= rnd)%Q -> (rnd < 1)%Q ->
  (inject_Z retryDelay * 2 ^ currentRetries * (1 # 2)
     <= retry_delay retryDelay currentRetries rnd)%Q
  /\ (retry_delay retryDelay currentRetries rnd
        < inject_Z retryDelay * 2 ^ currentRetries)%Q.
Proof.
  intros Hd Hn H0 H1. unfold retry_delay.
  assert (0 < inject_Z retryDelay * 2 ^ currentRetries)%Q as Hpos.
  { apply Qmult_lt_0_compat.
    - change 0%Q with (inject_Z 0). by rewrite <- Zlt_Qlt.
    - apply Qpower_0_lt. reflexivity. }
  set (b := (inject_Z retryDelay * 2 ^ currentRetries)%Q) in *.
  split; nra.
Qed.

(** The first half of C4: with retries left, the [catch] block counts the
    failure and sets a timer for the same chunk. *)
Lemma uploadChunk_catch_retries (r : Running) (error : Error) (rnd : Q) (c : t) :
  r_retries r < retryCount (options c) ->
  let c' := uploadChunk_catch r error rnd c in
  failedChunks c' !! index (payload (r_task r)) = Some (r_retries r + 1)
  /\ timers c' = timers c ++
       [{| timer_chunk := payload (r_task r);
           timer_delay := retry_delay (retryDelay (options c)) (r_retries r) rnd |}]
  /\ status c' = status c /\ emitted c' = emitted c.
Proof.
  intros Hlt. unfold uploadChunk_catch.
  apply Z.ltb_lt in Hlt. rewrite Hlt. simpl.
  rewrite lookup_insert_eq. done.
Qed.

(** C4 (code defect): the chunk of the session fails four times with
    [retryCount = 3].  The fourth failure rejects the task with the typed
    error, but nothing handles the rejection: when the task has settled the
    controller is still [UPLOADING], no [error] was emitted, no merge was
    requested, and nothing is left to run. *)
Theorem C4_exhausted_retries_do_not_reach_ERROR :
  let c4 := run Fixtures.four_failures (new Fixtures.ab_file Fixtures.no_options) in
  let c := step (in_finally (Fixtures.ab_task 3)) c4 in
  retryCount (options c) = 3
  /\ r_phase <$> find_running (Fixtures.ab_task 3) c4
     = Some (Rejected (ChunkUploadFailed 0 Fixtures.unavailable))
  /\ status c = UPLOADING
  /\ count is_error (emitted c) = 0%nat
  /\ List.filter (fun r => match r with req_mergeFile _ _ _ => true | _ => false end)
       (requests c) = []
  /\ running c = [] /\ timers c = []
  /\ TaskQueue.getStatus (taskQueue c)
     = {| TaskQueue.snap_status := TaskQueue.paused; TaskQueue.pendingTasks := 0;
          TaskQueue.runningTasks := 0; TaskQueue.snap_concurrency := 4 |}.
Proof. vm_compute. repeat split. Qed.

(** *** Accounting of uploaded bytes *)

Lemma markChunkUploaded_marks (chunk : Chunk) (c : t) :
  index chunk ∈ uploadedChunks (markChunkUploaded chunk c).
Proof.
  unfold markChunkUploaded. destruct (decide _) as [Hin|Hout]; [done|].
  unfold updateProgress, emit. simpl. destruct (listening c); simpl; set_solver.
Qed.

(** Marking a chunk a second time changes nothing. *)
Lemma markChunkUploaded_idempotent (chunk : Chunk) (c : t) :
  markChunkUploaded chunk (markChunkUploaded chunk c) = markChunkUploaded chunk c.
Proof.
  pose proof (markChunkUploaded_marks chunk c) as Hin.
  revert Hin. generalize (markChunkUploaded chunk c). intros c' Hin.
  unfold markChunkUploaded. by rewrite decide_True.
Qed.

(** C5 (code defect): the first chunk of the file is marked by its own
    task, which adds its 2 bytes; the whole-file verify then answers that
    only the second chunk is missing, and [optimizeUploadTasks] adds the 2
    bytes of the first chunk again.  4 bytes are counted for one uploaded
    chunk of 2 bytes, in a file of 3 bytes. *)
Theorem C5_whole_file_verify_counts_a_chunk_twice :
  let c := run Fixtures.verify_after_upload (new Fixtures.abc_file Fixtures.no_options) in
  elements (uploadedChunks c) = [0%nat]
  /\ uploaded_size c = 2%nat
  /\ uploadedBytes c = 4%nat
  /\ file_size (file c) = 3%nat.
Proof. vm_compute. repeat split. Qed.

(** *** The merge request *)

#[local] Instance by_index_trans : Transitive by_index.
Proof. unfold by_index. intros x y z. lia. Qed.

Lemma insert_by_index_perm (x : Chunk) (l : list Chunk) : insert_by_index x l ≡ₚ x :: l.
Proof.
  induction l as [|y l IH]; simpl; [done|].
  destruct (index x <=? index y)%nat; [done|].
  rewrite IH. apply Permutation_swap.
Qed.

Lemma sort_by_index_perm (l : list Chunk) : sort_by_index l ≡ₚ l.
Proof.
  unfold sort_by_index. induction l as [|x l IH]; simpl; [done|].
  by rewrite insert_by_index_perm, IH.
Qed.

Lemma insert_by_index_sorted (x : Chunk) (l : list Chunk) :
  Sorted by_index l -> Sorted by_index (insert_by_index x l).
Proof.
  induction l as [|y l IH]; intros Hs; simpl.
  - repeat constructor.
  - destruct (index x <=? index y)%nat eqn:Hxy.
    + apply Nat.leb_le in Hxy. constructor; [done|]. by constructor.
    + apply Nat.leb_gt in Hxy. apply Sorted_inv in Hs as [Hs Hhd].
      constructor; [by apply IH|].
      destruct l as [|z l]; simpl.
      * constructor. unfold by_index. lia.
      * destruct (index x <=? index z)%nat; constructor; unfold by_index.
        -- lia.
        -- by apply HdRel_inv in Hhd.
Qed.

Lemma sort_by_index_sorted (l : list Chunk) : Sorted by_index (sort_by_index l).
Proof.
  unfold sort_by_index. induction l as [|x l IH]; simpl; [constructor|].
  by apply insert_by_index_sorted.
Qed.

(** The digested chunks of a splitter are in index order, one per index. *)
Lemma digested_chunks_in_order (f : File) (size : nat) (s : ChunkSplitor.t) :
  ChunkSplitor.new f size = Some s ->
  map index (calcChunksHash (ChunkSplitor.chunks s))
  = seq 0 (length (ChunkSplitor.chunks s)).
Proof.
  unfold ChunkSplitor.new. destruct (size =? 0)%nat; [discriminate|].
  intros [= <-]. simpl. unfold calcChunksHash. rewrite !map_map, length_map, length_seq.
  simpl. apply map_id.
Qed.

Lemma seq_indexed_sorted (l : list Chunk) (n : nat) :
  map index l = seq n (length l) -> Sorted by_index l.
Proof.
  revert n. induction l as [|x l IH]; intros n Hl; [constructor|].
  simpl in Hl. injection Hl as Hx Hl. constructor; [by eapply IH|].
  destruct l as [|y l]; constructor. simpl in Hl. injection Hl as Hy _.
  unfold by_index. lia.
Qed.

(** Sorting by index puts the chunks of a file back in the order of the
    splitter, in whatever order they were received. *)
Lemma sort_recovers_index_order (f : File) (size : nat) (s : ChunkSplitor.t)
    (received : list Chunk) :
  ChunkSplitor.new f size = Some s ->
  received ≡ₚ calcChunksHash (ChunkSplitor.chunks s) ->
  sort_by_index received = calcChunksHash (ChunkSplitor.chunks s).
Proof.
  intros Hnew Hperm.
  pose proof (digested_chunks_in_order f size s Hnew) as Hidx.
  set (cs := calcChunksHash (ChunkSplitor.chunks s)) in *.
  assert (length (ChunkSplitor.chunks s) = length cs) as Hlen
    by (unfold cs, calcChunksHash; by rewrite length_map).
  rewrite Hlen in Hidx.
  apply (Sorted_unique_strong by_index).
  - intros x1 x2 H1 H2 H12 H21.
    rewrite sort_by_index_perm, Hperm in H1.
    assert (index x1 = index x2) as Heq by (unfold by_index in *; lia).
    apply list_elem_of_lookup in H1 as [i1 Hi1], H2 as [i2 Hi2].
    assert (index x1 = i1) as E1.
    { pose proof (f_equal (fun l => l !! i1) Hidx) as E. simpl in E.
      rewrite list_lookup_fmap, Hi1 in E. simpl in E.
      symmetry in E. apply lookup_seq in E as [E _]. lia. }
    assert (index x2 = i2) as E2.
    { pose proof (f_equal (fun l => l !! i2) Hidx) as E. simpl in E.
      rewrite list_lookup_fmap, Hi2 in E. simpl in E.
      symmetry in E. apply lookup_seq in E as [E _]. lia. }
    congruence.
  - apply sort_by_index_sorted.
  - by eapply seq_indexed_sorted.
  - by rewrite sort_by_index_perm.
Qed.

Lemma setStatus_frame (st : UploadStatus) (c : t) :
  status (setStatus st c) = st
  /\ chunks (setStatus st c) = chunks c
  /\ requests (setStatus st c) = requests c
  /\ merging (setStatus st c) = merging c
  /\ taskQueue (setStatus st c) = taskQueue c.
Proof.
  unfold setStatus. destruct (decide (status c = st)) as [Heq|Hne]; [done|].
  unfold emit. simpl. destruct (listening c); done.
Qed.

(** X16: the merge request lists the chunk digests in index order.  When
    the controller holds the chunks of a file in whatever order the
    batches arrived, every chunk is marked uploaded and the whole-file
    hash and the token are known, [handleUploadComplete] goes to MERGING
    and asks [mergeFile] with the token, the whole-file hash and the
    digests of the chunks in the order of the splitter. *)
Theorem X16_merge_lists_digests_in_index_order
    (f : File) (chunkSize_ : nat) (s : ChunkSplitor.t) (c : t) (h token : string) :
  ChunkSplitor.new f chunkSize_ = Some s ->
  chunks c ≡ₚ calcChunksHash (ChunkSplitor.chunks s) ->
  _completed c = false ->
  (length (chunks c) <= size (uploadedChunks c))%nat ->
  fileHash c = Some h -> uploadToken c = Some token ->
  h <> "" -> token <> "" ->
  let c' := handleUploadComplete c in
  requests c'
  = requests c ++ [req_mergeFile token h (map calcChunkHash (ChunkSplitor.chunks s))]
  /\ chunks c' = calcChunksHash (ChunkSplitor.chunks s)
  /\ status c' = MERGING
  /\ merging c' = S (merging c).
Proof.
  intros Hnew Hperm Hdone Hall Hh Htoken Hhne Htne.
  unfold handleUploadComplete. rewrite Hdone.
  apply Nat.ltb_ge in Hall. rewrite Hall, Hh, Htoken.
  unfold truthy. apply String.eqb_neq in Hhne, Htne. rewrite Hhne, Htne. simpl.
  destruct (setStatus_frame MERGING c) as (Hst & Hch & Hreq & Hm & _).
  unfold request. simpl. rewrite Hch, Hreq, Hm, Hst.
  rewrite (sort_recovers_index_order f chunkSize_ s (chunks c) Hnew Hperm).
  split; [|done]. do 2 f_equal. unfold calcChunksHash. by rewrite map_map.
Qed.

Lemma X16_witness :
  exists s,
    ChunkSplitor.new Fixtures.abc_file 2 = Some s
    /\ let c := Fixtures.all_uploaded in
       let c' := handleUploadComplete c in
       requests c'
       = requests c ++ [req_mergeFile "token" Fixtures.abc_hash
                          (map calcChunkHash (ChunkSplitor.chunks s))]
       /\ chunks c' = calcChunksHash (ChunkSplitor.chunks s)
       /\ status c' = MERGING
       /\ merging c' = S (merging c).
Proof.
  eexists. split; [reflexivity|].
  apply (X16_merge_lists_digests_in_index_order Fixtures.abc_file 2 _
           Fixtures.all_uploaded Fixtures.abc_hash "token" eq_refl).
  - vm_compute. apply Permutation_swap.
  - reflexivity.
  - vm_compute. lia.
  - vm_compute. reflexivity.
  - reflexivity.
  - discriminate.
  - discriminate.
Defined.

(** *** Backoff *)

(** X17: the backoff never shrinks.  Whatever [Math.random()] returns,
    the delay before retry number [n + 1] of a chunk is at least the
    delay before its retry number [n]: the jitter factor lies in
    [0.5, 1) and the base doubles. *)
Theorem X17_backoff_never_shrinks (retryDelay currentRetries : Z) (rnd rnd' : Q) :
  0 <= retryDelay -> 0 <= currentRetries ->
  (0 <= rnd)%Q -> (rnd < 1)%Q -> (0 <= rnd')%Q -> (rnd' < 1)%Q ->
  (retry_delay retryDelay currentRetries rnd
     <= retry_delay retryDelay (currentRetries + 1) rnd')%Q.
Proof.
  intros Hd Hn H0 H1 H0' H1'. unfold retry_delay.
  assert (0 <= inject_Z retryDelay)%Q as Hdq.
  { change 0%Q with (inject_Z 0). by rewrite <- Zle_Qle. }
  assert (0 < 2 ^ currentRetries)%Q as Hpow by (apply Qpower_0_lt; reflexivity).
  assert (2 ^ (currentRetries + 1) == 2 ^ currentRetries * 2)%Q as ->.
  { rewrite Qpower_plus by done. reflexivity. }
  set (p := (2 ^ currentRetries)%Q) in *.
  set (b := inject_Z retryDelay) in *.
  assert (0 <= b * p)%Q as Hbp by (apply Qmult_le_0_compat; lra).
  nra.
Qed.

Lemma X17_witness :
  (retry_delay 1000 2 (9 # 10) <= retry_delay 1000 (2 + 1) 0)%Q.
Proof.
  apply X17_backoff_never_shrinks; try lia; unfold Qle, Qlt; simpl; lia.
Defined.

(** *** Resume *)

Lemma runNext_from_launches_only (pending : list Task) (q : TaskQueue.t Task) :
  0 <= TaskQueue.currentCount q ->
  pending <> [] \/ 1 <= TaskQueue.currentCount q ->
  let r := TaskQueue.runNext_from pending q in
  snd r = map TaskQueue.Launch (TaskQueue.launched (snd r))
  /\ TaskQueue.status (fst r) = TaskQueue.status q.
Proof.
  revert q. induction pending as [|task rest IH]; intros q H0 Hor; simpl.
  - destruct Hor as [?|H1]; [done|].
    destruct (TaskQueue.status q) eqn:Hs; simpl; [done|].
    destruct (TaskQueue.concurrency q <=? TaskQueue.currentCount q); simpl; [done|].
    destruct (TaskQueue.currentCount q =? 0) eqn:Hz; [apply Z.eqb_eq in Hz; lia|done].
  - destruct (TaskQueue.status q) eqn:Hs; simpl; [done|].
    destruct (TaskQueue.concurrency q <=? TaskQueue.currentCount q); simpl; [done|].
    specialize (IH (TaskQueue.launch task (TaskQueue.set_tasks (task :: rest) q))).
    destruct (TaskQueue.runNext_from rest _) as [q' eff]; simpl in *.
    destruct IH as [IH1 IH2]; [lia|right; lia|].
    split; [by rewrite <- IH1|]. by rewrite IH2.
Qed.

Lemma uploadChunk_begin_frame (task : Task) (c : t) :
  status (uploadChunk_begin task c) = status c
  /\ emitted (uploadChunk_begin task c) = emitted c
  /\ taskQueue (uploadChunk_begin task c) = taskQueue c.
Proof.
  unfold uploadChunk_begin.
  destruct (uploadToken c) as [token|]; [|done].
  destruct (truthy token); [|done].
  destruct (decide _); done.
Qed.

Lemma launches_frame (tasks : list Task) (c : t) :
  let c' := fold_left on_queue_effect (map TaskQueue.Launch tasks) c in
  status c' = status c /\ emitted c' = emitted c /\ taskQueue c' = taskQueue c.
Proof.
  revert c. induction tasks as [|task tasks IH]; intros c; simpl; [done|].
  destruct (IH (uploadChunk_begin task c)) as (H1 & H2 & H5).
  destruct (uploadChunk_begin_frame task c) as (H3 & H4 & H6).
  simpl in *. by rewrite H1, H2, H3, H4, H5, H6.
Qed.

Lemma setStatus_changes (st : UploadStatus) (c : t) :
  status c <> st ->
  emitted (setStatus st c) = emitted c ++ [statusChange_ev st].
Proof.
  intros Hne. unfold setStatus. destruct (decide _); [done|].
  unfold emit. simpl. by destruct (listening c).
Qed.

Lemma emit_frame (e : Event) (c : t) :
  status (emit e c) = status c /\ emitted (emit e c) = emitted c ++ [e]
  /\ taskQueue (emit e c) = taskQueue c.
Proof. unfold emit. simpl. by destruct (listening c). Qed.

Lemma set_taskQueue_same (c : t) : set_taskQueue (taskQueue c) c = c.
Proof. by destruct c. Qed.

Lemma handleUploadComplete_status (c : t) :
  status (handleUploadComplete c) = status c \/ status (handleUploadComplete c) = MERGING.
Proof.
  unfold handleUploadComplete.
  destruct (_completed c); [by left|]. destruct (_ <? _)%nat; [by left|].
  destruct (fileHash c); [|by left]. destruct (uploadToken c); [|by left].
  destruct (_ && _); [|by left]. right. simpl.
  by destruct (setStatus_frame MERGING c) as (-> & _).
Qed.

(** X18: [resume()] needs a pending task.  On a paused controller whose
    queue is paused, [resume()] with a task pending sets the queue
    running, takes the controller back to UPLOADING and emits
    [statusChange] and [resume].  With no task pending, which is the case
    when the last chunks were already in flight at the time of the pause,
    the queue only emits [drain]: [resume()] does what
    [handleUploadComplete] does and the controller does not return to
    UPLOADING. *)
Theorem X18_resume_needs_a_pending_task (c : t) :
  status c = PAUSED ->
  TaskQueue.status (taskQueue c) = TaskQueue.paused ->
  0 <= TaskQueue.currentCount (taskQueue c) ->
  let c' := step in_resume c in
  match TaskQueue.tasks (taskQueue c) with
  | [] => c' = handleUploadComplete c /\ status c' <> UPLOADING
  | _ :: _ =>
      status c' = UPLOADING
      /\ emitted c' = emitted c ++ [statusChange_ev UPLOADING; resume_ev]
      /\ TaskQueue.status (taskQueue c') = TaskQueue.running
  end.
Proof.
  intros Hst Hq H0. simpl. rewrite Hst. simpl.
  unfold with_queue, TaskQueue.start. rewrite Hq.
  destruct (TaskQueue.tasks (taskQueue c)) as [|task rest] eqn:Htasks; simpl.
  - rewrite set_taskQueue_same. split; [done|].
    destruct (handleUploadComplete_status c) as [-> | ->]; [by rewrite Hst|done].
  - unfold TaskQueue.runNext. simpl TaskQueue.tasks. rewrite Htasks.
    set (q1 := TaskQueue.set_status TaskQueue.running (taskQueue c)).
    destruct (runNext_from_launches_only (task :: rest) q1) as [Heff Hrun]; [done|by left|].
    destruct (TaskQueue.runNext_from (task :: rest) q1) as [q2 eff]; simpl in *.
    rewrite Heff. rewrite Hst. simpl.
    match goal with |- context [fold_left _ _ ?c0] => set (c1 := c0) end.
    destruct (launches_frame (TaskQueue.launched eff) c1) as (H1 & H2 & H3).
    simpl in H1, H2, H3. rewrite H1, H2, H3.
    assert (status c1 = UPLOADING
            /\ emitted c1 = emitted c ++ [statusChange_ev UPLOADING; resume_ev]
            /\ taskQueue c1 = q2) as (-> & -> & ->).
    { unfold c1.
      destruct (emit_frame resume_ev (setStatus UPLOADING (set_taskQueue q2 c)))
        as (-> & -> & ->).
      destruct (setStatus_frame UPLOADING (set_taskQueue q2 c)) as (-> & _ & _ & _ & ->).
      rewrite setStatus_changes by (simpl; by rewrite Hst).
      simpl. by rewrite <- app_assoc. }
    done.
Qed.

Lemma X18_witness :
  let c := Fixtures.paused_in_flight in
  step in_resume c = handleUploadComplete c /\ status (step in_resume c) <> UPLOADING.
Proof.
  exact (X18_resume_needs_a_pending_task Fixtures.paused_in_flight
           eq_refl eq_refl ltac:(vm_compute; discriminate)).
Defined.

(** *** The retry counters *)

Section retries.
Context (m d : Z).
























End retries.



End UploadControllerFacts.

(** ** The server *)
Module BackendFacts.
Import Backend.
Import ChunkService.
Import ChunkSplitorFacts.

Lemma md5_hex_nonempty (b : bytes) : MD5.hex b <> "".
Proof. unfold MD5.hex, MD5.hex_word, MD5.hex_byte. discriminate. Qed.

Lemma chunkExists_true h d :
  chunkExists h d = true <-> is_Some (chunkFiles d !! getChunkPath h).
Proof. unfold chunkExists. apply bool_decide_eq_true. Qed.

Lemma chunkExists_false h d :
  chunkExists h d = false <-> chunkFiles d !! getChunkPath h = None.
Proof.
  unfold chunkExists. rewrite bool_decide_eq_false, <- eq_None_not_Some. done.
Qed.

Lemma store_ok_empty : store_ok empty_disk.
Proof. unfold store_ok. simpl. apply map_Forall_empty. Qed.

Lemma store_ok_write data d :
  store_ok d ->
  store_ok (write_chunk (getChunkPath (FileUtils.calculateBufferHash data)) data d).
Proof.
  unfold store_ok. simpl. intros Hok. apply map_Forall_insert_2; done.
Qed.

(** What a call of [saveChunk] does, case by case. *)
Lemma saveChunk_cases h data d :
  (chunkExists h d = true /\ saveChunk h data d = inr (getChunkPath h, d))
  \/ (chunkExists h d = false /\ FileUtils.calculateBufferHash data <> h
      /\ saveChunk h data d = inl HashMismatch)
  \/ (chunkExists h d = false /\ FileUtils.calculateBufferHash data = h
      /\ saveChunk h data d = inr (getChunkPath h, write_chunk (getChunkPath h) data d)).
Proof.
  unfold saveChunk. destruct (chunkExists h d); [left; done|right].
  destruct (String.eqb (FileUtils.calculateBufferHash data) h) eqn:Heq; simpl.
  - right. apply String.eqb_eq in Heq. done.
  - left. apply String.eqb_neq in Heq. done.
Qed.

Lemma saveChunk_store_ok h data d :
  store_ok d ->
  store_ok (match saveChunk h data d with inr (_, d') => d' | inl _ => d end).
Proof.
  intros Hok.
  destruct (saveChunk_cases h data d) as [(_ & ->)|[(_ & _ & ->)|(_ & Hh & ->)]];
    [done|done|].
  subst h. by apply store_ok_write.
Qed.

Lemma saveChunks_store_ok calls d : store_ok d -> store_ok (saveChunks calls d).
Proof.
  revert d. induction calls as [|[h data] calls IH]; intros d Hok; simpl; [done|].
  apply IH. by apply saveChunk_store_ok.
Qed.

(** C8: from an empty store, whatever [saveChunk] calls were made, the
    bytes at every path hash to its key; a call for a key that exists
    writes nothing; a call whose bytes do not hash to the claimed digest
    fails with the integrity error and leaves the store as it was (the
    store of the caller is the one before the call); the other calls write
    the bytes under the path of their own digest. *)
Theorem C8_stored_bytes_hash_to_their_key
    (calls : list (string * bytes)) (chunkHash : string) (chunkData : bytes) :
  let d := saveChunks calls empty_disk in
  store_ok d
  /\ store_ok (saveChunks [(chunkHash, chunkData)] d)
  /\ ((chunkExists chunkHash d = true
       /\ saveChunk chunkHash chunkData d = inr (getChunkPath chunkHash, d))
      \/ (chunkExists chunkHash d = false
          /\ FileUtils.calculateBufferHash chunkData <> chunkHash
          /\ saveChunk chunkHash chunkData d = inl HashMismatch
          /\ saveChunks [(chunkHash, chunkData)] d = d)
      \/ (chunkExists chunkHash d = false
          /\ FileUtils.calculateBufferHash chunkData = chunkHash
          /\ saveChunk chunkHash chunkData d
             = inr (getChunkPath chunkHash,
                    write_chunk (getChunkPath chunkHash) chunkData d))).
Proof.
  intros d.
  assert (store_ok d) as Hok by apply saveChunks_store_ok, store_ok_empty.
  split; [exact Hok|]. split; [by apply saveChunks_store_ok|].
  destruct (saveChunk_cases chunkHash chunkData d) as [H|[(Hne & Hh & Hs)|H]];
    [left; exact H| |right; right; exact H].
  right; left. repeat split; try done. simpl. by rewrite Hs.
Qed.


(** *** Chunks arriving at the store *)

Lemma grown_refl bl d : grown bl d d.
Proof. unfold grown. naive_solver. Qed.

Lemma grown_trans bl1 bl2 d1 d2 d3 :
  grown bl1 d1 d2 -> grown bl2 d2 d3 -> grown (bl1 ++ bl2) d1 d3.
Proof.
  intros (A1 & B1 & C1 & D1) (A2 & B2 & C2 & D2). repeat split.
  - eauto.
  - intros p b Hb. destruct (B2 p b Hb) as [H|H]; [|right; set_solver].
    destruct (B1 p b H) as [H'|H']; [by left|right; set_solver].
  - congruence.
  - congruence.
Qed.

Lemma uploadChunk_sound (c : Chunk) (d : Disk) :
  sound_chunk c -> store_ok d ->
  let d' := snd (UploadController.uploadChunk (UploadController.chunk_request c) d) in
  store_ok d' /\ grown [blob c] d d'
  /\ is_Some (chunkFiles d' !! getChunkPath (hash c)).
Proof.
  intros [Hh Hlen] Hok. unfold UploadController.uploadChunk. simpl.
  rewrite Hlen, Z.eqb_refl. simpl.
  destruct (saveChunk_cases (hash c) (blob c) d)
    as [(Hex & ->)|[(_ & Hne & _)|(Hno & _ & ->)]]; simpl.
  - split; [done|]. split; [apply grown_refl|]. by apply chunkExists_true.
  - exfalso. apply Hne. unfold FileUtils.calculateBufferHash. by rewrite Hh.
  - split; [|split].
    + rewrite Hh. by apply store_ok_write.
    + apply chunkExists_false in Hno. repeat split; simpl; try done.
      * intros p b Hb. rewrite lookup_insert_ne; [done|]. intros <-. congruence.
      * intros p b. rewrite lookup_insert. case_decide; [|by left].
        intros [= <-]. right. set_solver.
    + rewrite lookup_insert_eq. done.
Qed.

Lemma receive_sound (arrival : list Chunk) (d : Disk) :
  Forall sound_chunk arrival -> store_ok d ->
  let d' := UploadController.receive arrival d in
  store_ok d' /\ grown (map blob arrival) d d'
  /\ Forall (fun c => is_Some (chunkFiles d' !! getChunkPath (hash c))) arrival.
Proof.
  revert d. induction arrival as [|c arrival IH]; intros d Hall Hok; simpl.
  - split; [done|]. split; [apply grown_refl|constructor].
  - apply Forall_cons in Hall as [Hc Hall].
    destruct (uploadChunk_sound c d Hc Hok) as (Hok1 & Hg1 & Hin1).
    set (d1 := snd (UploadController.uploadChunk (UploadController.chunk_request c) d)) in *.
    destruct (IH d1 Hall Hok1) as (Hok2 & Hg2 & Hin2).
    split; [exact Hok2|]. split; [exact (grown_trans _ _ _ _ _ Hg1 Hg2)|].
    constructor; [|exact Hin2].
    destruct Hin1 as [b Hb]. exists b. by apply Hg2.
Qed.

(** *** Merge and assembly *)

Lemma check_chunks_ok (hs : list string) (i : nat) (d : Disk) :
  Forall (fun h => h <> "" /\ is_Some (chunkFiles d !! getChunkPath h)) hs ->
  FileService.check_chunks i hs d = None.
Proof.
  revert i. induction hs as [|h hs IH]; intros i Hall; simpl; [done|].
  apply Forall_cons in Hall as [[Hne Hex] Hall].
  apply String.eqb_neq in Hne. rewrite Hne.
  apply chunkExists_true in Hex. rewrite Hex. simpl. by apply IH.
Qed.

Lemma pipe_chunks_ok (cs : list Chunk) (acc : bytes) (d : Disk) :
  Forall (fun c => chunkFiles d !! getChunkPath (hash c) = Some (blob c)) cs ->
  FileService.pipe_chunks (map hash cs) acc d = inr (acc ++ concat (map blob cs)).
Proof.
  revert acc. induction cs as [|c cs IH]; intros acc Hall; simpl.
  - by rewrite app_nil_r.
  - apply Forall_cons in Hall as [Hc Hall].
    unfold readChunkStream. rewrite Hc, IH by done. by rewrite app_assoc.
Qed.

Lemma collision_free_spec (l : list bytes) (b1 b2 : bytes) :
  collision_free l -> b1 ∈ l -> b2 ∈ l ->
  getChunkPath (FileUtils.calculateBufferHash b1)
  = getChunkPath (FileUtils.calculateBufferHash b2) -> b1 = b2.
Proof.
  unfold collision_free. rewrite Forall_forall. intros H H1 H2.
  specialize (H b1 H1). rewrite Forall_forall in H. exact (H b2 H2).
Qed.

Lemma mergeFile_ok id fileHash_ hs now d metadata :
  FileService.getFileMetadata id d = Some metadata ->
  hs <> [] ->
  FileService.check_chunks 0 hs d = None ->
  FileService.mergeFile id fileHash_ hs now d
  = inr (FileService.generateFileUrl id (fileName metadata),
         FileService.saveFileMetadata id
           (FileService.completed_record id fileHash_ hs metadata) now d).
Proof.
  intros Hrec Hne Hcheck. unfold FileService.mergeFile.
  rewrite Hrec, Hcheck. destruct hs; [done|reflexivity].
Qed.

Lemma getMergedFilePath_ok id d metadata cs :
  mergedFiles d !! FileService.mergedPath id = None ->
  FileService.getFileMetadata id d = Some metadata ->
  status metadata = completed ->
  chunks metadata = map hash cs ->
  cs <> [] ->
  Forall (fun c => chunkFiles d !! getChunkPath (hash c) = Some (blob c)) cs ->
  FileService.getMergedFilePath id d
  = inr (FileService.mergedPath id,
         FileService.write_merged (FileService.mergedPath id) (concat (map blob cs)) d).
Proof.
  intros Hnone Hrec Hst Hch Hne Hstored. unfold FileService.getMergedFilePath.
  rewrite Hnone, bool_decide_eq_false_2 by (intros [? ?]; discriminate).
  rewrite Hrec, Hst, Hch, (pipe_chunks_ok cs [] d Hstored). simpl.
  destruct cs; [done|reflexivity].
Qed.

(** C2, as the code has it: the chunks of a file reach the store in any
    order; the merge is given their digests in index order; the first
    download then materializes exactly the bytes of the file, provided the
    hash does not collide on the bytes involved (the chunks of the file and
    what the store already held).  Section 9 of the specification leaves
    collisions of the hash aside. *)
Theorem C2_assembled_file_is_the_original
    (f : File) (size : nat) (s : ChunkSplitor.t) (arrival : list Chunk)
    (id fileHash_ now : string) (d : Disk) (r : FileRecord) :
  ChunkSplitor.new f size = Some s ->
  file_content f <> [] ->
  arrival ≡ₚ calcChunksHash (ChunkSplitor.chunks s) ->
  store_ok d ->
  collision_free (map blob (ChunkSplitor.chunks s) ++ stored d) ->
  FileService.getFileMetadata id d = Some r ->
  mergedFiles d !! FileService.mergedPath id = None ->
  exists url d2 d3,
    FileService.mergeFile id fileHash_
      (map hash (calcChunksHash (ChunkSplitor.chunks s))) now
      (UploadController.receive arrival d) = inr (url, d2)
    /\ status <$> FileService.getFileMetadata id d2 = Some completed
    /\ FileService.getMergedFilePath id d2 = inr (FileService.mergedPath id, d3)
    /\ mergedFiles d3 !! FileService.mergedPath id = Some (file_content f).
Proof.
  intros Hnew Hne Hperm Hok Hcf Hrec Hnone.
  set (cs := calcChunksHash (ChunkSplitor.chunks s)) in *.
  pose proof (digested_chunks_sound f size s Hnew) as Hsound. fold cs in Hsound.
  assert (Forall sound_chunk arrival) as Hsound_arr by (by rewrite Hperm).
  destruct (receive_sound arrival d Hsound_arr Hok) as (Hok1 & (Hmono & Horigin & Hmeta & Hmerged) & Hin).
  set (d1 := UploadController.receive arrival d) in *.
  rewrite Hperm in Hin.
  (* every chunk of the file is stored under its digest, with its own bytes *)
  assert (Forall (fun c => chunkFiles d1 !! getChunkPath (hash c) = Some (blob c)) cs) as Hstored.
  { apply Forall_forall. intros c Hc.
    rewrite Forall_forall in Hin, Hsound.
    destruct (Hin c Hc) as [b Hb]. destruct (Hsound c Hc) as [Hh _].
    rewrite Hb. f_equal.
    pose proof (Hok1 _ _ Hb) as Hpath. simpl in Hpath.
    apply (collision_free_spec _ b (blob c) Hcf).
    - destruct (Horigin _ _ Hb) as [Hold|Hnew'].
      + apply elem_of_app. right. unfold stored.
        apply list_elem_of_fmap. exists (getChunkPath (hash c), b). split; [done|].
        by apply elem_of_map_to_list.
      + apply elem_of_app. left. rewrite Hperm in Hnew'.
        unfold cs in Hnew'. by rewrite blobs_of_digested in Hnew'.
    - apply elem_of_app. left. rewrite <- blobs_of_digested. fold cs.
      apply list_elem_of_fmap. by exists c.
    - rewrite <- Hpath. unfold FileUtils.calculateBufferHash. by rewrite Hh. }
  (* the merge *)
  assert (cs <> []) as Hcs by exact (digested_nonempty f size s Hnew Hne).
  assert (FileService.check_chunks 0 (map hash cs) d1 = None) as Hcheck.
  { apply check_chunks_ok. apply Forall_fmap.
    rewrite Forall_forall in Hstored, Hsound. apply Forall_forall. intros c Hc. simpl.
    destruct (Hsound c Hc) as [Hh _]. split.
    - rewrite Hh. apply md5_hex_nonempty.
    - rewrite (Hstored c Hc). done. }
  assert (FileService.getFileMetadata id d1 = Some r) as Hrec1.
  { unfold FileService.getFileMetadata in *. by rewrite Hmeta. }
  assert (map hash cs <> []) as Hhs by (destruct cs; [done|discriminate]).
  eexists _, _, _. split; [exact (mergeFile_ok _ fileHash_ _ now _ _ Hrec1 Hhs Hcheck)|].
  set (d2 := FileService.saveFileMetadata _ _ _ _).
  assert (FileService.getFileMetadata id d2
          = Some (FileService.touch now (FileService.completed_record id fileHash_ (map hash cs) r)))
    as Hrec2 by apply lookup_insert_eq.
  split; [by rewrite Hrec2|].
  assert (mergedFiles d2 !! FileService.mergedPath id = None) as Hnone2.
  { unfold d2. simpl. by rewrite Hmerged. }
  rewrite (getMergedFilePath_ok id d2 _ cs Hnone2 Hrec2 eq_refl eq_refl Hcs Hstored).
  split; [reflexivity|]. simpl. rewrite lookup_insert_eq. f_equal.
  unfold cs. rewrite blobs_of_digested. exact (concat_blobs f size s Hnew).
Qed.

(** C9: a merge request for a whole-file hash that a completed session
    already has is answered with the url of that session, and nothing on
    disk changes; in particular the record of the requesting session is
    what it was. *)
Theorem C9_merge_of_a_known_file_changes_nothing
    (id h : string) (cs : list string) (now : string) (d : Disk)
    (existingFile : FileRecord) :
  h <> "" ->
  FileService.findFileByHash h d = Some existingFile ->
  status existingFile = completed
  /\ fileHash existingFile = Some h
  /\ UploadController.mergeFile id (Some h) (Some cs) now d
     = (UploadController.ok_url (fileUrl existingFile) (Some "文件已存在，无需重复上传"), d)
  /\ FileService.getFileMetadata id
       (snd (UploadController.mergeFile id (Some h) (Some cs) now d))
     = FileService.getFileMetadata id d.
Proof.
  intros Hh Hfind.
  assert (status existingFile = completed /\ fileHash existingFile = Some h) as [Hst Hfh].
  { unfold FileService.findFileByHash in Hfind.
    apply List.find_some in Hfind as [_ Hp].
    apply andb_true_iff in Hp as [H1 H2].
    apply bool_decide_eq_true in H1, H2. done. }
  unfold UploadController.mergeFile.
  apply String.eqb_neq in Hh. rewrite Hh, Hfind. simpl. done.
Qed.

(** C2 as stated fails where the hash collides: the two chunks of the
    file have the same digest, the second one is taken to be stored
    already, and the download is the first chunk twice. *)
Lemma C2_counterexample :
  exists s url d2 d3,
    ChunkSplitor.new Fixtures.twins_file 128 = Some s
    /\ map blob (ChunkSplitor.chunks s) = [Fixtures.twin_1; Fixtures.twin_2]
    /\ FileService.mergeFile "u3" (ChunkSplitor.wholeHash_spec Fixtures.twins_file 128)
         (map hash (calcChunksHash (ChunkSplitor.chunks s))) "t1"
         (UploadController.receive (calcChunksHash (ChunkSplitor.chunks s))
            Fixtures.twins_disk) = inr (url, d2)
    /\ FileService.getMergedFilePath "u3" d2 = inr (FileService.mergedPath "u3", d3)
    /\ mergedFiles d3 !! FileService.mergedPath "u3"
       = Some (Fixtures.twin_1 ++ Fixtures.twin_1)
    /\ Fixtures.twin_1 ++ Fixtures.twin_1 <> file_content Fixtures.twins_file.
Proof.
  eexists _, _, _, _.
  split; [reflexivity|].
  split; [vm_compute; reflexivity|].
  split; [vm_compute; reflexivity|].
  split; [vm_compute; reflexivity|].
  split; [vm_compute; reflexivity|].
  apply (bool_decide_unpack _). vm_compute. exact I.
Qed.

(** The two blocks are different and have the same digest. *)
Example twins_collide :
  Fixtures.twin_1 <> Fixtures.twin_2
  /\ MD5.hex Fixtures.twin_1 = "79054025255fb1a26e4bc422aef54eb4"
  /\ MD5.hex Fixtures.twin_2 = "79054025255fb1a26e4bc422aef54eb4".
Proof.
  split; [apply (bool_decide_unpack _); vm_compute; exact I|].
  split; vm_compute; reflexivity.
Qed.

(** *** The theorems above on a concrete disk *)

Lemma C2_witness :
  exists s url d2 d3,
    ChunkSplitor.new Fixtures.abc_file 2 = Some s
    /\ FileService.mergeFile "u1" Fixtures.abc_hash
         (map hash (calcChunksHash (ChunkSplitor.chunks s))) "t1"
         (UploadController.receive (rev (calcChunksHash (ChunkSplitor.chunks s)))
            Fixtures.fresh_disk) = inr (url, d2)
    /\ status <$> FileService.getFileMetadata "u1" d2 = Some completed
    /\ FileService.getMergedFilePath "u1" d2 = inr (FileService.mergedPath "u1", d3)
    /\ mergedFiles d3 !! FileService.mergedPath "u1" = Some (bytes_of_string "abc").
Proof.
  eexists.
  assert (forall (P : string -> Disk -> Disk -> Prop) (Q : Prop),
            Q -> (exists url d2 d3, P url d2 d3) -> exists url d2 d3, Q /\ P url d2 d3) as Hwrap.
  { intros P Q HQ (url & d2 & d3 & HP). by exists url, d2, d3. }
  apply (Hwrap (fun url d2 d3 => _ /\ _ /\ _ /\ _)); [reflexivity|].
  eapply (C2_assembled_file_is_the_original Fixtures.abc_file 2 _ _ "u1"
            Fixtures.abc_hash "t1" Fixtures.fresh_disk).
  - reflexivity.
  - discriminate.
  - symmetry. apply Permutation_rev.
  - apply map_Forall_empty.
  - unfold collision_free. apply (bool_decide_unpack _). vm_compute. exact I.
  - reflexivity.
  - reflexivity.
Defined.

Lemma C9_witness :
  exists existingFile,
    FileService.findFileByHash Fixtures.abc_hash Fixtures.dedup_disk = Some existingFile
    /\ status existingFile = completed
    /\ fileHash existingFile = Some Fixtures.abc_hash
    /\ UploadController.mergeFile "u2" (Some Fixtures.abc_hash)
         (Some (map hash Fixtures.abc_chunks)) "t3" Fixtures.dedup_disk
       = (UploadController.ok_url (fileUrl existingFile) (Some "文件已存在，无需重复上传"),
          Fixtures.dedup_disk)
    /\ FileService.getFileMetadata "u2"
         (snd (UploadController.mergeFile "u2" (Some Fixtures.abc_hash)
                 (Some (map hash Fixtures.abc_chunks)) "t3" Fixtures.dedup_disk))
       = FileService.getFileMetadata "u2" Fixtures.dedup_disk.
Proof.
  eexists. split; [vm_compute; reflexivity|].
  apply C9_merge_of_a_known_file_changes_nothing; [discriminate|].
  vm_compute. reflexivity.
Defined.

(** The second session of [dedup_disk] is as [createFileRecord] left it,
    and the first one is the completed session that is found. *)
Example dedup_disk_sessions :
  FileService.getFileMetadata "u2" Fixtures.dedup_disk
  = Some {| uploadId := "u2"; fileName := "abc.txt"; fileSize := 3;
            fileType := "text/plain"; lastModified := 0; status := uploading;
            chunks := []; fileHash := None; fileUrl := None;
            createdAt := "t2"; updatedAt := "t2" |}
  /\ (fileUrl <$> FileService.findFileByHash Fixtures.abc_hash Fixtures.dedup_disk)
     = Some (Some "/api/upload/file/u1/abc.txt").
Proof. split; vm_compute; reflexivity. Qed.

(** *** The registry *)

Lemma elem_of_records (r : FileRecord) (d : Disk) :
  r ∈ map snd (map_to_list (metadataFiles d)) <-> exists id, metadataFiles d !! id = Some r.
Proof.
  rewrite list_elem_of_fmap. split.
  - intros ([id r'] & -> & Hin). exists id. by apply elem_of_map_to_list.
  - intros [id Hid]. exists (id, r). split; [done|]. by apply elem_of_map_to_list.
Qed.

Lemma findFileByHash_Some (h : string) (d : Disk) (r : FileRecord) :
  FileService.findFileByHash h d = Some r ->
  (exists id, metadataFiles d !! id = Some r) /\ fileHash r = Some h /\ status r = completed.
Proof.
  unfold FileService.findFileByHash. intros Hfind.
  apply List.find_some in Hfind as [Hin Hp].
  apply list_elem_of_In, elem_of_records in Hin.
  apply andb_true_iff in Hp as [H1 H2]. apply bool_decide_eq_true in H1, H2. done.
Qed.

Lemma findFileByHash_None (h : string) (d : Disk) :
  FileService.findFileByHash h d = None
  <-> forall id r, metadataFiles d !! id = Some r ->
                   ~ (fileHash r = Some h /\ status r = completed).
Proof.
  unfold FileService.findFileByHash. rewrite ListFacts.find_none_iff. split.
  - intros Hall id r Hid [H1 H2].
    specialize (Hall r (proj2 (elem_of_records r d) (ex_intro _ id Hid))).
    apply andb_false_iff in Hall as [H|H]; apply bool_decide_eq_false in H; done.
  - intros Hall r [id Hid]%elem_of_records.
    apply andb_false_iff.
    destruct (decide (fileHash r = Some h)) as [H1|H1];
      [|left; by apply bool_decide_eq_false].
    right. apply bool_decide_eq_false. intros H2. by apply (Hall id r Hid).
Qed.

(** *** The chunk store only grows *)

Lemma saveChunk_keeps (h : string) (data : bytes) (d : Disk) (p : string) (b : bytes) :
  chunkFiles d !! p = Some b ->
  chunkFiles (match saveChunk h data d with inr (_, d') => d' | inl _ => d end) !! p = Some b.
Proof.
  intros Hp.
  destruct (saveChunk_cases h data d) as [(_ & ->)|[(_ & _ & ->)|(Hno & _ & ->)]];
    [done|done|].
  simpl. apply chunkExists_false in Hno.
  rewrite lookup_insert_ne; [done|]. intros <-. congruence.
Qed.

Lemma saveChunk_frame (h : string) (data : bytes) (d : Disk) :
  let d' := match saveChunk h data d with inr (_, d') => d' | inl _ => d end in
  metadataFiles d' = metadataFiles d /\ mergedFiles d' = mergedFiles d.
Proof.
  destruct (saveChunk_cases h data d) as [(_ & ->)|[(_ & _ & ->)|(Hno & _ & ->)]]; done.
Qed.

Lemma uploadChunk_disk (req : UploadController.ChunkRequest) (d : Disk) :
  snd (UploadController.uploadChunk req d) = d
  \/ exists h data,
       snd (UploadController.uploadChunk req d)
       = match saveChunk h data d with inr (_, d') => d' | inl _ => d end.
Proof.
  unfold UploadController.uploadChunk.
  destruct (UploadController.file_ req) as [data|]; [|by left].
  destruct (UploadController.chunkHash req) as [h|]; [|by left].
  destruct (UploadController.chunkIndex req); [|by left].
  destruct (negb _); [by left|].
  right. exists h, data. by destruct (saveChunk h data d) as [e|[p d']].
Qed.

Lemma mergeFile_disk (id : string) (fileHash_ : option string) (chunks_ : option (list string))
    (now : string) (d : Disk) :
  snd (UploadController.mergeFile id fileHash_ chunks_ now d) = d
  \/ exists h cs url,
       fileHash_ = Some h /\ chunks_ = Some cs /\ h <> ""
       /\ FileService.findFileByHash h d = None
       /\ FileService.mergeFile id h cs now d
          = inr (url, snd (UploadController.mergeFile id fileHash_ chunks_ now d)).
Proof.
  unfold UploadController.mergeFile.
  destruct fileHash_ as [h|]; [|by left]. destruct chunks_ as [cs|]; [|by left].
  destruct (String.eqb h "") eqn:Hh; [by left|]. apply String.eqb_neq in Hh.
  destruct (FileService.findFileByHash h d) eqn:Hfind; [by left|].
  destruct (FileService.mergeFile id h cs now d) as [e|[url d']] eqn:Hm; [by left|].
  right. by exists h, cs, url.
Qed.

(** What a successful [mergeFile] of the service found and wrote. *)
Lemma mergeFile_inv (id h : string) (cs : list string) (now url : string) (d d' : Disk) :
  FileService.mergeFile id h cs now d = inr (url, d') ->
  exists metadata,
    FileService.getFileMetadata id d = Some metadata
    /\ cs <> []
    /\ FileService.check_chunks 0 cs d = None
    /\ url = FileService.generateFileUrl id (fileName metadata)
    /\ d' = FileService.saveFileMetadata id
              (FileService.completed_record id h cs metadata) now d.
Proof.
  unfold FileService.mergeFile.
  destruct (FileService.getFileMetadata id d) as [metadata|]; [|done].
  destruct cs as [|c cs]; [done|].
  destruct (FileService.check_chunks 0 (c :: cs) d) eqn:Hcheck; [done|].
  intros [= <- <-]. by exists metadata.
Qed.

Lemma getMergedFilePath_disk (id : string) (d d' : Disk) (p : string) :
  FileService.getMergedFilePath id d = inr (p, d') ->
  p = FileService.mergedPath id
  /\ chunkFiles d' = chunkFiles d /\ metadataFiles d' = metadataFiles d
  /\ is_Some (mergedFiles d' !! p)
  /\ (forall q b, mergedFiles d !! q = Some b -> mergedFiles d' !! q = Some b).
Proof.
  unfold FileService.getMergedFilePath.
  destruct (bool_decide _) eqn:Hex.
  - intros [= <- <-]. apply bool_decide_eq_true in Hex. done.
  - apply bool_decide_eq_false in Hex.
    destruct (FileService.getFileMetadata id d) as [metadata|]; [|done].
    destruct (negb _); [done|].
    destruct (chunks metadata) as [|c cs]; [done|].
    destruct (FileService.pipe_chunks _ _ _) as [e|data]; [done|].
    intros [= <- <-]. simpl. rewrite lookup_insert_eq.
    split; [done|]. split; [done|]. split; [done|]. split; [done|].
    intros q b Hq. rewrite lookup_insert_ne; [done|].
    intros <-. apply Hex. by rewrite Hq.
Qed.

Lemma getFile_disk (id name : string) (d : Disk) :
  let d' := snd (UploadController.getFile id name d) in
  chunkFiles d' = chunkFiles d /\ metadataFiles d' = metadataFiles d
  /\ (forall q b, mergedFiles d !! q = Some b -> mergedFiles d' !! q = Some b).
Proof.
  unfold UploadController.getFile.
  destruct (FileService.getFileInfo id d); [|done].
  destruct (negb _); [done|].
  unfold FileService.createFileReadStream.
  destruct (FileService.getMergedFilePath id d) as [e|[p d1]] eqn:Hm; [done|].
  destruct (getMergedFilePath_disk id d d1 p Hm) as (_ & H1 & H2 & _ & H3).
  destruct (mergedFiles d1 !! p); done.
Qed.

Lemma createFile_disk (body : FileService.FileInfo) (id token now : string) (d : Disk) :
  snd (UploadController.createFile body id token now d) = d
  \/ snd (UploadController.createFile body id token now d)
     = snd (FileService.createFileRecord body id now d).
Proof.
  unfold UploadController.createFile.
  destruct (_ || _); [by left|]. destruct (_ <? _); [by left|]. by right.
Qed.

Lemma serve_keeps (c : UploadController.Call) (d : Disk) (p : string) (b : bytes) :
  chunkFiles d !! p = Some b -> chunkFiles (UploadController.serve c d) !! p = Some b.
Proof.
  intros Hp. destruct c as [body id token now|req|id fh cs now|id name]; simpl.
  - destruct (createFile_disk body id token now d) as [->| ->]; done.
  - destruct (uploadChunk_disk req d) as [->|(h & data & ->)]; [done|].
    by apply saveChunk_keeps.
  - destruct (mergeFile_disk id fh cs now d) as [->|(h & l & url & _ & _ & _ & _ & Hm)];
      [done|].
    apply mergeFile_inv in Hm as (m & _ & _ & _ & _ & ->). done.
  - destruct (getFile_disk id name d) as (-> & _). done.
Qed.

(** X19: the chunk store only grows.  Whatever requests the server
    handles (create, chunk upload, merge, download), a chunk file that
    exists keeps its bytes: no handler deletes or overwrites a chunk. *)
Theorem X19_chunk_store_only_grows
    (calls : list UploadController.Call) (d : Disk) (p : string) (b : bytes) :
  chunkFiles d !! p = Some b ->
  chunkFiles (UploadController.serve_all calls d) !! p = Some b.
Proof.
  revert d. induction calls as [|c calls IH]; intros d Hp; simpl; [done|].
  apply IH. by apply serve_keeps.
Qed.

Lemma X19_witness :
  chunkFiles (UploadController.serve_all Fixtures.second_session Fixtures.merged_disk)
    !! getChunkPath (calcChunkHash (createChunk Fixtures.abc_file 0 2))
  = Some (bytes_of_string "ab").
Proof. apply X19_chunk_store_only_grows. vm_compute. reflexivity. Defined.


(** *** The sessions *)

Lemma check_chunks_None (hs : list string) (i : nat) (d : Disk) :
  FileService.check_chunks i hs d = None ->
  Forall (fun h => h <> "" /\ chunkExists h d = true) hs.
Proof.
  revert i. induction hs as [|h hs IH]; intros i; simpl; [done|].
  destruct (String.eqb h "") eqn:Hh; [done|]. apply String.eqb_neq in Hh.
  destruct (chunkExists h d) eqn:Hex; [|done]. simpl.
  intros Hrest. constructor; [done|]. by eapply IH.
Qed.

Lemma record_ok_mono (d d' : Disk) (metadata : FileRecord) :
  (forall p b, chunkFiles d !! p = Some b -> chunkFiles d' !! p = Some b) ->
  FileService.record_ok d metadata -> FileService.record_ok d' metadata.
Proof.
  intros Hkeep. unfold FileService.record_ok. destruct (decide _); [|done].
  intros (H1 & H2 & H3). split; [done|]. split; [|done].
  eapply Forall_impl; [exact H2|]. intros h [Hne Hex]. split; [done|].
  apply chunkExists_true in Hex as [b Hb]. apply chunkExists_true.
  exists b. by apply Hkeep.
Qed.

Lemma records_ok_mono (d d' : Disk) :
  metadataFiles d' = metadataFiles d ->
  (forall p b, chunkFiles d !! p = Some b -> chunkFiles d' !! p = Some b) ->
  FileService.records_ok d -> FileService.records_ok d'.
Proof.
  intros Hmeta Hkeep Hok. unfold FileService.records_ok. intros id metadata Hid.
  rewrite Hmeta in Hid. eapply record_ok_mono; [exact Hkeep|]. by apply Hok in Hid.
Qed.

Lemma records_ok_save (id : string) (metadata : FileRecord) (now : string) (d : Disk) :
  FileService.records_ok d -> FileService.record_ok d metadata ->
  FileService.records_ok (FileService.saveFileMetadata id metadata now d).
Proof.
  intros Hok Hrec. unfold FileService.records_ok. intros id' metadata'. simpl.
  rewrite lookup_insert. case_decide as Heq.
  - intros [= <-]. exact Hrec.
  - intros Hid. by apply Hok in Hid.
Qed.

Lemma serve_records_ok (c : UploadController.Call) (d : Disk) :
  FileService.records_ok d -> FileService.records_ok (UploadController.serve c d).
Proof.
  intros Hok. destruct c as [body id token now|req|id fh cs now|id name]; simpl.
  - destruct (createFile_disk body id token now d) as [->| ->]; [done|].
    unfold FileService.createFileRecord. simpl. by apply records_ok_save.
  - destruct (uploadChunk_disk req d) as [->|(h & data & ->)]; [done|].
    apply (records_ok_mono d); [apply saveChunk_frame| |done].
    intros p b. apply saveChunk_keeps.
  - destruct (mergeFile_disk id fh cs now d) as [->|(h & l & url & _ & _ & _ & _ & Hm)];
      [done|].
    apply mergeFile_inv in Hm as (m & _ & Hne & Hcheck & _ & ->).
    apply records_ok_save; [done|].
    unfold FileService.record_ok. simpl. split; [done|]. split; [by eapply check_chunks_None|].
    split; by eexists.
  - destruct (getFile_disk id name d) as (H1 & H2 & _).
    apply (records_ok_mono d); [done| |done]. intros p b. by rewrite H1.
Qed.

Lemma records_ok_empty : FileService.records_ok empty_disk.
Proof. apply map_Forall_empty. Qed.

Lemma serve_all_records_ok (calls : list UploadController.Call) (d : Disk) :
  FileService.records_ok d -> FileService.records_ok (UploadController.serve_all calls d).
Proof.
  revert d. induction calls as [|c calls IH]; intros d Hok; simpl; [done|].
  apply IH. by apply serve_records_ok.
Qed.

(** *** Whole-file verify *)

Lemma missingChunks_nil (cs : list string) :
  Forall (fun h => h <> "") cs -> UploadController.missingChunks cs = [].
Proof.
  unfold UploadController.missingChunks. generalize 0%nat.
  assert (forall (f : nat -> nat) (l : list string),
            Forall (fun h => h <> "") l ->
            omap (fun '(index, chunk) => if String.eqb chunk "" then Some index else None)
                 (imap (fun index chunk => (f index, chunk)) l) = []) as H.
  { intros f l. revert f. induction l as [|h l IH]; intros f Hall; simpl; [done|].
    apply Forall_cons in Hall as [Hh Hall]. apply String.eqb_neq in Hh. rewrite Hh.
    apply (IH (f ∘ S)), Hall. }
  intros _ Hall. apply (H id), Hall.
Qed.

(** X20: on every disk that the handlers can produce from an empty one,
    a [verifyHash] answer carries no chunk to upload: [rest] is absent or
    the empty list.  A session record has no chunk list before its merge
    and a list without holes after it, so the indexes of missing chunks
    that the handler computes are never any. *)
Theorem X20_verify_lists_no_missing_chunk
    (calls : list UploadController.Call) (id : string) (uploadHash hashType : option string)
    (result : UploadController.VerifyResult) :
  UploadController.verifyHash id uploadHash hashType
    (UploadController.serve_all calls empty_disk) = UploadController.ok result ->
  UploadController.vr_rest result = None \/ UploadController.vr_rest result = Some [].
Proof.
  set (d := UploadController.serve_all calls empty_disk).
  assert (FileService.records_ok d) as Hok by apply serve_all_records_ok, records_ok_empty.
  unfold UploadController.verifyHash.
  destruct uploadHash as [h|]; [|done]. destruct hashType as [ty|]; [|done].
  destruct (_ || _); [done|].
  destruct (String.eqb ty "chunk"); [intros [= <-]; by left|].
  destruct (String.eqb ty "file"); [|done].
  destruct (FileService.findFileByHash h d); [intros [= <-]; by left|].
  destruct (FileService.getFileMetadata id d) as [metadata|] eqn:Hid;
    [|intros [= <-]; by left].
  apply Hok in Hid. unfold FileService.record_ok in Hid.
  destruct (0 <? length (chunks metadata))%nat eqn:Hlen; [|intros [= <-]; by left].
  intros [= <-]. right. simpl. f_equal.
  destruct (decide _); [|rewrite Hid in Hlen; done].
  destruct Hid as (_ & Hall & _). apply missingChunks_nil.
  eapply Forall_impl; [exact Hall|]. by intros h' [? _].
Qed.

Lemma X20_witness :
  exists result,
    UploadController.verifyHash "u1" (Some "00000000000000000000000000000000") (Some "file")
      (UploadController.serve_all Fixtures.abc_session empty_disk)
    = UploadController.ok result
    /\ (UploadController.vr_rest result = None \/ UploadController.vr_rest result = Some []).
Proof.
  eexists. split; [vm_compute; reflexivity|].
  apply (X20_verify_lists_no_missing_chunk Fixtures.abc_session "u1"
           (Some "00000000000000000000000000000000") (Some "file")).
  vm_compute. reflexivity.
Defined.

(** *** Download *)

Lemma pipe_chunks_total (hs : list string) (acc : bytes) (d : Disk) :
  Forall (fun h => h <> "" /\ chunkExists h d = true) hs ->
  exists data, FileService.pipe_chunks hs acc d = inr data.
Proof.
  revert acc. induction hs as [|h hs IH]; intros acc Hall; simpl; [by eexists|].
  apply Forall_cons in Hall as [[_ Hex] Hall].
  apply chunkExists_true in Hex as [b Hb]. unfold readChunkStream. rewrite Hb.
  by apply IH.
Qed.

(** X21: every completed session can be downloaded.  On every disk that
    the handlers can produce from an empty one, [getFile] for a session
    whose record is completed answers with a stream, never with 404 or
    500: the chunks that the merge checked are still in the store.  The
    declared length is the file size recorded at creation, the body is
    the file then found at the merged path, and on the first download it
    is the stored chunks one after the other in the order of the
    record. *)
Theorem X21_completed_session_downloads
    (calls : list UploadController.Call) (id name : string) (metadata : FileRecord) :
  let d := UploadController.serve_all calls empty_disk in
  FileService.getFileMetadata id d = Some metadata ->
  status metadata = completed ->
  exists download d',
    UploadController.getFile id name d = (UploadController.ok download, d')
    /\ UploadController.contentLength download = fileSize metadata
    /\ mergedFiles d' !! FileService.mergedPath id = Some (UploadController.body download)
    /\ (mergedFiles d !! FileService.mergedPath id = None ->
        FileService.pipe_chunks (chunks metadata) [] d
        = inr (UploadController.body download)).
Proof.
  intros d Hid Hst.
  assert (FileService.records_ok d) as Hok by apply serve_all_records_ok, records_ok_empty.
  pose proof (Hok _ _ Hid) as Hrec. unfold FileService.record_ok in Hrec.
  destruct (decide _); [|done]. destruct Hrec as (Hne & Hall & _).
  unfold UploadController.getFile, FileService.getFileInfo. rewrite Hid. simpl.
  rewrite Hst. simpl.
  unfold FileService.createFileReadStream, FileService.getMergedFilePath.
  destruct (mergedFiles d !! FileService.mergedPath id) as [data|] eqn:Hm.
  - rewrite bool_decide_eq_true_2 by done. rewrite Hm.
    eexists _, _. split; [done|]. simpl. done.
  - rewrite bool_decide_eq_false_2 by (intros [? ?]; done).
    rewrite Hid, Hst. simpl.
    destruct (pipe_chunks_total (chunks metadata) [] d Hall) as [data Hdata].
    rewrite Hdata. destruct (chunks metadata) as [|c cs]; [done|].
    simpl. rewrite lookup_insert_eq.
    eexists _, _. split; [done|]. simpl. rewrite lookup_insert_eq. done.
Qed.

Lemma X21_witness :
  exists metadata download d',
    FileService.getFileMetadata "u1" (UploadController.serve_all Fixtures.abc_session empty_disk)
    = Some metadata
    /\ UploadController.getFile "u1" "x"
         (UploadController.serve_all Fixtures.abc_session empty_disk)
       = (UploadController.ok download, d')
    /\ UploadController.contentLength download = fileSize metadata
    /\ mergedFiles d' !! FileService.mergedPath "u1" = Some (UploadController.body download).
Proof.
  eexists.
  destruct (X21_completed_session_downloads Fixtures.abc_session "u1" "x" _
              ltac:(vm_compute; reflexivity) eq_refl)
    as (download & d' & H1 & H2 & H3 & _).
  exists download, d'. split; [vm_compute; reflexivity|].
  exact (conj H1 (conj H2 H3)).
Defined.

(** X22: a download can be repeated.  After a [getFile] that streamed a
    file, another [getFile] for the session, whatever file name the url
    carries, sends the same headers and the same bytes and leaves the
    disk as it is: the file is assembled once and then reused. *)
Theorem X22_download_is_repeatable
    (id name name' : string) (d d' : Disk) (download : UploadController.Download) :
  UploadController.getFile id name d = (UploadController.ok download, d') ->
  UploadController.getFile id name' d' = (UploadController.ok download, d').
Proof.
  unfold UploadController.getFile, FileService.getFileInfo, FileService.createFileReadStream.
  destruct (FileService.getFileMetadata id d) as [metadata|] eqn:Hid; [|done]. simpl.
  destruct (negb _) eqn:Hst; [done|].
  destruct (FileService.getMergedFilePath id d) as [e|[p d1]] eqn:Hm; [done|].
  destruct (getMergedFilePath_disk id d d1 p Hm) as (-> & H1 & H2 & [data Hdata] & _).
  rewrite Hdata. intros [= <- <-].
  unfold FileService.getFileMetadata in *. rewrite H2, Hid. simpl. rewrite Hst.
  unfold FileService.getMergedFilePath.
  rewrite bool_decide_eq_true_2 by (by eexists). rewrite Hdata. done.
Qed.

Lemma X22_witness :
  exists download d',
    UploadController.getFile "u1" "abc.txt" Fixtures.merged_disk
    = (UploadController.ok download, d')
    /\ UploadController.getFile "u1" "other" d' = (UploadController.ok download, d').
Proof.
  eexists _, _. split; [vm_compute; reflexivity|].
  apply (X22_download_is_repeatable "u1" "abc.txt" "other" Fixtures.merged_disk).
  vm_compute. reflexivity.
Defined.


(** *** Merge *)

Lemma check_chunks_Some (hs : list string) (i : nat) (d : Disk) (e : Error) :
  FileService.check_chunks i hs d = Some e ->
  exists k h,
    hs !! k = Some h
    /\ Forall (fun h' => h' <> "" /\ chunkExists h' d = true) (take k hs)
    /\ ((h = "" /\ e = ChunkHashEmpty (i + k))
        \/ (h <> "" /\ chunkExists h d = false /\ e = ChunkNotOnDisk (i + k) h)).
Proof.
  revert i. induction hs as [|h hs IH]; intros i; simpl; [done|].
  destruct (String.eqb h "") eqn:Hh.
  - apply String.eqb_eq in Hh. intros [= <-]. exists 0%nat, h.
    split; [done|]. split; [constructor|]. left. by rewrite Nat.add_0_r.
  - apply String.eqb_neq in Hh. destruct (chunkExists h d) eqn:Hex; simpl.
    + intros Hrest. destruct (IH _ Hrest) as (k & h' & Hk & Hall & Hcase).
      exists (S k), h'. split; [done|]. split; [by constructor|].
      replace (i + S k)%nat with (S i + k)%nat by lia. exact Hcase.
    + intros [= <-]. exists 0%nat, h.
      split; [done|]. split; [constructor|]. right. by rewrite Nat.add_0_r.
Qed.

(** X23: what [FileService.mergeFile] checks and writes.  It succeeds
    only for a session that has a record, with a chunk list that is not
    empty and whose digests are all non-empty and in the store; it then
    marks the record completed with exactly that list, the whole-file
    hash and the url it returns, and touches neither the chunk files, nor
    the merged files, nor the other sessions.  When it fails the error
    names the reason: no record, no list, or the first position whose
    digest is empty or not on disk, every position before it being
    fine. *)
Theorem X23_merge_checks_every_chunk
    (id fileHash_ : string) (chunks_ : list string) (now : string) (d : Disk) :
  match FileService.mergeFile id fileHash_ chunks_ now d with
  | inr (url, d') =>
      exists metadata,
        FileService.getFileMetadata id d = Some metadata
        /\ chunks_ <> []
        /\ Forall (fun h => h <> "" /\ chunkExists h d = true) chunks_
        /\ url = FileService.generateFileUrl id (fileName metadata)
        /\ (exists r, FileService.getFileMetadata id d' = Some r
                      /\ status r = completed /\ chunks r = chunks_
                      /\ fileHash r = Some fileHash_ /\ fileUrl r = Some url)
        /\ chunkFiles d' = chunkFiles d /\ mergedFiles d' = mergedFiles d
        /\ (forall other, other <> id ->
              FileService.getFileMetadata other d' = FileService.getFileMetadata other d)
  | inl e =>
      match e with
      | RecordMissing => FileService.getFileMetadata id d = None
      | ChunkListMissing => chunks_ = []
      | ChunkHashEmpty k =>
          chunks_ !! k = Some ""
          /\ Forall (fun h => h <> "" /\ chunkExists h d = true) (take k chunks_)
      | ChunkNotOnDisk k h =>
          chunks_ !! k = Some h /\ h <> "" /\ chunkExists h d = false
          /\ Forall (fun h => h <> "" /\ chunkExists h d = true) (take k chunks_)
      | _ => False
      end
  end.
Proof.
  destruct (FileService.mergeFile id fileHash_ chunks_ now d) as [e|[url d']] eqn:Hm.
  - unfold FileService.mergeFile in Hm.
    destruct (FileService.getFileMetadata id d) as [metadata|]; [|by injection Hm as <-].
    destruct chunks_ as [|c cs]; [by injection Hm as <-|].
    destruct (FileService.check_chunks 0 (c :: cs) d) as [e'|] eqn:Hcheck; [|done].
    injection Hm as <-.
    destruct (check_chunks_Some _ _ _ _ Hcheck) as (k & h & Hk & Hall & [[-> ->]|(Hne & Hex & ->)]);
      simpl; done.
  - apply mergeFile_inv in Hm as (metadata & Hid & Hne & Hcheck & -> & ->).
    exists metadata. split; [done|]. split; [done|].
    split; [by eapply check_chunks_None|]. split; [done|].
    split; [|split; [done|split; [done|]]].
    + eexists. split; [apply lookup_insert_eq|]. done.
    + intros other Hother. unfold FileService.getFileMetadata. simpl.
      by rewrite lookup_insert_ne.
Qed.

(** *** Instant upload after a merge *)

(** X24: a file that was merged is found by the whole-file check.
    After a merge request for hash [h] was answered with success, a
    [verifyHash] of type file for [h], from any session, answers
    [hasFile] with the url that the merge request returned. *)
Theorem X24_merged_file_is_found_by_verify
    (id other h : string) (cs : list string) (now : string) (d d' : Disk)
    (url message : option string) :
  UploadController.mergeFile id (Some h) (Some cs) now d
  = (UploadController.ok_url url message, d') ->
  UploadController.verifyHash other (Some h) (Some "file") d'
  = UploadController.ok {| UploadController.vr_hasFile := true;
                           UploadController.vr_url := url;
                           UploadController.vr_rest := None |}.
Proof.
  unfold UploadController.mergeFile, UploadController.verifyHash.
  destruct (String.eqb h "") eqn:Hh; [done|]. simpl.
  destruct (FileService.findFileByHash h d) as [existingFile|] eqn:Hfind.
  - intros [= <- <- <-]. by rewrite Hfind.
  - destruct (FileService.mergeFile id h cs now d) as [e|[u d1]] eqn:Hm; [done|].
    intros [= <- <- <-].
    apply mergeFile_inv in Hm as (metadata & Hid & Hne & Hcheck & -> & ->).
    set (r := FileService.touch now (FileService.completed_record id h cs metadata)).
    assert (FileService.findFileByHash h
              (FileService.saveFileMetadata id
                 (FileService.completed_record id h cs metadata) now d) = Some r) as ->; [|done].
    unfold FileService.findFileByHash. apply ListFacts.find_unique.
    + apply elem_of_records. exists id. simpl. apply lookup_insert_eq.
    + simpl. by rewrite !bool_decide_eq_true_2.
    + intros y [id' Hy]%elem_of_records Hp. simpl in Hy.
      rewrite lookup_insert in Hy. case_decide; [by injection Hy|].
      exfalso. apply andb_true_iff in Hp as [H1 H2]. apply bool_decide_eq_true in H1, H2.
      by apply (proj1 (findFileByHash_None h d) Hfind id' y Hy).
Qed.

Lemma X24_witness :
  exists url message d',
    UploadController.mergeFile "u1" (Some Fixtures.abc_hash)
      (Some (map hash Fixtures.abc_chunks)) "t1"
      (UploadController.receive Fixtures.abc_chunks Fixtures.fresh_disk)
    = (UploadController.ok_url url message, d')
    /\ UploadController.verifyHash "u7" (Some Fixtures.abc_hash) (Some "file") d'
       = UploadController.ok {| UploadController.vr_hasFile := true;
                                UploadController.vr_url := url;
                                UploadController.vr_rest := None |}.
Proof.
  eexists _, _, _. split; [vm_compute; reflexivity|].
  eapply (X24_merged_file_is_found_by_verify "u1" "u7" Fixtures.abc_hash
           (map hash Fixtures.abc_chunks) "t1"
           (UploadController.receive Fixtures.abc_chunks Fixtures.fresh_disk)).
  vm_compute. reflexivity.
Defined.

(** *** Reading a chunk back *)

(** X25: a saved chunk reads back.  After a [saveChunk] that returned,
    [readChunk] of the same key does not throw; it returns the bytes just
    saved when the key was new, and the bytes that were already stored
    under the key, whatever was sent, when it existed. *)
Theorem X25_saved_chunk_reads_back
    (chunkHash : string) (chunkData : bytes) (d d' : Disk) (path : string) :
  saveChunk chunkHash chunkData d = inr (path, d') ->
  path = getChunkPath chunkHash
  /\ readChunk chunkHash d'
     = (if chunkExists chunkHash d then readChunk chunkHash d else inr chunkData)
  /\ exists data, readChunk chunkHash d' = inr data.
Proof.
  intros Hsave.
  destruct (saveChunk_cases chunkHash chunkData d)
    as [(Hex & Hs)|[(_ & _ & Hs)|(Hno & _ & Hs)]]; rewrite Hs in Hsave; [|done|].
  - injection Hsave as <- <-. rewrite Hex. split; [done|]. split; [done|].
    apply chunkExists_true in Hex as [b Hb]. exists b. unfold readChunk. by rewrite Hb.
  - injection Hsave as <- <-. rewrite Hno. unfold readChunk. simpl.
    rewrite lookup_insert_eq. split; [done|]. split; [done|]. by eexists.
Qed.

Lemma X25_witness :
  exists path d',
    saveChunk (MD5.hex (bytes_of_string "ab")) (bytes_of_string "ab") empty_disk
    = inr (path, d')
    /\ path = getChunkPath (MD5.hex (bytes_of_string "ab"))
    /\ readChunk (MD5.hex (bytes_of_string "ab")) d' = inr (bytes_of_string "ab").
Proof.
  eexists _, _.
  assert (saveChunk (MD5.hex (bytes_of_string "ab")) (bytes_of_string "ab") empty_disk
          = inr (getChunkPath (MD5.hex (bytes_of_string "ab")),
                 write_chunk (getChunkPath (MD5.hex (bytes_of_string "ab")))
                   (bytes_of_string "ab") empty_disk)) as Hsave
    by (vm_compute; reflexivity).
  split; [exact Hsave|].
  destruct (X25_saved_chunk_reads_back _ _ _ _ _ Hsave) as (H1 & H2 & _).
  split; [exact H1|]. exact H2.
Defined.

(** *** Creating a session *)

(** X26: what [createFile] accepts.  A request is accepted exactly when
    its file name is not empty, its size is not 0 and the size is at most
    10 GiB; so a session for an empty file is refused.  A refused request
    gets status 400 and changes nothing.  An accepted one gets the token
    and a chunk size of 5 MiB, and leaves a record for the new session
    with status uploading, no chunk list, no hash and no url; the chunk
    files and the merged files are untouched. *)
Theorem X26_createFile_validates
    (body : FileService.FileInfo) (id token now : string) (d : Disk) :
  let accepted :=
    FileService.info_fileName body <> "" /\ FileService.info_fileSize body <> 0
    /\ FileService.info_fileSize body <= UploadController.maxFileSize in
  match UploadController.createFile body id token now d with
  | (UploadController.ok created, d') =>
      accepted
      /\ created = {| UploadController.uploadToken := token;
                      UploadController.created_chunkSize := 5242880 |}
      /\ FileService.getFileInfo id d'
         = Some {| FileService.i_uploadId := id;
                   FileService.i_fileName := FileService.info_fileName body;
                   FileService.i_fileSize := FileService.info_fileSize body;
                   FileService.i_fileType := FileService.info_fileType body;
                   FileService.i_status := uploading;
                   FileService.i_fileHash := None; FileService.i_fileUrl := None;
                   FileService.i_createdAt := now; FileService.i_updatedAt := now |}
      /\ chunks <$> FileService.getFileMetadata id d' = Some []
      /\ chunkFiles d' = chunkFiles d /\ mergedFiles d' = mergedFiles d
  | (UploadController.status_400 _, d') => ~ accepted /\ d' = d
  | _ => False
  end.
Proof.
  intros accepted. unfold accepted, UploadController.createFile.
  destruct (String.eqb _ "") eqn:Hname; simpl.
  { apply String.eqb_eq in Hname. split; [|done]. intros [H _]. done. }
  apply String.eqb_neq in Hname.
  destruct (_ =? 0) eqn:Hsize; simpl.
  { apply Z.eqb_eq in Hsize. split; [|done]. intros (_ & H & _). done. }
  apply Z.eqb_neq in Hsize.
  destruct (_ <? _) eqn:Hmax.
  { apply Z.ltb_lt in Hmax. split; [|done]. intros (_ & _ & H). lia. }
  apply Z.ltb_ge in Hmax. simpl.
  split; [done|]. split; [done|].
  unfold FileService.getFileInfo, FileService.getFileMetadata. simpl.
  rewrite lookup_insert_eq. done.
Qed.

(** *** Checking a batch *)





(** *** A whole session *)

(** After the chunks of a file have arrived, in any order, each of them is
    stored under its digest with its own bytes, if the hash does not collide
    on them and on what the store held. *)
Lemma received_chunks_stored
    (f : File) (size : nat) (s : ChunkSplitor.t) (arrival : list Chunk) (d : Disk) :
  ChunkSplitor.new f size = Some s ->
  arrival ≡ₚ calcChunksHash (ChunkSplitor.chunks s) ->
  store_ok d ->
  collision_free (map blob (ChunkSplitor.chunks s) ++ stored d) ->
  let d1 := UploadController.receive arrival d in
  Forall (fun c => chunkFiles d1 !! getChunkPath (hash c) = Some (blob c))
         (calcChunksHash (ChunkSplitor.chunks s))
  /\ metadataFiles d1 = metadataFiles d /\ mergedFiles d1 = mergedFiles d.
Proof.
  intros Hnew Hperm Hok Hcf.
  set (cs := calcChunksHash (ChunkSplitor.chunks s)) in *.
  pose proof (digested_chunks_sound f size s Hnew) as Hsound. fold cs in Hsound.
  assert (Forall sound_chunk arrival) as Hsound_arr by (by rewrite Hperm).
  destruct (receive_sound arrival d Hsound_arr Hok)
    as (Hok1 & (Hmono & Horigin & Hmeta & Hmerged) & Hin).
  simpl. set (d1 := UploadController.receive arrival d) in *.
  rewrite Hperm in Hin. split; [|done].
  apply Forall_forall. intros c Hc.
  rewrite Forall_forall in Hin, Hsound.
  destruct (Hin c Hc) as [b Hb]. destruct (Hsound c Hc) as [Hh _].
  rewrite Hb. f_equal.
  pose proof (Hok1 _ _ Hb) as Hpath. simpl in Hpath.
  apply (collision_free_spec _ b (blob c) Hcf).
  - destruct (Horigin _ _ Hb) as [Hold|Hnew'].
    + apply elem_of_app. right. unfold stored.
      apply list_elem_of_fmap. exists (getChunkPath (hash c), b). split; [done|].
      by apply elem_of_map_to_list.
    + apply elem_of_app. left. rewrite Hperm in Hnew'.
      unfold cs in Hnew'. by rewrite blobs_of_digested in Hnew'.
  - apply elem_of_app. left. rewrite <- blobs_of_digested. fold cs.
    apply list_elem_of_fmap. by exists c.
  - rewrite <- Hpath. unfold FileUtils.calculateBufferHash. by rewrite Hh.
Qed.

(** X28: a whole session on the server.  A session is created for a
    file with the body that the client posts, the digested chunks of the
    file arrive in any order, and the merge is asked with a whole-file
    hash that no completed session has and the digests in index order.
    If the hash does not collide on the chunks of the file and on what
    the store held, the merge answers with the url of the session, and
    the download of the session then streams the bytes of the file, with
    the size of the file as its declared length. *)
Theorem X28_uploaded_file_downloads_intact
    (f : File) (size : nat) (s : ChunkSplitor.t) (arrival : list Chunk)
    (id token t0 t1 h name : string) (d : Disk) :
  ChunkSplitor.new f size = Some s ->
  file_content f <> [] ->
  file_name f <> "" ->
  Z.of_nat (file_size f) <= UploadController.maxFileSize ->
  arrival ≡ₚ calcChunksHash (ChunkSplitor.chunks s) ->
  store_ok d ->
  collision_free (map blob (ChunkSplitor.chunks s) ++ stored d) ->
  mergedFiles d !! FileService.mergedPath id = None ->
  h <> "" ->
  FileService.findFileByHash h d = None ->
  let d1 := snd (UploadController.createFile (UploadController.createFile_body f) id token t0 d) in
  let d2 := UploadController.receive arrival d1 in
  let merged :=
    UploadController.mergeFile id (Some h)
      (Some (map hash (calcChunksHash (ChunkSplitor.chunks s)))) t1 d2 in
  fst merged
  = UploadController.ok_url (Some (FileService.generateFileUrl id (file_name f))) None
  /\ exists download d4,
       UploadController.getFile id name (snd merged) = (UploadController.ok download, d4)
       /\ UploadController.body download = file_content f
       /\ UploadController.contentLength download = Z.of_nat (file_size f).
Proof.
  intros Hnew Hne Hname Hmax Hperm Hok Hcf Hnone Hh Hfind d1 d2 merged.
  set (cs := calcChunksHash (ChunkSplitor.chunks s)) in *.
  set (r0 := {| uploadId := id; fileName := file_name f;
                fileSize := Z.of_nat (file_size f); fileType := file_type f;
                lastModified := file_lastModified f; status := uploading;
                chunks := []; fileHash := None; fileUrl := None;
                createdAt := t0; updatedAt := t0 |}).
  (* the session is created *)
  assert (d1 = FileService.set_metadata id r0 d) as Hd1.
  { unfold d1, UploadController.createFile, UploadController.createFile_body. simpl.
    apply String.eqb_neq in Hname. rewrite Hname. simpl.
    assert (Z.of_nat (file_size f) <> 0) as Hsize.
    { unfold file_size. destruct (file_content f); [done|]. simpl. lia. }
    apply Z.eqb_neq in Hsize. rewrite Hsize.
    apply Z.ltb_ge in Hmax. rewrite Hmax. reflexivity. }
  (* the chunks arrive *)
  assert (store_ok d1) as Hok1 by (by rewrite Hd1).
  assert (collision_free (map blob (ChunkSplitor.chunks s) ++ stored d1)) as Hcf1
    by (by rewrite Hd1).
  destruct (received_chunks_stored f size s arrival d1 Hnew Hperm Hok1 Hcf1)
    as (Hstored & Hmeta & Hmerged).
  fold cs d2 in Hstored, Hmeta, Hmerged.
  assert (FileService.getFileMetadata id d2 = Some r0) as Hrec.
  { unfold FileService.getFileMetadata. rewrite Hmeta, Hd1. simpl. apply lookup_insert_eq. }
  assert (FileService.findFileByHash h d2 = None) as Hfind2.
  { apply findFileByHash_None. intros id' r. rewrite Hmeta, Hd1. simpl.
    rewrite lookup_insert. case_decide.
    - intros [= <-] [? _]. done.
    - by apply findFileByHash_None. }
  (* the merge *)
  pose proof (digested_chunks_sound f size s Hnew) as Hsound. fold cs in Hsound.
  assert (cs <> []) as Hcs by exact (digested_nonempty f size s Hnew Hne).
  assert (map hash cs <> []) as Hhs by (destruct cs; [done|discriminate]).
  assert (FileService.check_chunks 0 (map hash cs) d2 = None) as Hcheck.
  { apply check_chunks_ok. apply Forall_fmap.
    rewrite Forall_forall in Hstored, Hsound. apply Forall_forall. intros c Hc. simpl.
    destruct (Hsound c Hc) as [Hc' _]. split.
    - rewrite Hc'. apply md5_hex_nonempty.
    - by rewrite (Hstored c Hc). }
  assert (merged = (UploadController.ok_url
                      (Some (FileService.generateFileUrl id (file_name f))) None,
                    FileService.saveFileMetadata id
                      (FileService.completed_record id h (map hash cs) r0) t1 d2)) as ->.
  { unfold merged, UploadController.mergeFile.
    apply String.eqb_neq in Hh. rewrite Hh, Hfind2.
    by rewrite (mergeFile_ok id h (map hash cs) t1 d2 r0 Hrec Hhs Hcheck). }
  split; [done|]. simpl snd.
  (* the download *)
  set (d3 := FileService.saveFileMetadata _ _ _ _).
  assert (FileService.getFileMetadata id d3
          = Some (FileService.touch t1 (FileService.completed_record id h (map hash cs) r0)))
    as Hrec3 by apply lookup_insert_eq.
  assert (mergedFiles d3 !! FileService.mergedPath id = None) as Hnone3.
  { unfold d3. simpl. by rewrite Hmerged, Hd1. }
  pose proof (getMergedFilePath_ok id d3 _ cs Hnone3 Hrec3 eq_refl eq_refl Hcs Hstored)
    as Hpath.
  unfold UploadController.getFile, FileService.getFileInfo,
    FileService.createFileReadStream.
  rewrite Hrec3, Hpath. simpl. rewrite lookup_insert_eq.
  eexists _, _. split; [reflexivity|]. simpl. split; [|done].
  unfold cs. rewrite blobs_of_digested. exact (concat_blobs f size s Hnew).
Qed.

Lemma X28_witness :
  exists s download d4,
    ChunkSplitor.new Fixtures.abc_file 2 = Some s
    /\ let d1 := snd (UploadController.createFile
                        (UploadController.createFile_body Fixtures.abc_file)
                        "u1" "token" "t0" empty_disk) in
       let d2 := UploadController.receive (rev (calcChunksHash (ChunkSplitor.chunks s))) d1 in
       let merged :=
         UploadController.mergeFile "u1" (Some Fixtures.abc_hash)
           (Some (map hash (calcChunksHash (ChunkSplitor.chunks s)))) "t1" d2 in
       fst merged
       = UploadController.ok_url
           (Some (FileService.generateFileUrl "u1" (file_name Fixtures.abc_file))) None
       /\ UploadController.getFile "u1" "abc.txt" (snd merged)
          = (UploadController.ok download, d4)
       /\ UploadController.body download = file_content Fixtures.abc_file
       /\ UploadController.contentLength download = Z.of_nat (file_size Fixtures.abc_file).
Proof.
  pose proof (eq_refl : ChunkSplitor.new Fixtures.abc_file 2 = Some _) as Hnew.
  match type of Hnew with _ = Some ?s0 => exists s0; set (s := s0) in * end.
  destruct (X28_uploaded_file_downloads_intact Fixtures.abc_file 2 s
              (rev (calcChunksHash (ChunkSplitor.chunks s)))
              "u1" "token" "t0" "t1" Fixtures.abc_hash "abc.txt" empty_disk Hnew)
    as (H1 & download & d4 & H2 & H3 & H4).
  - discriminate.
  - discriminate.
  - vm_compute. discriminate.
  - symmetry. apply Permutation_rev.
  - apply map_Forall_empty.
  - unfold collision_free. apply (bool_decide_unpack _). vm_compute. exact I.
  - reflexivity.
  - vm_compute. discriminate.
  - vm_compute. reflexivity.
  - exists download, d4. split; [exact Hnew|].
    exact (conj H1 (conj H2 (conj H3 H4))).
Defined.

End BackendFacts.

(** ** getFileExtension *)
Module UtilsFacts.
Import Utils.

Lemma lastIndexOf_lacks (c : ascii) (s : string) : lacks c s = true -> lastIndexOf c s = -1.
Proof.
  induction s as [|a r IH]; simpl; [done|].
  intros [Ha Hr]%andb_true_iff. rewrite (IH Hr). simpl.
  apply negb_true_iff in Ha. by rewrite Ha.
Qed.

Lemma lastIndexOf_split (c : ascii) (stem ext : string) :
  lacks c ext = true ->
  lastIndexOf c (String.append stem (String c ext)) = Z.of_nat (String.length stem).
Proof.
  intros Hext. induction stem as [|a stem IH]; simpl.
  - rewrite (lastIndexOf_lacks c ext Hext). simpl. by rewrite Ascii.eqb_refl.
  - rewrite IH. destruct (0 <=? Z.of_nat (String.length stem)) eqn:H0; [lia|].
    apply Z.leb_gt in H0. lia.
Qed.

Lemma substring_all (s : string) : String.substring 0 (String.length s) s = s.
Proof. induction s as [|a s IH]; simpl; [done|]. by rewrite IH. Qed.

Lemma substring_past (n m : nat) (s : string) :
  (String.length s <= n)%nat -> String.substring n m s = "".
Proof.
  revert n m. induction s as [|a s IH]; intros n m Hn; simpl.
  - by destruct n, m.
  - destruct n as [|n]; [simpl in Hn; lia|]. apply IH. simpl in Hn. lia.
Qed.

Lemma substring_skip (stem rest : string) (m : nat) :
  String.substring (String.length stem) m (String.append stem rest)
  = String.substring 0 m rest.
Proof. induction stem as [|a stem IH]; [done|]. exact IH. Qed.

Lemma length_append (s1 s2 : string) :
  String.length (String.append s1 s2) = (String.length s1 + String.length s2)%nat.
Proof.
  induction s1 as [|a s1 IH]; [done|].
  change (S (String.length (String.append s1 s2))
          = S (String.length s1 + String.length s2)).
  by rewrite IH.
Qed.

Lemma append_assoc (s1 s2 s3 : string) :
  String.append (String.append s1 s2) s3 = String.append s1 (String.append s2 s3).
Proof.
  induction s1 as [|a s1 IH]; [done|].
  change (String a (String.append (String.append s1 s2) s3)
          = String a (String.append s1 (String.append s2 s3))).
  by rewrite IH.
Qed.

(** X29: [getFileExtension] returns what follows the last dot of a file
    name, and the empty string when the name has no dot or when its only
    dot is its first character: the unsigned shift turns the positions -1
    and 0 into offsets past the end of any string. *)
Theorem X29_getFileExtension_is_the_text_after_the_last_dot (filename : string) :
  Z.of_nat (String.length filename) < 2 ^ 32 ->
  (lacks "." filename = true -> getFileExtension filename = "")
  /\ (forall ext, filename = String "." ext -> lacks "." ext = true ->
                  getFileExtension filename = "")
  /\ (forall stem ext, filename = String.append stem (String "." ext) ->
                       stem <> "" -> lacks "." ext = true ->
                       getFileExtension filename = ext).
Proof.
  intros Hlen. unfold getFileExtension, slice, to_uint32. split; [|split].
  - intros Hno. rewrite (lastIndexOf_lacks _ _ Hno).
    apply substring_past. change ((-1 - 1) mod 2 ^ 32 + 2) with (2 ^ 32). lia.
  - intros ext -> Hext.
    change (String "." ext) with (String.append "" (String "." ext)) at 1.
    rewrite (lastIndexOf_split "." "" ext Hext).
    apply substring_past. change ((Z.of_nat (String.length "") - 1) mod 2 ^ 32 + 2)
      with (2 ^ 32 + 1). lia.
  - intros stem ext -> Hstem Hext.
    rewrite (lastIndexOf_split "." stem ext Hext).
    rewrite length_append in Hlen |- *. simpl in Hlen |- *.
    assert (1 <= String.length stem)%nat as H1 by (destruct stem; [done|simpl; lia]).
    rewrite Z.mod_small by lia.
    replace (Z.to_nat (Z.of_nat (String.length stem) - 1 + 2))
      with (String.length (String.append stem ".")) by (rewrite length_append; simpl; lia).
    replace (String.append stem (String "." ext))
      with (String.append (String.append stem ".") ext) by apply append_assoc.
    rewrite substring_skip.
    replace (_ - _)%nat with (String.length ext); [apply substring_all|].
    rewrite length_append. simpl. lia.
Qed.

Lemma X29_witness :
  getFileExtension "archive.tar.gz" = "gz"
  /\ getFileExtension "README" = ""
  /\ getFileExtension ".bashrc" = "".
Proof.
  split; [|split].
  - apply (X29_getFileExtension_is_the_text_after_the_last_dot "archive.tar.gz"
             ltac:(vm_compute; reflexivity)) with (stem := "archive.tar");
      [reflexivity|discriminate|reflexivity].
  - reflexivity.
  - reflexivity.
Defined.

End UtilsFacts.
